(** * Ember: the profit calculator of the Token Jar monitor

    A shallow embedding of [utils/profitCalculator.js] (the functions
    [calculateProfit], [calculateOptimalBurn] and [formatProfitData]) and
    the properties its specification states about them.

    JavaScript numbers are IEEE-754 binary64 values; they are modelled by
    Rocq's primitive [float], whose operations are specified against
    [spec_float] by the axioms of [FloatAxioms].  Integer quantities that
    the program keeps far below 2^53 (array lengths, gas units) are kept
    in [Z] and converted where the program multiplies them with a float. *)

From Stdlib Require Import ZArith NArith List String Ascii Bool Lia Floats.
From Stdlib Require Import Reals Lra Psatz Permutation.
Import ListNotations.

Local Open Scope Z_scope.

(** ** JavaScript values *)

Module JS.

(** A property read that may yield [undefined]. *)
Definition optional (A : Type) := option A.

(** ToBoolean on a number: 0, -0 and NaN are falsy. *)
Definition truthy (x : float) : bool :=
  negb (PrimFloat.is_zero x || PrimFloat.is_nan x).

(** [v || d] where [v] is a number or [undefined]. *)
Definition or_else (v : optional float) (d : float) : float :=
  match v with
  | Some x => if truthy x then x else d
  | None => d
  end.

(** ToNumber: [undefined] becomes NaN in arithmetic. *)
Definition toNumber (v : optional float) : float :=
  match v with
  | Some x => x
  | None => PrimFloat.nan
  end.

(** An integer as the spec-level float it denotes exactly. *)
Definition Z2SF (z : Z) : spec_float :=
  match z with
  | Z0 => S754_zero false
  | Zpos p => S754_finite false p 0
  | Zneg p => S754_finite true p 0
  end.

(** The Number value of an integer (round to nearest, ties to even);
    exact below 2^53. *)
Definition ofZ (z : Z) : float :=
  SF2Prim (binary_normalize prec emax z 0 false).

(** Exceptions the modelled code can raise. *)
Inductive error : Type :=
| NUMERIC_FAULT      (* ethers: value outside fixed512 *)
| INVALID_ARGUMENT.  (* ethers: more than 80 decimals *)

Inductive result (A : Type) : Type :=
| Ok (a : A)
| Throw (e : error).
Arguments Ok {A} a.
Arguments Throw {A} e.

Definition bind {A B} (m : result A) (k : A -> result B) : result B :=
  match m with
  | Ok a => k a
  | Throw e => Throw e
  end.

(** The value an [async] function hands to its caller. *)
Inductive Promise (A : Type) : Type :=
| Fulfilled (a : A)
| Rejected (e : error).
Arguments Fulfilled {A} a.
Arguments Rejected {A} e.

(** Running the body of an [async] function. *)
Definition async {A} (body : result A) : Promise A :=
  match body with
  | Ok a => Fulfilled a
  | Throw e => Rejected e
  end.

(** Object spread [{...p}] of a Promise: a Promise has no own
    enumerable property, so nothing is copied, whatever it settles to. *)
Definition spread_promise {A} (p : Promise A) : option A := None.

End JS.

Notation "x <- m ;; k" := (JS.bind m (fun x => k))
  (at level 61, m at next level, right associativity).

(** ** ethers: [formatUnits] followed by [parseFloat] *)

Module Ethers.

(** [formatUnits] goes through a signed fixed-point number 512 bits
    wide with at most 80 decimals. *)
Definition fixed_limit : Z := 2 ^ 511.
Definition max_decimals : N := 80.

Definition in_range (value : Z) (decimals : N) : bool :=
  (decimals <=? max_decimals)%N && (- fixed_limit <=? value) && (value <? fixed_limit).

(** [formatUnits(value, decimals)] prints value / 10^decimals exactly as
    a decimal string and [parseFloat] reads it back as the nearest
    double: the correctly rounded quotient of the two integers. *)
Definition wholeUnits (value : Z) (decimals : N) : float :=
  SF2Prim (SFdiv prec emax (JS.Z2SF value) (JS.Z2SF (10 ^ Z.of_N decimals))).

Definition parseFloat_formatUnits (value : Z) (decimals : N) : JS.result float :=
  if negb (decimals <=? max_decimals)%N then JS.Throw JS.INVALID_ARGUMENT
  else if negb ((- fixed_limit <=? value) && (value <? fixed_limit))
       then JS.Throw JS.NUMERIC_FAULT
       else JS.Ok (wholeUnits value decimals).

Definition parseFloat_formatEther (value : Z) : JS.result float :=
  parseFloat_formatUnits value 18.

End Ethers.

(** ** Data model *)

(** An element of [jarTokens]. [decimals] and [price] may be absent. *)
Record Token : Type := {
  address : string;
  symbol : string;
  balance : Z;
  decimals : JS.optional N;
  price : JS.optional float
}.

(** [{...token, balanceEth, valueUSD, netValueUSD}] *)
Record ClaimableToken : Type := {
  token : Token;
  balanceEth : float;
  valueUSD : float;
  netValueUSD : float
}.

(** [{...token, balanceEth, valueUSD, costToClaimUSD}] *)
Record DustToken : Type := {
  dust_token : Token;
  dust_balanceEth : float;
  dust_valueUSD : float;
  costToClaimUSD : float
}.

Record ProfitResult : Type := {
  uniAmount : float;
  uniCostUSD : float;
  totalJarValueUSD : float;
  gasCostUSD : float;
  grossProfit : float;
  netProfit : float;
  profitPercentage : float;
  minimumOutputUSD : float;
  isProfitable : bool;
  meetsThreshold : bool;
  tokenBreakdown : list ClaimableToken;
  dustTokens : list DustToken;
  estimatedGas : Z;
  allTokensCount : Z;
  filteredCount : Z;
  savedGasUSD : float
}.

(** ** contracts/constants *)

Module SECURITY.
Definition DEFAULT_SLIPPAGE_TOLERANCE : float := 0.5%float.
End SECURITY.

(** ** calculateProfit *)

Definition TRANSFER_GAS_COST : Z := 60000.
Definition BASE_GAS_COST : Z := 100000.

Definition is_WETH (t : Token) : bool := String.eqb (symbol t) "WETH".

(** [jarTokens.find(t => t.symbol === 'WETH')?.price || 2000] *)
Definition ethPrice (jarTokens : list Token) : float :=
  JS.or_else
    (match find is_WETH jarTokens with
     | Some t => price t
     | None => None
     end)
    2000%float.

Definition gasPriceEth (gasPrice : float) : float := (gasPrice / 1e9)%float.

Definition transferCostUSD (jarTokens : list Token) (gasPrice : float) : float :=
  ((JS.ofZ TRANSFER_GAS_COST * gasPriceEth gasPrice) * ethPrice jarTokens)%float.

(** [token.decimals || 18] *)
Definition decimals_or_18 (t : Token) : N :=
  match decimals t with
  | Some d => if (d =? 0)%N then 18%N else d
  | None => 18%N
  end.

(** The state the [for ... of] loop updates. *)
Record LoopState : Type := {
  optimalTokens : list ClaimableToken;
  dustList : list DustToken;
  optimizedJarValueUSD : float
}.

Definition loop_init : LoopState :=
  {| optimalTokens := []; dustList := []; optimizedJarValueUSD := 0%float |}.

(** One iteration of the loop body. *)
Definition loop_body (cost : float) (st : LoopState) (t : Token) : JS.result LoopState :=
  b <- Ethers.parseFloat_formatUnits (balance t) (decimals_or_18 t) ;;
  let v := (b * JS.toNumber (price t))%float in
  if (cost <? v)%float then
    JS.Ok {| optimalTokens :=
               optimalTokens st ++
               [ {| token := t; balanceEth := b; valueUSD := v;
                    netValueUSD := (v - cost)%float |} ];
             dustList := dustList st;
             optimizedJarValueUSD := (optimizedJarValueUSD st + v)%float |}
  else
    JS.Ok {| optimalTokens := optimalTokens st;
             dustList :=
               dustList st ++
               [ {| dust_token := t; dust_balanceEth := b; dust_valueUSD := v;
                    costToClaimUSD := cost |} ];
             optimizedJarValueUSD := optimizedJarValueUSD st |}.

Fixpoint for_of (cost : float) (st : LoopState) (jarTokens : list Token)
  : JS.result LoopState :=
  match jarTokens with
  | [] => JS.Ok st
  | t :: rest => st' <- loop_body cost st t ;; for_of cost st' rest
  end.

Definition len {A} (l : list A) : Z := Z.of_nat (List.length l).

Definition calculateProfit_body
    (uniAmount_wei : Z) (uniPrice : float) (jarTokens : list Token)
    (threshold : Z) (gasPrice : float) : JS.result ProfitResult :=
  uniAmountEth <- Ethers.parseFloat_formatEther uniAmount_wei ;;
  thresholdEth <- Ethers.parseFloat_formatEther threshold ;;
  let uniCost := (uniAmountEth * uniPrice)%float in
  let eth := ethPrice jarTokens in
  let cost := transferCostUSD jarTokens gasPrice in
  st <- for_of cost loop_init jarTokens ;;
  let gas := BASE_GAS_COST + len (optimalTokens st) * TRANSFER_GAS_COST in
  let totalGasCostEth := ((JS.ofZ gas * gasPrice) / 1e9)%float in
  let totalGasCostUSD := (totalGasCostEth * eth)%float in
  let gross := (optimizedJarValueUSD st - uniCost)%float in
  let net := (gross - totalGasCostUSD)%float in
  let pct := if (0 <? uniCost)%float then ((net / uniCost) * 100)%float else 0%float in
  let minOut :=
    (optimizedJarValueUSD st * (1 - SECURITY.DEFAULT_SLIPPAGE_TOLERANCE / 100))%float in
  JS.Ok {| uniAmount := uniAmountEth;
           uniCostUSD := uniCost;
           totalJarValueUSD := optimizedJarValueUSD st;
           gasCostUSD := totalGasCostUSD;
           grossProfit := gross;
           netProfit := net;
           profitPercentage := pct;
           minimumOutputUSD := minOut;
           isProfitable := (0 <? net)%float;
           meetsThreshold := (thresholdEth <=? uniAmountEth)%float;
           tokenBreakdown := optimalTokens st;
           dustTokens := dustList st;
           estimatedGas := gas;
           allTokensCount := len jarTokens;
           filteredCount := len (dustList st);
           savedGasUSD := (JS.ofZ (len (dustList st)) * cost)%float |}.

(** [async function calculateProfit(...)] *)
Definition calculateProfit
    (uniAmount_wei : Z) (uniPrice : float) (jarTokens : list Token)
    (threshold : Z) (gasPrice : float) : JS.Promise ProfitResult :=
  JS.async (calculateProfit_body uniAmount_wei uniPrice jarTokens threshold gasPrice).

(** ** calculateOptimalBurn *)

(** The object literal [{ optimalBurnAmount, optimalBurnWei, ...profit }]:
    its two named properties and whatever the spread copies. *)
Record OptimalBurn : Type := {
  optimalBurnAmount : float;
  optimalBurnWei : Z;
  spread_profit : option ProfitResult
}.

Definition calculateOptimalBurn
    (jarTokens : list Token) (uniPrice : float) (threshold : Z) (gasPrice : float)
  : JS.result OptimalBurn :=
  thresholdEth <- Ethers.parseFloat_formatEther threshold ;;
  let optimalBurnWei := threshold in
  let profit := calculateProfit optimalBurnWei uniPrice jarTokens threshold gasPrice in
  JS.Ok {| optimalBurnAmount := thresholdEth;
           optimalBurnWei := optimalBurnWei;
           spread_profit := JS.spread_promise profit |}.

(** Reading a property of the returned object: [undefined] when the
    spread copied nothing. *)
Definition get {A} (field : ProfitResult -> A) (o : OptimalBurn) : JS.optional A :=
  option_map field (spread_profit o).

(** ** formatProfitData *)

(** *** Number.prototype.toFixed *)

(** Decimal digits, most significant first. *)
Fixpoint uint_digits (u : Decimal.uint) : list ascii :=
  match u with
  | Decimal.Nil => []
  | Decimal.D0 u => "0"%char :: uint_digits u
  | Decimal.D1 u => "1"%char :: uint_digits u
  | Decimal.D2 u => "2"%char :: uint_digits u
  | Decimal.D3 u => "3"%char :: uint_digits u
  | Decimal.D4 u => "4"%char :: uint_digits u
  | Decimal.D5 u => "5"%char :: uint_digits u
  | Decimal.D6 u => "6"%char :: uint_digits u
  | Decimal.D7 u => "7"%char :: uint_digits u
  | Decimal.D8 u => "8"%char :: uint_digits u
  | Decimal.D9 u => "9"%char :: uint_digits u
  end.

Definition decimal (n : Z) : list ascii :=
  match uint_digits (N.to_uint (Z.to_N n)) with
  | [] => ["0"%char]
  | ds => ds
  end.

(** The integer [n] printed with [f] digits after the point: padded with
    zeros to [f + 1] digits, the point before the last [f]. *)
Definition fixed_digits (n : Z) (f : nat) : list ascii :=
  let m := decimal n in
  let m := repeat "0"%char (f + 1 - List.length m) ++ m in
  match f with
  | O => m
  | _ => firstn (List.length m - f) m ++ "."%char :: skipn (List.length m - f) m
  end.

(** The integer nearest to num/den, the larger one on a tie. *)
Definition round_half_up (num den : Z) : Z := (2 * num + den) / (2 * den).

(** Number::toString of an integer-valued double [x = X >= 1e21]: the
    fewest digits [s] with [s * 10^(n-k)] reading back as [x], the closest
    such [s], the even one on a tie; [k] runs from 1 to 17. *)
Definition candidate (x : float) (X D k : Z) : option (Z * Z) :=
  let t := 10 ^ (D - k) in
  let lo := X / t in
  let hi := lo + 1 in
  let ok s := PrimFloat.eqb (JS.ofZ (s * t)) x in
  let pick :=
    match ok lo, ok hi with
    | true, true =>
        if X - lo * t <? hi * t - X then Some lo
        else if hi * t - X <? X - lo * t then Some hi
        else Some (if Z.even lo then lo else hi)
    | true, false => Some lo
    | false, true => Some hi
    | false, false => None
    end in
  match pick with
  | Some s => if s =? 10 ^ k then Some (1, D + 1) else Some (s, D)
  | None => None
  end.

Fixpoint shortest (x : float) (X D k : Z) (fuel : nat) : Z * Z :=
  match fuel with
  | O => (X, D)
  | S fuel =>
      match candidate x X D k with
      | Some r => r
      | None => shortest x X D (k + 1) fuel
      end
  end.

Fixpoint strip_zeros (l : list ascii) : list ascii :=
  match l with
  | "0"%char :: r => strip_zeros r
  | _ => l
  end.

Definition exponential (X : Z) (x : float) : list ascii :=
  let D := len (decimal X) in
  let '(s, n) := shortest x X D 1 17 in
  match rev (strip_zeros (rev (decimal s))) with
  | [] => []
  | d :: rest =>
      (d :: match rest with [] => [] | _ => "."%char :: rest end)
      ++ "e"%char :: "+"%char :: decimal (n - 1)
  end.

Definition toFixed (x : float) (f : nat) : string :=
  match Prim2SF x with
  | S754_nan => "NaN"
  | S754_infinity s => if s then "-Infinity" else "Infinity"
  | S754_zero _ => string_of_list_ascii (fixed_digits 0 f)
  | S754_finite s m e =>
      let sign := if s then ["-"%char] else [] in
      if (1e21 <=? abs x)%float
      then string_of_list_ascii (sign ++ exponential (Zpos m * 2 ^ e) (abs x))
      else
        let n := if 0 <=? e then Zpos m * 2 ^ e * 10 ^ Z.of_nat f
                 else round_half_up (Zpos m * 10 ^ Z.of_nat f) (2 ^ (- e)) in
        string_of_list_ascii (sign ++ fixed_digits n f)
  end.

(** *** The formatted object *)

Module Formatted.

Record Token : Type := {
  address : string;
  symbol : string;
  balance : string;
  valueUSD : string
}.

Record t : Type := {
  uniAmount : string;
  uniCostUSD : string;
  totalJarValueUSD : string;
  gasCostUSD : string;
  grossProfit : string;
  netProfit : string;
  profitPercentage : string;
  minimumOutputUSD : string;
  isProfitable : bool;
  meetsThreshold : bool;
  tokenBreakdown : list Token;
  dustCount : Z;
  savedGas : string;
  filtered : bool
}.

End Formatted.

Definition usd (x : float) : string := ("$" ++ toFixed x 2)%string.

Definition formatProfitData (profitData : ProfitResult) : Formatted.t :=
  {| Formatted.uniAmount := toFixed (uniAmount profitData) 2;
     Formatted.uniCostUSD := usd (uniCostUSD profitData);
     Formatted.totalJarValueUSD := usd (totalJarValueUSD profitData);
     Formatted.gasCostUSD := usd (gasCostUSD profitData);
     Formatted.grossProfit := usd (grossProfit profitData);
     Formatted.netProfit := usd (netProfit profitData);
     Formatted.profitPercentage := (toFixed (profitPercentage profitData) 2 ++ "%")%string;
     Formatted.minimumOutputUSD := usd (minimumOutputUSD profitData);
     Formatted.isProfitable := isProfitable profitData;
     Formatted.meetsThreshold := meetsThreshold profitData;
     Formatted.tokenBreakdown :=
       map (fun t => {| Formatted.address := address (token t);
                        Formatted.symbol := symbol (token t);
                        Formatted.balance := toFixed (balanceEth t) 6;
                        Formatted.valueUSD := usd (valueUSD t) |})
           (tokenBreakdown profitData);
     Formatted.dustCount := filteredCount profitData;
     Formatted.savedGas := usd (savedGasUSD profitData);
     Formatted.filtered := 0 <? filteredCount profitData |}.

(** ** What the loop computes, token by token *)

Definition balanceEth_of (t : Token) : float :=
  Ethers.wholeUnits (balance t) (decimals_or_18 t).

Definition valueUSD_of (t : Token) : float :=
  (balanceEth_of t * JS.toNumber (price t))%float.

Definition is_claimable (cost : float) (t : Token) : bool :=
  (cost <? valueUSD_of t)%float.

Definition is_dust (cost : float) (t : Token) : bool :=
  negb (is_claimable cost t).

Definition mkClaimable (cost : float) (t : Token) : ClaimableToken :=
  {| token := t; balanceEth := balanceEth_of t; valueUSD := valueUSD_of t;
     netValueUSD := (valueUSD_of t - cost)%float |}.

Definition mkDust (cost : float) (t : Token) : DustToken :=
  {| dust_token := t; dust_balanceEth := balanceEth_of t;
     dust_valueUSD := valueUSD_of t; costToClaimUSD := cost |}.

(** [optimizedJarValueUSD += valueUSD], over the tokens in order. *)
Definition sum_values (init : float) (ts : list Token) : float :=
  fold_left (fun acc t => (acc + valueUSD_of t)%float) ts init.

(** Inputs on which ethers raises nothing. *)
Definition token_ok (t : Token) : bool :=
  Ethers.in_range (balance t) (decimals_or_18 t).

Definition inputs_ok (uniAmount_wei : Z) (jarTokens : list Token) (threshold : Z) : Prop :=
  Ethers.in_range uniAmount_wei 18 = true /\
  Ethers.in_range threshold 18 = true /\
  Forall (fun t => token_ok t = true) jarTokens.

(** The token with its [price] replaced. *)
Definition with_price (t : Token) (p : float) : Token :=
  {| address := address t; symbol := symbol t; balance := balance t;
     decimals := decimals t; price := Some p |}.

(** ** Binary64 arithmetic: vocabulary of the proofs *)

(** A number is [not_neg] when it is not below zero (NaN included), and
    [fle_nan x y] holds when [x <= y] or one of them is NaN. *)
Definition not_neg (x : float) : Prop := (x <? 0)%float = false.
Definition not_pos (x : float) : Prop := (0 <? x)%float = false.
Definition fle_nan (x y : float) : bool :=
  PrimFloat.is_nan x || PrimFloat.is_nan y || (x <=? y)%float.

Definition digits (m : Z) : Z := Zdigits2 m.
Definition cexp (m e : Z) : Z := fexp prec emax (digits m + e).

Definition SFbuild (sx : bool) (mf ef : Z) : spec_float :=
  match mf with
  | Z0 => S754_zero sx
  | Zpos p => if ef <=? emax - prec then S754_finite sx p ef else S754_infinity sx
  | Zneg _ => S754_nan
  end.

Definition rem_loc (rho w : Z) : location :=
  if rho =? 0 then loc_Exact else loc_Inexact (2 * rho ?= w).

(* real values *)
Definition bpow (e : Z) : R := powerRZ 2 e.
Definition F2R (m e : Z) : R := (IZR m * bpow e)%R.

(* the mantissa a positive exact number rounds to, at its canonical exponent *)
Definition rnd_m (m e : Z) : Z :=
  let n := cexp m e - e in
  round_nearest_even (m / 2 ^ n) (rem_loc (m mod 2 ^ n) (2 ^ n)).

Definition canonical (m e : Z) : Prop := cexp m e = e.

(* the real number a positive exact number rounds to *)
Definition round_pos (mx : positive) (ex : Z) : R :=
  let a := shl_align mx ex (cexp (Zpos mx) ex) in
  F2R (rnd_m (Zpos (fst a)) (snd a)) (cexp (Zpos (fst a)) (snd a)).

(* valid floats and their real value *)
Definition SF2R (x : spec_float) : R :=
  match x with
  | S754_finite s m e => F2R (cond_Zopp s (Zpos m)) e
  | _ => 0%R
  end.

Definition is_fin (x : spec_float) : bool :=
  match x with
  | S754_zero _ | S754_finite _ _ _ => true
  | _ => false
  end.

Definition SFvalid (x : spec_float) : Prop := SpecFloat.valid_binary prec emax x = true.

(* order-preservation of the operations *)
Definition SFle_nan (x y : spec_float) : Prop :=
  x = S754_nan \/ y = S754_nan \/ SFleb x y = true.

(* signs *)
Definition SFnot_neg (x : spec_float) : bool :=
  match x with
  | S754_finite s _ _ | S754_infinity s => negb s
  | _ => true
  end.

Definition SFnot_pos (x : spec_float) : bool :=
  match x with
  | S754_finite s _ _ | S754_infinity s => s
  | _ => true
  end.

(** ** Closed forms used to state the properties *)

(** The gas bill of a claim that transfers nothing. *)
Definition baseGasCostUSD (jarTokens : list Token) (gasPrice : float) : float :=
  (((JS.ofZ BASE_GAS_COST * gasPrice) / 1e9) * ethPrice jarTokens)%float.

(** The result [calculateProfit] settles to when nothing is raised. *)
Definition profit_of
    (uniAmount_wei : Z) (uniPrice : float) (jarTokens : list Token)
    (threshold : Z) (gasPrice : float) : ProfitResult :=
  let uniAmountEth := Ethers.wholeUnits uniAmount_wei 18 in
  let thresholdEth := Ethers.wholeUnits threshold 18 in
  let uniCost := (uniAmountEth * uniPrice)%float in
  let cost := transferCostUSD jarTokens gasPrice in
  let claimable := filter (is_claimable cost) jarTokens in
  let dust := filter (is_dust cost) jarTokens in
  let total := sum_values 0%float claimable in
  let gas := BASE_GAS_COST + len (map (mkClaimable cost) claimable) * TRANSFER_GAS_COST in
  let gasUSD := (((JS.ofZ gas * gasPrice) / 1e9) * ethPrice jarTokens)%float in
  let gross := (total - uniCost)%float in
  let net := (gross - gasUSD)%float in
  {| uniAmount := uniAmountEth;
     uniCostUSD := uniCost;
     totalJarValueUSD := total;
     gasCostUSD := gasUSD;
     grossProfit := gross;
     netProfit := net;
     profitPercentage :=
       if (0 <? uniCost)%float then ((net / uniCost) * 100)%float else 0%float;
     minimumOutputUSD :=
       (total * (1 - SECURITY.DEFAULT_SLIPPAGE_TOLERANCE / 100))%float;
     isProfitable := (0 <? net)%float;
     meetsThreshold := (thresholdEth <=? uniAmountEth)%float;
     tokenBreakdown := map (mkClaimable cost) claimable;
     dustTokens := map (mkDust cost) dust;
     estimatedGas := gas;
     allTokensCount := len jarTokens;
     filteredCount := len (map (mkDust cost) dust);
     savedGasUSD := (JS.ofZ (len (map (mkDust cost) dust)) * cost)%float |}.

(** Prices and gas price as the data model has them: never negative. *)
Definition price_not_negative (t : Token) : Prop := not_neg (JS.toNumber (price t)).

(** *** Fixed-point strings *)

Definition is_digit (c : ascii) : bool :=
  (48 <=? nat_of_ascii c)%nat && (nat_of_ascii c <=? 57)%nat.

Fixpoint span_digits (l : list ascii) : list ascii * list ascii :=
  match l with
  | c :: r =>
      if is_digit c then let '(ds, rest) := span_digits r in (c :: ds, rest)
      else ([], l)
  | [] => ([], [])
  end.

(** An optional minus sign, at least one digit, a point, exactly [f] digits. *)
Definition fixed_point (f : nat) (l : list ascii) : bool :=
  let body := match l with "-"%char :: r => r | _ => l end in
  let '(int, rest) := span_digits body in
  negb (Nat.eqb (List.length int) 0) &&
  match rest with
  | "."%char :: frac => forallb is_digit frac && Nat.eqb (List.length frac) f
  | _ => false
  end.

(** [$] followed by a number with two decimals. *)
Definition usd_string (s : string) : bool :=
  match list_ascii_of_string s with
  | "$"%char :: body => fixed_point 2 body
  | _ => false
  end.

(** A number with two decimals followed by [%]. *)
Definition percent_string (s : string) : bool :=
  match rev (list_ascii_of_string s) with
  | "%"%char :: body => fixed_point 2 (rev body)
  | _ => false
  end.

Definition fixed_string (f : nat) (s : string) : bool :=
  fixed_point f (list_ascii_of_string s).

(** Amounts [toFixed] prints in fixed-point notation. *)
Definition displayable (x : float) : bool :=
  PrimFloat.is_finite x && (abs x <? 1e21)%float.

Definition displayable_token (c : ClaimableToken) : bool :=
  displayable (balanceEth c) && displayable (valueUSD c).

Definition displayable_result (r : ProfitResult) : bool :=
  displayable (uniAmount r) && displayable (uniCostUSD r) &&
  displayable (totalJarValueUSD r) && displayable (gasCostUSD r) &&
  displayable (grossProfit r) && displayable (netProfit r) &&
  displayable (profitPercentage r) && displayable (minimumOutputUSD r) &&
  displayable (savedGasUSD r) && forallb displayable_token (tokenBreakdown r).

(** The string [s] is the amount [x] in USD, with two decimals. *)
Definition usd_of (x : float) (s : string) : Prop :=
  s = usd x /\ usd_string s = true.

(** A breakdown entry of the formatted object, against the entry it is
    made from. *)
Definition formatted_entry (c : ClaimableToken) (e : Formatted.Token) : Prop :=
  Formatted.address e = address (token c) /\
  Formatted.symbol e = symbol (token c) /\
  Formatted.balance e = toFixed (balanceEth c) 6 /\
  fixed_string 6 (Formatted.balance e) = true /\
  Formatted.valueUSD e = usd (valueUSD c) /\
  usd_string (Formatted.valueUSD e) = true.

(** ** Concrete inputs *)

(** The worked example of the specification: three tokens, 20 gwei,
    a burn of 4000 resource tokens at 5 USD. *)
Module Scenario.

Definition USDC : Token :=
  {| address := "0xa0b8"; symbol := "USDC"; balance := 500000000;
     decimals := Some 6%N; price := Some 1%float |}.

Definition DUST : Token :=
  {| address := "0xd057"; symbol := "DUST"; balance := 1;
     decimals := Some 18%N; price := Some 0.000001%float |}.

Definition WETH : Token :=
  {| address := "0xc02a"; symbol := "WETH"; balance := 2 * 10 ^ 18;
     decimals := Some 18%N; price := Some 3000%float |}.

Definition tokens : list Token := [USDC; DUST; WETH].

(** A token that really has no decimals. *)
Definition SHARE : Token :=
  {| address := "0x5a4e"; symbol := "SHARE"; balance := 1000;
     decimals := Some 0%N; price := Some 10%float |}.



(** A small WETH balance, the only token of its jar. *)
Definition THIN_WETH : Token :=
  {| address := "0xc02a"; symbol := "WETH"; balance := 10 ^ 15;
     decimals := Some 18%N; price := Some 2000%float |}.

(** One whole token priced at exactly the cost of a transfer at 20 gwei
    and 3000 USD per ETH. *)
Definition TIE : Token :=
  {| address := "0x71e0"; symbol := "TIE"; balance := 10 ^ 18;
     decimals := Some 18%N; price := Some ((60000 * (20 / 1e9)) * 3000)%float |}.

(** A balance of 10^42 whole tokens. *)
Definition HUGE : Token :=
  {| address := "0xb16b"; symbol := "HUGE"; balance := 10 ^ 60;
     decimals := Some 18%N; price := Some 3000%float |}.
Definition threshold : Z := 4000 * 10 ^ 18.
Definition uniPrice : float := 5%float.
Definition gasPrice : float := 20%float.

(** What the calculator settles to on the worked example. *)
Definition result : ProfitResult := profit_of threshold uniPrice tokens threshold gasPrice.

End Scenario.

(** * The code around the calculator *)

(** ** Strings and string-keyed maps *)

Module JSString.

(** [toLowerCase] on the ASCII letters; the strings it is applied to are
    hexadecimal addresses. *)
Definition lower (c : ascii) : ascii :=
  let n := nat_of_ascii c in
  if (65 <=? n)%nat && (n <=? 90)%nat then ascii_of_nat (n + 32) else c.

Fixpoint toLowerCase (s : string) : string :=
  match s with
  | EmptyString => EmptyString
  | String c r => String (lower c) (toLowerCase r)
  end.

End JSString.

(** A [Map] keyed by strings, in insertion order: [set] overwrites the
    entry of a key that is present and appends one that is not. The same
    list stands for the own properties of an object. *)
Module Dict.

Definition t (V : Type) : Type := list (string * V).

Fixpoint get {V} (m : t V) (k : string) : JS.optional V :=
  match m with
  | [] => None
  | (k', v) :: r => if String.eqb k' k then Some v else get r k
  end.

Fixpoint set {V} (m : t V) (k : string) (v : V) : t V :=
  match m with
  | [] => [(k, v)]
  | (k', v') :: r =>
      if String.eqb k' k then (k, v) :: r else (k', v') :: set r k v
  end.

End Dict.

(** A plain object [{}] that numbers are assigned to. Its own properties
    are a [Dict.t]; behind them stands [Object.prototype]: a read of one of
    its names that is not an own property finds the inherited function, and
    [__proto__] is an accessor there, whose setter ignores a number. *)
Module Obj.

Definition prototype_names : list string :=
  ["constructor"; "__defineGetter__"; "__defineSetter__"; "hasOwnProperty";
   "__lookupGetter__"; "__lookupSetter__"; "isPrototypeOf";
   "propertyIsEnumerable"; "toString"; "valueOf"; "__proto__";
   "toLocaleString"]%string.

(** What a read finds: a number of the object's own, or something
    inherited, which is an object and not a number. *)
Inductive read (V : Type) : Type :=
| Own (v : V)
| Inherited.
Arguments Own {V} v.
Arguments Inherited {V}.

Definition t (V : Type) : Type := Dict.t V.

(** [o[k]] *)
Definition get {V} (o : t V) (k : string) : JS.optional (read V) :=
  if String.eqb k "__proto__" then Some Inherited
  else match Dict.get o k with
       | Some v => Some (Own v)
       | None =>
           if existsb (String.eqb k) prototype_names then Some Inherited else None
       end.

(** [o[k] = v] for a number [v] *)
Definition set {V} (o : t V) (k : string) (v : V) : t V :=
  if String.eqb k "__proto__" then o else Dict.set o k v.

End Obj.

(** ** utils/validation.js *)

Module Validation.

(** A call that returns or throws [new Error(message)]. *)
Inductive thrown (A : Type) : Type :=
| Returns (a : A)
| Throws (message : string).
Arguments Returns {A} a.
Arguments Throws {A} message.

(** An argument that is a string or something else ([undefined], [null],
    a number, an object). *)
Inductive value : Type :=
| Str (s : string)
| NotString.

Definition is_hex (c : ascii) : bool :=
  let n := nat_of_ascii c in
  ((48 <=? n)%nat && (n <=? 57)%nat) ||
  ((97 <=? n)%nat && (n <=? 102)%nat) ||
  ((65 <=? n)%nat && (n <=? 70)%nat).

(** [/^0x[a-fA-F0-9]{40}$/.test(address)] *)
Definition addressRegex (address : string) : bool :=
  match list_ascii_of_string address with
  | "0"%char :: "x"%char :: digits =>
      Nat.eqb (List.length digits) 40 && forallb is_hex digits
  | _ => false
  end.

Definition validateEthereumAddress (address : value) : thrown string :=
  match address with
  | NotString => Throws "Address must be a string"
  | Str s =>
      if String.eqb s "" then Throws "Address must be a string"
      else if negb (addressRegex s) then Throws "Invalid Ethereum address format"
      else Returns (JSString.toLowerCase s)
  end.

(** The decimal digits of an integer, as a template literal prints it. *)
Definition integer_text (n : Z) : string :=
  string_of_list_ascii
    (if n <? 0 then "-"%char :: decimal (- n) else decimal n).

(** [addresses.map(addr => validateEthereumAddress(addr))]: the first
    address that fails ends the call. *)
Fixpoint map_validate (addresses : list value) : thrown (list string) :=
  match addresses with
  | [] => Returns []
  | addr :: rest =>
      match validateEthereumAddress addr with
      | Throws m => Throws m
      | Returns a =>
          match map_validate rest with
          | Throws m => Throws m
          | Returns l => Returns (a :: l)
          end
      end
  end.

(** [addresses] is [None] when the argument is not an array. *)
Definition validateAddressArray (addresses : option (list value)) (maxLength : Z)
  : thrown (list string) :=
  match addresses with
  | None => Throws "Addresses must be an array"
  | Some l =>
      if len l =? 0 then Throws "Addresses array cannot be empty"
      else if maxLength <? len l
           then Throws ("Too many addresses. Maximum: " ++ integer_text maxLength)
           else map_validate l
  end.

(** [validatePositiveNumber(value, name)] for a [value] that is a Number,
    on which [Number(value)] is the identity. *)
Definition validatePositiveNumber (value : float) (name : string) : thrown float :=
  let num := value in
  if PrimFloat.is_nan num || negb (PrimFloat.is_finite num)
  then Throws (name ++ " must be a valid number")
  else if (num <=? 0)%float then Throws (name ++ " must be positive")
  else Returns num.

End Validation.

(** ** utils/priceFeeds.js *)

Module PriceFeeds.

Definition CACHE_DURATION : Z := 60000.

(** An entry of [priceCache]. *)
Record Cached : Type := {
  price : float;
  timestamp : Z
}.

Definition Cache : Type := Dict.t Cached.
Definition Prices : Type := Obj.t float.

(** What [axios.get] gives: an exception, or [response.data], of which
    the code reads [data[addr]?.usd]; [data] here holds that number for the
    keys that are own properties with one, and it is [undefined] for all
    others. *)
Inductive Response : Type :=
| Data (data : Dict.t float)
| Failure.

(** An [async] call: it returns without a request, or it sends one and
    resumes on the answer with the cache as it is by then. *)
Inductive Async (A : Type) : Type :=
| Now (a : A)
| Await (contract_addresses : list string) (resume : Response -> Cache -> A * Cache).
Arguments Now {A} a.
Arguments Await {A} contract_addresses resume.

Definition and_then {A B} (m : Async A) (f : A -> B) : Async B :=
  match m with
  | Now a => Now (f a)
  | Await req k => Await req (fun response cache => let '(a, c) := k response cache in (f a, c))
  end.

(** The call run to its end with nothing else touching the cache. *)
Definition run {A} (m : Async A) (net : list string -> Response) (priceCache : Cache)
  : A * Cache :=
  match m with
  | Now a => (a, priceCache)
  | Await req k => k (net req) priceCache
  end.

(** The first [forEach]: prices found in the cache, addresses to fetch. *)
Record Scan : Type := {
  prices : Prices;
  toFetch : list string
}.

Definition check_cache (priceCache : Cache) (now : Z) (st : Scan) (address : string) : Scan :=
  let addr := JSString.toLowerCase address in
  match Dict.get priceCache addr with
  | Some cached =>
      if now - timestamp cached <? CACHE_DURATION
      then {| prices := Obj.set (prices st) addr (price cached); toFetch := toFetch st |}
      else {| prices := prices st; toFetch := toFetch st ++ [addr] |}
  | None => {| prices := prices st; toFetch := toFetch st ++ [addr] |}
  end.

(** The [forEach] over [toFetch] on an answer. *)
Definition store (data : Dict.t float) (now : Z) (st : Prices * Cache) (addr : string)
  : Prices * Cache :=
  let '(prices, priceCache) := st in
  match Dict.get data addr with
  | Some p =>
      (Obj.set prices addr p,
       Dict.set priceCache addr {| price := p; timestamp := now |})
  | None =>
      match Dict.get priceCache addr with
      | Some cached => (Obj.set prices addr (price cached), priceCache)
      | None => (prices, priceCache)
      end
  end.

(** The [forEach] over [toFetch] in the [catch] block. *)
Definition fall_back (priceCache : Cache) (prices : Prices) (addr : string) : Prices :=
  match Dict.get priceCache addr with
  | Some cached => Obj.set prices addr (price cached)
  | None => prices
  end.

Definition getMultipleTokenPrices
    (tokenAddresses : list string) (now : Z) (priceCache : Cache) : Async Prices :=
  let st := fold_left (check_cache priceCache now) tokenAddresses
                      {| prices := []; toFetch := [] |} in
  match toFetch st with
  | [] => Now (prices st)
  | _ :: _ =>
      Await (toFetch st)
        (fun response priceCache' =>
           match response with
           | Data data => fold_left (store data now) (toFetch st) (prices st, priceCache')
           | Failure => (fold_left (fall_back priceCache') (toFetch st) (prices st), priceCache')
           end)
  end.

(** [v || 0] for what a read of [prices] finds: an inherited object is
    truthy. *)
Definition or_zero (v : JS.optional (Obj.read float)) : Obj.read float :=
  match v with
  | Some (Obj.Own x) => Obj.Own (JS.or_else (Some x) 0%float)
  | Some Obj.Inherited => Obj.Inherited
  | None => Obj.Own 0%float
  end.

(** [prices[tokenAddress.toLowerCase()] || 0] *)
Definition getTokenPrice (tokenAddress : string) (now : Z) (priceCache : Cache)
  : Async (Obj.read float) :=
  and_then (getMultipleTokenPrices [tokenAddress] now priceCache)
           (fun prices => or_zero (Obj.get prices (JSString.toLowerCase tokenAddress))).

Definition UNI_TOKEN : string := "0x1f9840a85d5af5bf1d1762f925bdaddc4201f984".

Definition getUniPrice (now : Z) (priceCache : Cache) : Async (Obj.read float) :=
  getTokenPrice UNI_TOKEN now priceCache.

Definition clearPriceCache (priceCache : Cache) : Cache := [].

(** An entry young enough to be served. *)
Definition fresh (priceCache : Cache) (now : Z) (address : string) : bool :=
  match Dict.get priceCache (JSString.toLowerCase address) with
  | Some cached => now - timestamp cached <? CACHE_DURATION
  | None => false
  end.

End PriceFeeds.

(** ** utils/priceFeeds.js, the variant that asks for one address at a time *)

Module PriceFeedsSingle.

Definition CACHE_DURATION : Z := 30000.

(** An [async] call with one request: it resumes on the answer, with the
    time read then and the cache as it is by then. *)
Inductive Async (A : Type) : Type :=
| Now (a : A)
| Await (contract_addresses : string)
        (resume : PriceFeeds.Response -> Z -> PriceFeeds.Cache -> A * PriceFeeds.Cache).
Arguments Now {A} a.
Arguments Await {A} contract_addresses resume.

(** The [catch] block: the entry read before the request, however old. *)
Definition fall_back (cached : JS.optional PriceFeeds.Cached) : Validation.thrown float :=
  match cached with
  | Some c => Validation.Returns (PriceFeeds.price c)
  | None => Validation.Throws "Unable to fetch token price"
  end.

Definition getTokenPrice (tokenAddress : string) (now : Z) (priceCache : PriceFeeds.Cache)
  : Async (Validation.thrown float) :=
  let cacheKey := JSString.toLowerCase tokenAddress in
  let cached := Dict.get priceCache cacheKey in
  let request :=
    Await tokenAddress
      (fun response now' priceCache' =>
         match response with
         | PriceFeeds.Data data =>
             match Dict.get data (JSString.toLowerCase tokenAddress) with
             | Some price =>
                 if JS.truthy price
                 then (Validation.Returns price,
                       Dict.set priceCache' cacheKey
                         {| PriceFeeds.price := price; PriceFeeds.timestamp := now' |})
                 else (fall_back cached, priceCache')
             | None => (fall_back cached, priceCache')
             end
         | PriceFeeds.Failure => (fall_back cached, priceCache')
         end) in
  match cached with
  | Some c =>
      if now - PriceFeeds.timestamp c <? CACHE_DURATION
      then Now (Validation.Returns (PriceFeeds.price c))
      else request
  | None => request
  end.

Definition getUniPrice (now : Z) (priceCache : PriceFeeds.Cache)
  : Async (Validation.thrown float) :=
  getTokenPrice PriceFeeds.UNI_TOKEN now priceCache.

(** The call run to its end, the answer arriving at [now']. *)
Definition run {A} (m : Async A) (net : string -> PriceFeeds.Response) (now' : Z)
    (priceCache : PriceFeeds.Cache) : A * PriceFeeds.Cache :=
  match m with
  | Now a => (a, priceCache)
  | Await req k => k (net req) now' priceCache
  end.

End PriceFeedsSingle.

(** ** More concrete inputs *)

Module Cases.

Definition WETH_ADDRESS : string := "0xC02aaA39b223FE8D0A0e5C4F27eAD9083C756Cc2".
Definition USDC_ADDRESS : string := "0xa0b86991c6218b36c1d19d4a2e9eb0ce3606eb48".

(** A cache that holds WETH at 3000 USD, stored at time 1000000. *)
Definition cache : PriceFeeds.Cache :=
  [("0xc02aaa39b223fe8d0a0e5c4f27ead9083c756cc2"%string,
    {| PriceFeeds.price := 3000%float; PriceFeeds.timestamp := 1000000 |})].

(** An answer that prices USDC at 1 USD. *)
Definition answer : Dict.t float :=
  [("0xa0b86991c6218b36c1d19d4a2e9eb0ce3606eb48"%string, 1%float)].

End Cases.

(** * Binary64 arithmetic: rounding, order and signs *)

Lemma fexp_eq e : fexp prec emax e = Z.max (e - 53) (-1074).
Proof. reflexivity. Qed.

Lemma digits2_pos_size p : digits2_pos p = Pos.size p.
Proof. induction p; simpl; congruence. Qed.

Lemma digits_pos_bounds p :
  2 ^ (digits (Zpos p) - 1) <= Zpos p < 2 ^ digits (Zpos p).
Proof.
  unfold digits, Zdigits2. rewrite digits2_pos_size.
  pose proof (Pos.size_gt p) as Hgt. pose proof (Pos.size_le p) as Hle.
  apply Pos2Z.pos_lt_pos in Hgt. apply Pos2Z.pos_le_pos in Hle.
  rewrite Pos2Z.inj_pow in Hgt, Hle.
  split; [|exact Hgt].
  assert (H2 : 2 ^ Z.pos (Pos.size p) = 2 * 2 ^ (Z.pos (Pos.size p) - 1)).
  { rewrite <- Z.pow_succ_r by lia. f_equal. lia. }
  lia.
Qed.

Lemma digits_bounds m : 0 < m -> 2 ^ (digits m - 1) <= m < 2 ^ digits m.
Proof. destruct m; try lia. intros _. apply digits_pos_bounds. Qed.

Lemma digits_0 : digits 0 = 0.
Proof. reflexivity. Qed.

Lemma digits_gt_0 m : 0 < m -> 0 < digits m.
Proof. destruct m; simpl; lia. Qed.

Lemma digits_nonneg m : 0 <= digits m.
Proof. destruct m; simpl; lia. Qed.

Lemma digits_unique m d : 2 ^ (d - 1) <= m < 2 ^ d -> 0 < m -> digits m = d.
Proof.
  intros [Hl Hu] Hm. pose proof (digits_bounds m Hm) as [Dl Du].
  pose proof (digits_gt_0 m Hm).
  assert (0 < d).
  { destruct (Z_lt_le_dec 0 d) as [|Hd]; auto.
    destruct (Z.eq_dec d 0) as [->|]; [simpl in Hu; lia|].
    rewrite Z.pow_neg_r in Hu by lia. lia. }
  assert (d - 1 < digits m).
  { apply (Z.pow_lt_mono_r_iff 2); lia. }
  assert (digits m - 1 < d).
  { apply (Z.pow_lt_mono_r_iff 2); lia. }
  lia.
Qed.

Lemma digits_le m1 m2 : 0 <= m1 <= m2 -> digits m1 <= digits m2.
Proof.
  intros [H0 H]. destruct (Z.eq_dec m1 0) as [->|]. { apply digits_nonneg. }
  pose proof (digits_bounds m1 ltac:(lia)) as [L1 U1].
  pose proof (digits_bounds m2 ltac:(lia)) as [L2 U2].
  pose proof (digits_gt_0 m1 ltac:(lia)).
  assert (digits m1 - 1 < digits m2); [|lia].
  apply (Z.pow_lt_mono_r_iff 2); try lia. pose proof (digits_gt_0 m2 ltac:(lia)); lia.
Qed.

Lemma digits_pow2 k : 0 <= k -> digits (2 ^ k) = k + 1.
Proof.
  intros. apply digits_unique.
  - replace (k + 1 - 1) with k by lia. split; [lia|]. apply Z.pow_lt_mono_r; lia.
  - apply Z.pow_pos_nonneg; lia.
Qed.

(* shifting *)
Lemma iter_pos_inv {A} (f : A -> A) (P : Z -> A -> Prop) :
  (forall k x, 0 <= k -> P k x -> P (k + 1) (f x)) ->
  forall p k x, 0 <= k -> P k x -> P (k + Zpos p) (SpecFloat.iter_pos f p x).
Proof.
  intros Hstep. induction p as [p IH|p IH|]; intros k x Hk HP; simpl.
  - replace (k + Z.pos p~1) with ((k + 1 + Zpos p) + Zpos p) by lia.
    apply IH; [lia|]. apply IH; [lia|]. apply Hstep; auto.
  - replace (k + Z.pos p~0) with ((k + Zpos p) + Zpos p) by lia.
    apply IH; [lia|]. apply IH; auto.
  - apply Hstep; auto.
Qed.

Lemma shr_1_m mrs : 0 <= shr_m mrs -> shr_m (shr_1 mrs) = shr_m mrs / 2.
Proof.
  destruct mrs as [m r s]; simpl. intros Hm.
  destruct m as [|[p|p|]|]; simpl; try lia; try reflexivity.
  - rewrite Pos2Z.inj_xI. apply Z.div_unique with 1; lia.
  - rewrite Pos2Z.inj_xO. apply Z.div_unique with 0; lia.
Qed.

Lemma iter_shr_m p mrs :
  0 <= shr_m mrs -> shr_m (SpecFloat.iter_pos shr_1 p mrs) = shr_m mrs / 2 ^ Zpos p.
Proof.
  intros Hm.
  assert (Hs : forall k x, 0 <= k ->
             shr_m x = shr_m mrs / 2 ^ k -> shr_m (shr_1 x) = shr_m mrs / 2 ^ (k + 1)).
  { intros k x Hk Hx. rewrite shr_1_m.
    - rewrite Hx, Z.pow_add_r, Z.div_div by lia. reflexivity.
    - rewrite Hx. apply Z.div_pos; [lia|]. apply Z.pow_pos_nonneg; lia. }
  apply (iter_pos_inv shr_1 (fun k x => shr_m x = shr_m mrs / 2 ^ k) Hs p 0 mrs); [lia|].
  simpl. rewrite Z.div_1_r. reflexivity.
Qed.

Lemma shr_record_of_loc_m m l : shr_m (shr_record_of_loc m l) = m.
Proof. destruct l as [|[]]; reflexivity. Qed.

Lemma shr_fexp_m m e l :
  0 <= m ->
  snd (shr_fexp prec emax m e l) = e + Z.max 0 (cexp m e - e) /\
  shr_m (fst (shr_fexp prec emax m e l)) = m / 2 ^ Z.max 0 (cexp m e - e).
Proof.
  intros Hm. unfold shr_fexp, shr, cexp, digits.
  destruct (fexp prec emax (Zdigits2 m + e) - e) as [|p|p] eqn:E; simpl fst; simpl snd.
  - rewrite shr_record_of_loc_m. simpl. rewrite Z.div_1_r. split; [lia|reflexivity].
  - rewrite iter_shr_m by (rewrite shr_record_of_loc_m; exact Hm).
    rewrite shr_record_of_loc_m, Z.max_r by lia. split; [lia|reflexivity].
  - rewrite shr_record_of_loc_m. rewrite Z.max_l by lia. simpl. rewrite Z.div_1_r.
    split; [lia|reflexivity].
Qed.

Lemma rne_bounds m l : m <= round_nearest_even m l <= m + 1.
Proof. destruct l as [|[]]; simpl; try lia. destruct (Z.even m); lia. Qed.

Lemma digits_div_pow2 m n :
  0 < m -> 0 <= n -> digits (m / 2 ^ n) = Z.max 0 (digits m - n).
Proof.
  intros Hm Hn. pose proof (digits_bounds m Hm) as [L U].
  pose proof (digits_gt_0 m Hm) as Hd.
  assert (Hp : 0 < 2 ^ n) by (apply Z.pow_pos_nonneg; lia).
  destruct (Z_le_gt_dec (digits m) n) as [Hle|Hgt].
  - rewrite Z.max_l by lia. rewrite Z.div_small; [reflexivity|].
    split; [lia|]. apply Z.lt_le_trans with (2 ^ digits m); [lia|].
    apply Z.pow_le_mono_r; lia.
  - rewrite Z.max_r by lia. apply digits_unique.
    + split.
      * apply Z.div_le_lower_bound; [lia|]. rewrite <- Z.pow_add_r by lia.
        replace (n + (digits m - n - 1)) with (digits m - 1) by lia. exact L.
      * apply Z.div_lt_upper_bound; [lia|]. rewrite <- Z.pow_add_r by lia.
        replace (n + (digits m - n)) with (digits m) by lia. exact U.
    + apply Z.div_str_pos. split; [lia|].
      apply Z.le_trans with (2 ^ (digits m - 1)); [|lia].
      apply Z.pow_le_mono_r; lia.
Qed.

Lemma digits_succ q :
  0 <= q -> digits (q + 1) = digits q \/ (q + 1 = 2 ^ digits q /\ digits (q + 1) = digits q + 1).
Proof.
  intros Hq. destruct (Z.eq_dec q 0) as [->|Hq0].
  { right. split; reflexivity. }
  pose proof (digits_bounds q ltac:(lia)) as [L U].
  pose proof (digits_gt_0 q ltac:(lia)) as Hd.
  destruct (Z.eq_dec (q + 1) (2 ^ digits q)) as [E|NE].
  - right. split; [exact E|]. rewrite E. apply digits_pow2. lia.
  - left. apply digits_unique; lia.
Qed.

Lemma bra_unfold sx mx ex lx :
  binary_round_aux prec emax sx mx ex lx =
  let s1 := shr_fexp prec emax mx ex lx in
  let r := round_nearest_even (shr_m (fst s1)) (loc_of_shr_record (fst s1)) in
  let s2 := shr_fexp prec emax r (snd s1) loc_Exact in
  SFbuild sx (shr_m (fst s2)) (snd s2).
Proof.
  unfold binary_round_aux.
  destruct (shr_fexp prec emax mx ex lx) as [mrs' e']. simpl fst; simpl snd.
  destruct (shr_fexp prec emax _ e' loc_Exact) as [mrs'' e'']. reflexivity.
Qed.

Lemma digits_eq_0 m : 0 <= m -> digits m = 0 -> m = 0.
Proof. destruct m; simpl; intros; lia. Qed.

Lemma bra_spec sx mx ex lx :
  0 < mx -> ex <= cexp mx ex ->
  let c := cexp mx ex in
  let q := mx / 2 ^ (c - ex) in
  let r := round_nearest_even q
             (loc_of_shr_record (fst (shr_fexp prec emax mx ex lx))) in
  exists mf ef,
    binary_round_aux prec emax sx mx ex lx = SFbuild sx mf ef /\
    0 <= mf /\
    ((mf = r /\ ef = c) \/ (r = 2 * mf /\ ef = c + 1)) /\
    (0 < mf -> cexp mf ef = ef).
Proof.
  intros Hm Hpre c q r.
  rewrite bra_unfold. cbv zeta.
  destruct (shr_fexp_m mx ex lx ltac:(lia)) as [He1 Hm1].
  fold c in He1, Hm1. rewrite Z.max_r in He1, Hm1 by lia.
  replace (ex + (c - ex)) with c in He1 by lia.
  rewrite He1, Hm1. fold q. fold r.
  assert (Hq : 0 <= q).
  { unfold q. apply Z.div_pos; [lia|]. apply Z.pow_pos_nonneg; lia. }
  pose proof (rne_bounds q (loc_of_shr_record (fst (shr_fexp prec emax mx ex lx)))) as Hr.
  fold r in Hr.
  destruct (shr_fexp_m r c loc_Exact ltac:(lia)) as [He2 Hm2].
  rewrite He2, Hm2.
  pose proof (digits_div_pow2 mx (c - ex) Hm ltac:(lia)) as Hdq. fold q in Hdq.
  pose proof (digits_gt_0 mx Hm) as HD.
  assert (Hc : c = Z.max (digits mx + ex - 53) (-1074)) by reflexivity.
  assert (Hdr : digits r = digits q \/ (r = 2 ^ digits q /\ digits r = digits q + 1)).
  { destruct (Z.eq_dec r q) as [->|]; [left; reflexivity|].
    assert (r = q + 1) as -> by lia. apply digits_succ; lia. }
  assert (Hcr : cexp r c = Z.max (digits r + c - 53) (-1074)) by reflexivity.
  destruct Hdr as [Hdr|[Hr2 Hdr]].
  - (* no carry *)
    exists r, c. rewrite Z.max_l by lia. rewrite Z.add_0_r. simpl (2 ^ 0).
    rewrite Z.div_1_r.
    assert (0 < r -> digits r <> 0).
    { intros Hr0 E. apply digits_eq_0 in E; lia. }
    repeat split; lia.
  - destruct (Z_le_gt_dec (digits q) 52) as [Hs|Hb].
    + exists r, c. rewrite Z.max_l by lia. rewrite Z.add_0_r. simpl (2 ^ 0).
      rewrite Z.div_1_r. repeat split; lia.
    + assert (Hq53 : digits q = 53) by lia.
      assert (Hn2 : cexp r c - c = 1) by lia.
      rewrite Hn2. change (Z.max 0 1) with 1.
      exists (2 ^ 52), (c + 1).
      assert (Hr53 : r = 2 * 2 ^ 52) by (rewrite Hr2, Hq53; reflexivity).
      repeat split; try lia.
      * rewrite Hr53. reflexivity.
      * intros _. unfold cexp. rewrite (digits_pow2 52) by lia. rewrite fexp_eq. lia.
Qed.

Lemma shr_1_eq mrs :
  0 <= shr_m mrs ->
  shr_1 mrs = {| shr_m := shr_m mrs / 2; shr_r := Z.odd (shr_m mrs);
                 shr_s := shr_r mrs || shr_s mrs |}.
Proof.
  intros Hm. pose proof (shr_1_m mrs Hm) as H.
  destruct mrs as [m r s]; simpl in *. rewrite <- H.
  destruct m as [|[p|p|]|]; try lia; reflexivity.
Qed.

Lemma loc_exact_iff mrs rho w :
  loc_of_shr_record mrs = rem_loc rho w ->
  (shr_r mrs || shr_s mrs) = negb (rho =? 0).
Proof.
  unfold rem_loc. destruct mrs as [m [|] [|]]; simpl;
    destruct (rho =? 0); simpl; try discriminate; reflexivity.
Qed.

Lemma mod_pow2_succ m k :
  0 <= k -> m mod 2 ^ (k + 1) = m mod 2 ^ k + 2 ^ k * ((m / 2 ^ k) mod 2).
Proof.
  intros Hk. rewrite Z.pow_add_r by lia. change (2 ^ 1) with 2.
  apply Z.rem_mul_r; [|lia]. apply Z.pow_nonzero; lia.
Qed.

Lemma shr_step_loc m k x :
  0 <= m -> 0 <= k ->
  shr_m x = m / 2 ^ k /\ loc_of_shr_record x = rem_loc (m mod 2 ^ k) (2 ^ k) ->
  shr_m (shr_1 x) = m / 2 ^ (k + 1) /\
  loc_of_shr_record (shr_1 x) = rem_loc (m mod 2 ^ (k + 1)) (2 ^ (k + 1)).
Proof.
  intros Hm Hk [Hx Hl].
  assert (Hw : 0 < 2 ^ k) by (apply Z.pow_pos_nonneg; lia).
  assert (Hmk : 0 <= shr_m x) by (rewrite Hx; apply Z.div_pos; lia).
  rewrite shr_1_eq by exact Hmk. simpl shr_m. split.
  - rewrite Hx, Z.pow_add_r, Z.div_div by lia. reflexivity.
  - pose proof (loc_exact_iff _ _ _ Hl) as Hs.
    rewrite mod_pow2_succ by lia. rewrite <- Hx.
    pose proof (Z.mod_pos_bound m (2 ^ k) Hw) as Hrho.
    rewrite Zmod_odd. rewrite Z.pow_add_r by lia. change (2 ^ 1) with 2.
    unfold loc_of_shr_record. rewrite Hs. unfold rem_loc.
    destruct (Z.odd (shr_m x)); destruct (Z.eqb_spec (m mod 2 ^ k) 0) as [E|E]; simpl negb.
    + rewrite E. replace (0 + 2 ^ k * 1) with (2 ^ k) by lia.
      destruct (Z.eqb_spec (2 ^ k) 0); [lia|].
      replace (2 * 2 ^ k ?= 2 ^ k * 2) with Eq; [reflexivity|].
      symmetry. apply Z.compare_eq_iff. lia.
    + destruct (Z.eqb_spec (m mod 2 ^ k + 2 ^ k * 1) 0); [lia|].
      replace (2 * (m mod 2 ^ k + 2 ^ k * 1) ?= 2 ^ k * 2) with Gt; [reflexivity|].
      symmetry. apply Z.compare_gt_iff. lia.
    + rewrite E. replace (0 + 2 ^ k * 0) with 0 by lia. reflexivity.
    + destruct (Z.eqb_spec (m mod 2 ^ k + 2 ^ k * 0) 0); [lia|].
      replace (2 * (m mod 2 ^ k + 2 ^ k * 0) ?= 2 ^ k * 2) with Lt; [reflexivity|].
      symmetry. apply Z.compare_lt_iff. lia.
Qed.

Lemma shr_fexp_loc m e :
  0 <= m ->
  let N := Z.max 0 (cexp m e - e) in
  loc_of_shr_record (fst (shr_fexp prec emax m e loc_Exact)) =
  rem_loc (m mod 2 ^ N) (2 ^ N).
Proof.
  intros Hm N. unfold N, shr_fexp, shr, cexp, digits.
  destruct (fexp prec emax (Zdigits2 m + e) - e) as [|p|p] eqn:E; simpl fst.
  - simpl. rewrite Z.mod_1_r. reflexivity.
  - rewrite Z.max_r by lia.
    pose proof (iter_pos_inv shr_1
      (fun k x => shr_m x = m / 2 ^ k /\
                  loc_of_shr_record x = rem_loc (m mod 2 ^ k) (2 ^ k))) as H.
    assert (Hs : forall k x, 0 <= k ->
      shr_m x = m / 2 ^ k /\ loc_of_shr_record x = rem_loc (m mod 2 ^ k) (2 ^ k) ->
      shr_m (shr_1 x) = m / 2 ^ (k + 1) /\
      loc_of_shr_record (shr_1 x) = rem_loc (m mod 2 ^ (k + 1)) (2 ^ (k + 1))).
    { intros k x Hk Hx. apply shr_step_loc; auto. }
    specialize (H Hs p 0 (shr_record_of_loc m loc_Exact) ltac:(lia)).
    simpl in H. apply H. rewrite Z.div_1_r, Z.mod_1_r. split; reflexivity.
  - rewrite Z.max_l by lia. simpl. rewrite Z.mod_1_r. reflexivity.
Qed.

Lemma bpow_gt_0 e : (0 < bpow e)%R.
Proof. apply powerRZ_lt. lra. Qed.

Lemma bpow_add e1 e2 : bpow (e1 + e2) = (bpow e1 * bpow e2)%R.
Proof. apply powerRZ_add. lra. Qed.

Lemma bpow_IZR k : 0 <= k -> bpow k = IZR (2 ^ k).
Proof.
  intros Hk. unfold bpow. rewrite <- (Z2Nat.id k) by exact Hk.
  rewrite <- pow_powerRZ, pow_IZR. reflexivity.
Qed.

Lemma bpow_ge_1 k : 0 <= k -> (1 <= bpow k)%R.
Proof.
  intros Hk. rewrite bpow_IZR by exact Hk. apply IZR_le.
  pose proof (Z.pow_pos_nonneg 2 k ltac:(lia) Hk). lia.
Qed.

Lemma bpow_le e1 e2 : e1 <= e2 -> (bpow e1 <= bpow e2)%R.
Proof.
  intros H. replace e2 with (e1 + (e2 - e1)) by lia. rewrite bpow_add.
  pose proof (bpow_gt_0 e1). pose proof (bpow_ge_1 (e2 - e1) ltac:(lia)). nra.
Qed.

Lemma bpow_lt e1 e2 : e1 < e2 -> (bpow e1 < bpow e2)%R.
Proof.
  intros H. replace e2 with (e1 + 1 + (e2 - e1 - 1)) by lia. rewrite !bpow_add.
  pose proof (bpow_gt_0 e1). pose proof (bpow_ge_1 (e2 - e1 - 1) ltac:(lia)).
  assert (E : bpow 1 = 2%R) by (unfold bpow; simpl; lra). rewrite E.
  assert (0 < bpow e1 * (2 * bpow (e2 - e1 - 1) - 1))%R
    by (apply Rmult_lt_0_compat; lra).
  lra.
Qed.

Lemma F2R_pow2 k e : 0 <= k -> F2R (2 ^ k) e = bpow (k + e).
Proof. intros. unfold F2R. rewrite bpow_add, (bpow_IZR k) by lia. reflexivity. Qed.

Lemma F2R_le_m m1 m2 e : m1 <= m2 -> (F2R m1 e <= F2R m2 e)%R.
Proof.
  intros H. unfold F2R. apply IZR_le in H. pose proof (bpow_gt_0 e). nra.
Qed.

Lemma F2R_bounds m e :
  0 < m -> (bpow (digits m + e - 1) <= F2R m e < bpow (digits m + e))%R.
Proof.
  intros Hm. pose proof (digits_bounds m Hm) as [L U].
  pose proof (digits_gt_0 m Hm) as Hd.
  replace (digits m + e - 1) with (digits m - 1 + e) by lia.
  rewrite <- !F2R_pow2 by lia. unfold F2R.
  apply IZR_le in L. apply IZR_lt in U. pose proof (bpow_gt_0 e). nra.
Qed.

Lemma F2R_le_iff m1 e1 m2 e2 c :
  e1 <= c -> e2 <= c ->
  ((F2R m1 e1 <= F2R m2 e2)%R <-> m1 * 2 ^ (c - e2) <= m2 * 2 ^ (c - e1)).
Proof.
  intros H1 H2. unfold F2R.
  assert (E1 : bpow e1 = (bpow c * bpow (e1 - c))%R).
  { rewrite <- bpow_add. f_equal. lia. }
  pose proof (bpow_gt_0 c) as Pc.
  pose proof (bpow_gt_0 e1) as P1. pose proof (bpow_gt_0 e2) as P2.
  assert (A1 : (bpow e1 * IZR (2 ^ (c - e1)) = bpow c)%R).
  { rewrite <- bpow_IZR, <- bpow_add by lia. f_equal. lia. }
  assert (A2 : (bpow e2 * IZR (2 ^ (c - e2)) = bpow c)%R).
  { rewrite <- bpow_IZR, <- bpow_add by lia. f_equal. lia. }
  assert (W1 : (0 < IZR (2 ^ (c - e1)))%R).
  { apply IZR_lt. apply Z.pow_pos_nonneg; lia. }
  assert (W2 : (0 < IZR (2 ^ (c - e2)))%R).
  { apply IZR_lt. apply Z.pow_pos_nonneg; lia. }
  split.
  - intros H. apply le_IZR. rewrite !mult_IZR.
    apply Rmult_le_reg_r with (bpow e1 * bpow e2)%R; [nra|].
    replace (IZR m1 * IZR (2 ^ (c - e2)) * (bpow e1 * bpow e2))%R
      with ((IZR m1 * bpow e1) * (bpow e2 * IZR (2 ^ (c - e2))))%R by ring.
    replace (IZR m2 * IZR (2 ^ (c - e1)) * (bpow e1 * bpow e2))%R
      with ((IZR m2 * bpow e2) * (bpow e1 * IZR (2 ^ (c - e1))))%R by ring.
    rewrite A1, A2. nra.
  - intros H. apply IZR_le in H. rewrite !mult_IZR in H.
    apply Rmult_le_reg_r with (IZR (2 ^ (c - e1)) * IZR (2 ^ (c - e2)))%R; [nra|].
    replace (IZR m1 * bpow e1 * (IZR (2 ^ (c - e1)) * IZR (2 ^ (c - e2))))%R
      with ((IZR m1 * IZR (2 ^ (c - e2))) * (bpow e1 * IZR (2 ^ (c - e1))))%R by ring.
    replace (IZR m2 * bpow e2 * (IZR (2 ^ (c - e1)) * IZR (2 ^ (c - e2))))%R
      with ((IZR m2 * IZR (2 ^ (c - e1))) * (bpow e2 * IZR (2 ^ (c - e2))))%R by ring.
    rewrite A1, A2. nra.
Qed.

Lemma mag_le m1 e1 m2 e2 :
  0 < m1 -> 0 < m2 -> (F2R m1 e1 <= F2R m2 e2)%R ->
  digits m1 + e1 <= digits m2 + e2.
Proof.
  intros H1 H2 H. destruct (Z_le_gt_dec (digits m1 + e1) (digits m2 + e2)); auto.
  pose proof (F2R_bounds m1 e1 H1) as [L1 _].
  pose proof (F2R_bounds m2 e2 H2) as [_ U2].
  pose proof (bpow_le (digits m2 + e2) (digits m1 + e1 - 1) ltac:(lia)). lra.
Qed.

Lemma rne_mono q1 r1 w1 q2 r2 w2 :
  0 <= r1 < w1 -> 0 <= r2 < w2 ->
  q1 * w1 * w2 + r1 * w2 <= q2 * w1 * w2 + r2 * w1 ->
  round_nearest_even q1 (rem_loc r1 w1) <= round_nearest_even q2 (rem_loc r2 w2).
Proof.
  intros H1 H2 H.
  pose proof (rne_bounds q1 (rem_loc r1 w1)) as B1.
  pose proof (rne_bounds q2 (rem_loc r2 w2)) as B2.
  destruct (Z.lt_trichotomy q1 q2) as [Hlt|[Heq|Hgt]].
  - lia.
  - subst q2. assert (Hr : r1 * w2 <= r2 * w1) by lia. clear H B1 B2.
    unfold rem_loc.
    destruct (Z.eqb_spec r1 0) as [E1|E1]; destruct (Z.eqb_spec r2 0) as [E2|E2].
    + simpl. lia.
    + pose proof (rne_bounds q1 (loc_Inexact (2 * r2 ?= w2))). simpl in *. lia.
    + exfalso. subst r2. nia.
    + destruct (Z.compare_spec (2 * r1) w1) as [C1|C1|C1];
      destruct (Z.compare_spec (2 * r2) w2) as [C2|C2|C2]; simpl;
        try destruct (Z.even q1); try lia; exfalso; nia.
  - exfalso.
    assert (0 < w1 * w2) by nia.
    assert (w1 * w2 <= (q1 - q2) * (w1 * w2)) by nia.
    assert (r2 * w1 < w2 * w1) by nia.
    assert (0 <= r1 * w2) by nia.
    nia.
Qed.

Lemma F2R_double m e : F2R (2 * m) e = F2R m (e + 1).
Proof.
  unfold F2R. rewrite mult_IZR, bpow_add.
  assert (E : bpow 1 = 2%R) by (unfold bpow; simpl; lra). rewrite E. ring.
Qed.

Lemma bra_exact_spec sx mx ex :
  0 < mx -> ex <= cexp mx ex ->
  exists mf ef,
    binary_round_aux prec emax sx mx ex loc_Exact = SFbuild sx mf ef /\
    0 <= mf /\
    F2R mf ef = F2R (rnd_m mx ex) (cexp mx ex) /\
    (0 < mf -> cexp mf ef = ef).
Proof.
  intros Hm Hpre.
  destruct (bra_spec sx mx ex loc_Exact Hm Hpre) as (mf & ef & Hb & H0 & Hv & Hc).
  exists mf, ef. repeat split; auto.
  rewrite shr_fexp_loc in Hv by lia. rewrite Z.max_r in Hv by lia.
  fold (rnd_m mx ex) in Hv.
  destruct Hv as [[-> ->]|[E ->]]; [reflexivity|].
  rewrite E. symmetry. apply F2R_double.
Qed.

Lemma rnd_m_bounds m e :
  0 < m -> e <= cexp m e ->
  m / 2 ^ (cexp m e - e) <= rnd_m m e <= m / 2 ^ (cexp m e - e) + 1.
Proof. intros. apply rne_bounds. Qed.

Lemma rnd_mono m1 e1 m2 e2 :
  0 < m1 -> 0 < m2 -> e1 <= cexp m1 e1 -> e2 <= cexp m2 e2 ->
  (F2R m1 e1 <= F2R m2 e2)%R ->
  (F2R (rnd_m m1 e1) (cexp m1 e1) <= F2R (rnd_m m2 e2) (cexp m2 e2))%R.
Proof.
  intros H1 H2 P1 P2 Hle.
  pose proof (mag_le _ _ _ _ H1 H2 Hle) as Hmag.
  assert (C1 : cexp m1 e1 = Z.max (digits m1 + e1 - 53) (-1074)) by reflexivity.
  assert (C2 : cexp m2 e2 = Z.max (digits m2 + e2 - 53) (-1074)) by reflexivity.
  set (c1 := cexp m1 e1) in *. set (c2 := cexp m2 e2) in *.
  pose proof (digits_gt_0 m1 H1) as D1. pose proof (digits_gt_0 m2 H2) as D2.
  assert (W1 : 0 < 2 ^ (c1 - e1)) by (apply Z.pow_pos_nonneg; lia).
  assert (W2 : 0 < 2 ^ (c2 - e2)) by (apply Z.pow_pos_nonneg; lia).
  destruct (Z.eq_dec c1 c2) as [Ec|Nc].
  - (* same grid *)
    rewrite <- Ec. apply F2R_le_m. unfold rnd_m. fold c1 c2. rewrite <- Ec.
    apply (proj1 (F2R_le_iff m1 e1 m2 e2 c1 P1 ltac:(lia))) in Hle.
    pose proof (Z.div_mod m1 (2 ^ (c1 - e1)) ltac:(lia)) as M1.
    pose proof (Z.div_mod m2 (2 ^ (c1 - e2)) ltac:(lia)) as M2.
    apply rne_mono.
    + apply Z.mod_pos_bound; lia.
    + apply Z.mod_pos_bound. apply Z.pow_pos_nonneg; lia.
    + set (w1 := 2 ^ (c1 - e1)) in *. set (w2 := 2 ^ (c1 - e2)) in *.
      set (q1 := m1 / w1) in *. set (q2 := m2 / w2) in *.
      set (r1 := m1 mod w1) in *. set (r2 := m2 mod w2) in *.
      rewrite M1, M2 in Hle. nia.
  - (* the larger number lies in a higher binade *)
    assert (Hc : c1 < c2) by lia.
    assert (Hc2 : c2 = digits m2 + e2 - 53) by lia.
    apply Rle_trans with (bpow (digits m2 + e2 - 1)).
    + (* the smaller one rounds to at most a power of two *)
      pose proof (rnd_m_bounds m1 e1 H1 P1) as [_ B]. fold c1 in B.
      pose proof (digits_div_pow2 m1 (c1 - e1) H1 ltac:(lia)) as Dq.
      set (q1 := m1 / 2 ^ (c1 - e1)) in *.
      assert (Hq1 : 0 <= q1) by (apply Z.div_pos; lia).
      assert (Hq1' : q1 + 1 <= 2 ^ digits q1).
      { destruct (Z.eq_dec q1 0) as [E|E]; [rewrite E; simpl; lia|].
        pose proof (digits_bounds q1 ltac:(lia)). lia. }
      apply Rle_trans with (F2R (2 ^ digits q1) c1).
      * apply F2R_le_m. lia.
      * rewrite F2R_pow2 by apply digits_nonneg. apply bpow_le. lia.
    + pose proof (rnd_m_bounds m2 e2 H2 P2) as [B _]. fold c2 in B.
      pose proof (digits_bounds m2 H2) as [L2 _].
      assert (Hq2 : 2 ^ 52 <= m2 / 2 ^ (c2 - e2)).
      { apply Z.div_le_lower_bound; [lia|]. rewrite <- Z.pow_add_r by lia.
        replace (c2 - e2 + 52) with (digits m2 - 1) by lia. exact L2. }
      apply Rle_trans with (F2R (2 ^ 52) c2).
      * rewrite F2R_pow2 by lia. apply bpow_le. lia.
      * apply F2R_le_m. lia.
Qed.

Lemma F2R_gt_0 m e : 0 < m -> (0 < F2R m e)%R.
Proof.
  intros H. unfold F2R. apply Rmult_lt_0_compat; [apply IZR_lt; lia|apply bpow_gt_0].
Qed.

Lemma F2R_0 e : F2R 0 e = 0%R.
Proof. unfold F2R. lra. Qed.

Lemma F2R_opp m e : F2R (- m) e = (- F2R m e)%R.
Proof. unfold F2R. rewrite opp_IZR. ring. Qed.

Lemma F2R_lt_m m1 m2 e : m1 < m2 -> (F2R m1 e < F2R m2 e)%R.
Proof.
  intros H. unfold F2R. apply IZR_lt in H. pose proof (bpow_gt_0 e). nra.
Qed.

Lemma canon_lt_e m1 e1 m2 e2 :
  0 < m1 -> 0 < m2 -> canonical m1 e1 -> canonical m2 e2 ->
  e1 < e2 -> (F2R m1 e1 < F2R m2 e2)%R.
Proof.
  unfold canonical, cexp. rewrite !fexp_eq. intros H1 H2 C1 C2 He.
  pose proof (F2R_bounds m1 e1 H1) as [_ U].
  pose proof (F2R_bounds m2 e2 H2) as [L _].
  pose proof (bpow_le (digits m1 + e1) (digits m2 + e2 - 1) ltac:(lia)). lra.
Qed.

Lemma canon_order m1 e1 m2 e2 :
  0 < m1 -> 0 < m2 -> canonical m1 e1 -> canonical m2 e2 ->
  (F2R m1 e1 <= F2R m2 e2)%R -> e1 < e2 \/ (e1 = e2 /\ m1 <= m2).
Proof.
  intros H1 H2 C1 C2 H.
  destruct (Z.lt_trichotomy e1 e2) as [Hlt|[Heq|Hgt]]; auto.
  - right. split; auto. subst e2.
    apply (proj1 (F2R_le_iff m1 e1 m2 e1 e1 ltac:(lia) ltac:(lia))) in H.
    rewrite Z.sub_diag in H. simpl in H. lia.
  - pose proof (canon_lt_e m2 e2 m1 e1 H2 H1 C2 C1 Hgt). lra.
Qed.

Lemma build_le mf1 ef1 mf2 ef2 :
  0 <= mf1 -> 0 <= mf2 ->
  (0 < mf1 -> canonical mf1 ef1) -> (0 < mf2 -> canonical mf2 ef2) ->
  (F2R mf1 ef1 <= F2R mf2 ef2)%R ->
  SFleb (SFbuild false mf1 ef1) (SFbuild false mf2 ef2) = true.
Proof.
  intros H1 H2 C1 C2 H.
  destruct mf1 as [|p1|p1]; [|
    |lia].
  - destruct mf2 as [|p2|p2]; [reflexivity| |lia].
    unfold SFbuild. destruct (ef2 <=? emax - prec); reflexivity.
  - destruct mf2 as [|p2|p2]; [| |lia].
    + pose proof (F2R_gt_0 (Zpos p1) ef1 ltac:(lia)). rewrite F2R_0 in H. lra.
    + destruct (canon_order (Zpos p1) ef1 (Zpos p2) ef2 ltac:(lia) ltac:(lia)
                  (C1 ltac:(lia)) (C2 ltac:(lia)) H) as [Hlt|[Heq Hm]].
      * unfold SFbuild.
        destruct (Z.leb_spec ef1 (emax - prec)); destruct (Z.leb_spec ef2 (emax - prec));
          try reflexivity; try lia.
        unfold SFleb, SFcompare. rewrite (proj2 (Z.compare_lt_iff ef1 ef2) Hlt).
        reflexivity.
      * subst ef2. unfold SFbuild.
        destruct (Z.leb_spec ef1 (emax - prec)); try reflexivity.
        unfold SFleb, SFcompare. rewrite Z.compare_refl.
        change (Pos.compare_cont Eq p1 p2) with (Pos.compare p1 p2).
        destruct (Pos.compare_spec p1 p2); try reflexivity. lia.
Qed.

Lemma SFbuild_opp sx mf ef : SFopp (SFbuild sx mf ef) = SFbuild (negb sx) mf ef.
Proof.
  unfold SFbuild. destruct mf; try reflexivity.
  destruct (ef <=? emax - prec); reflexivity.
Qed.

Lemma SFcompare_opp x y : SFcompare (SFopp x) (SFopp y) = SFcompare y x.
Proof.
  destruct x as [sx|sx| |sx mx ex]; destruct y as [sy|sy| |sy my ey];
    try reflexivity; try (destruct sx; reflexivity); try (destruct sy; reflexivity);
    try (destruct sx, sy; reflexivity).
  destruct sx, sy; simpl; try reflexivity.
  - rewrite (Z.compare_antisym ex ey).
    destruct (ex ?= ey); simpl; try reflexivity.
    rewrite Pos.compare_cont_antisym. reflexivity.
  - rewrite (Z.compare_antisym ex ey).
    destruct (ex ?= ey); simpl; try reflexivity.
    rewrite Pos.compare_cont_antisym. reflexivity.
Qed.

Lemma SFleb_opp x y : SFleb (SFopp x) (SFopp y) = SFleb y x.
Proof. unfold SFleb. rewrite SFcompare_opp. reflexivity. Qed.

Lemma build_neg_le_pos mf1 ef1 mf2 ef2 :
  0 <= mf1 -> 0 <= mf2 ->
  SFleb (SFbuild true mf1 ef1) (SFbuild false mf2 ef2) = true.
Proof.
  intros H1 H2. unfold SFbuild.
  destruct mf1; try lia; destruct mf2; try lia; try reflexivity;
    repeat match goal with |- context [if ?b then _ else _] => destruct b end;
    reflexivity.
Qed.

Lemma shl_align_spec mx ex ex' :
  snd (shl_align mx ex ex') = Z.min ex ex' /\
  Zpos (fst (shl_align mx ex ex')) = Zpos mx * 2 ^ (ex - snd (shl_align mx ex ex')).
Proof.
  unfold shl_align. destruct (ex' - ex) as [|d|d] eqn:E; simpl fst; simpl snd.
  - rewrite Z.sub_diag. simpl. split; lia.
  - rewrite Z.sub_diag. simpl. split; lia.
  - split; [lia|]. replace (ex - ex') with (Zpos d) by lia.
    pose proof (shift_pos_correct d mx) as H. unfold shift_pos in H.
    rewrite H. unfold Zpower_pos. rewrite Z.mul_comm. reflexivity.
Qed.

Lemma digits_mul_pow2 m k : 0 < m -> 0 <= k -> digits (m * 2 ^ k) = digits m + k.
Proof.
  intros Hm Hk. pose proof (digits_bounds m Hm) as [L U].
  pose proof (digits_gt_0 m Hm) as Hd.
  assert (Hp : 0 < 2 ^ k) by (apply Z.pow_pos_nonneg; lia).
  apply digits_unique; [|nia].
  replace (digits m + k - 1) with (digits m - 1 + k) by lia.
  rewrite !Z.pow_add_r by lia. split; nia.
Qed.

Lemma F2R_shift m k e : 0 <= k -> F2R (m * 2 ^ k) e = F2R m (k + e).
Proof.
  intros Hk. unfold F2R. rewrite mult_IZR, bpow_add, (bpow_IZR k) by lia. ring.
Qed.

Lemma shl_align_cexp mx ex :
  let a := shl_align mx ex (cexp (Zpos mx) ex) in
  F2R (Zpos (fst a)) (snd a) = F2R (Zpos mx) ex /\
  snd a <= cexp (Zpos (fst a)) (snd a).
Proof.
  intros a. destruct (shl_align_spec mx ex (cexp (Zpos mx) ex)) as [He Hm].
  fold a in He, Hm. rewrite Hm.
  assert (Hk : 0 <= ex - snd a) by lia.
  split.
  - rewrite F2R_shift by lia. f_equal. lia.
  - unfold cexp in *. rewrite digits_mul_pow2 by lia.
    replace (digits (Zpos mx) + (ex - snd a) + snd a) with (digits (Zpos mx) + ex) by lia.
    lia.
Qed.

Lemma binary_round_build sx mx ex :
  exists mf ef,
    binary_round prec emax sx mx ex = SFbuild sx mf ef /\
    0 <= mf /\ (0 < mf -> canonical mf ef) /\
    F2R mf ef = round_pos mx ex.
Proof.
  unfold binary_round, round_pos.
  pose proof (shl_align_cexp mx ex) as [_ Hpre]. cbv zeta in Hpre.
  change (fexp prec emax (Z.pos (digits2_pos mx) + ex)) with (cexp (Zpos mx) ex).
  destruct (shl_align mx ex (cexp (Zpos mx) ex)) as [mz ez]. simpl fst in *; simpl snd in *.
  destruct (bra_exact_spec sx (Zpos mz) ez ltac:(lia) Hpre) as (mf & ef & Hb & H0 & Hv & Hc).
  exists mf, ef. split; [exact Hb|]. split; [exact H0|]. split; [exact Hc|exact Hv].
Qed.

Lemma round_pos_mono m1 e1 m2 e2 :
  (F2R (Zpos m1) e1 <= F2R (Zpos m2) e2)%R -> (round_pos m1 e1 <= round_pos m2 e2)%R.
Proof.
  intros H. unfold round_pos.
  pose proof (shl_align_cexp m1 e1) as [V1 P1].
  pose proof (shl_align_cexp m2 e2) as [V2 P2]. cbv zeta in *.
  apply rnd_mono; try lia; auto. rewrite V1, V2. exact H.
Qed.

Lemma binary_round_mono m1 e1 m2 e2 :
  (F2R (Zpos m1) e1 <= F2R (Zpos m2) e2)%R ->
  SFleb (binary_round prec emax false m1 e1) (binary_round prec emax false m2 e2) = true.
Proof.
  intros H.
  destruct (binary_round_build false m1 e1) as (f1 & g1 & -> & A1 & B1 & V1).
  destruct (binary_round_build false m2 e2) as (f2 & g2 & -> & A2 & B2 & V2).
  apply build_le; auto. rewrite V1, V2. apply round_pos_mono. exact H.
Qed.

Lemma binary_round_opp sx mx ex :
  SFopp (binary_round prec emax sx mx ex) = binary_round prec emax (negb sx) mx ex.
Proof.
  unfold binary_round. destruct (shl_align _ _ _) as [mz ez].
  rewrite !bra_unfold. cbv zeta. apply SFbuild_opp.
Qed.

Lemma zero_le_build s mf ef : 0 <= mf -> SFleb (S754_zero s) (SFbuild false mf ef) = true.
Proof.
  intros H. unfold SFbuild. destruct mf; try lia; try reflexivity.
  destruct (ef <=? emax - prec); reflexivity.
Qed.

Lemma build_neg_le_zero s mf ef : 0 <= mf -> SFleb (SFbuild true mf ef) (S754_zero s) = true.
Proof.
  intros H. unfold SFbuild. destruct mf; try lia; try reflexivity.
  destruct (ef <=? emax - prec); reflexivity.
Qed.

Lemma bn_mono M1 e1 s1 M2 e2 s2 :
  (F2R M1 e1 <= F2R M2 e2)%R ->
  SFleb (binary_normalize prec emax M1 e1 s1) (binary_normalize prec emax M2 e2 s2) = true.
Proof.
  intros H. unfold binary_normalize.
  destruct M1 as [|p1|p1]; destruct M2 as [|p2|p2].
  - reflexivity.
  - destruct (binary_round_build false p2 e2) as (f & g & -> & A & _).
    apply zero_le_build; auto.
  - exfalso. pose proof (F2R_gt_0 (Zpos p2) e2 ltac:(lia)).
    change (Zneg p2) with (- Zpos p2) in H. rewrite F2R_opp, F2R_0 in H. lra.
  - exfalso. pose proof (F2R_gt_0 (Zpos p1) e1 ltac:(lia)). rewrite F2R_0 in H. lra.
  - apply binary_round_mono; auto.
  - exfalso. pose proof (F2R_gt_0 (Zpos p1) e1 ltac:(lia)).
    pose proof (F2R_gt_0 (Zpos p2) e2 ltac:(lia)).
    change (Zneg p2) with (- Zpos p2) in H. rewrite F2R_opp in H. lra.
  - destruct (binary_round_build true p1 e1) as (f & g & -> & A & _).
    apply build_neg_le_zero; auto.
  - destruct (binary_round_build true p1 e1) as (f1 & g1 & -> & A1 & _).
    destruct (binary_round_build false p2 e2) as (f2 & g2 & -> & A2 & _).
    apply build_neg_le_pos; auto.
  - change true with (negb false). rewrite <- !binary_round_opp, SFleb_opp.
    apply binary_round_mono.
    change (Zneg p1) with (- Zpos p1) in H. change (Zneg p2) with (- Zpos p2) in H.
    rewrite !F2R_opp in H. lra.
Qed.

Lemma valid_finite s m e :
  SFvalid (S754_finite s m e) <-> canonical (Zpos m) e /\ e <= emax - prec.
Proof.
  unfold SFvalid, SpecFloat.valid_binary, SpecFloat.bounded, SpecFloat.canonical_mantissa,
    canonical, cexp, digits, Zdigits2.
  rewrite andb_true_iff, Z.eqb_eq, Z.leb_le. reflexivity.
Qed.

Lemma SFbuild_valid sx mf ef :
  0 <= mf -> (0 < mf -> canonical mf ef) -> SFvalid (SFbuild sx mf ef).
Proof.
  intros H0 Hc. unfold SFbuild. destruct mf as [|p|p]; try reflexivity; try lia.
  destruct (Z.leb_spec ef (emax - prec)); [|reflexivity].
  apply valid_finite. split; [apply Hc; lia|assumption].
Qed.

Lemma SFbuild_not_nan sx mf ef : 0 <= mf -> SFbuild sx mf ef <> S754_nan.
Proof.
  intros H. unfold SFbuild. destruct mf; try lia; try discriminate.
  destruct (ef <=? emax - prec); discriminate.
Qed.

Lemma SFcompare_pos m1 e1 m2 e2 :
  canonical (Zpos m1) e1 -> canonical (Zpos m2) e2 ->
  match SFcompare (S754_finite false m1 e1) (S754_finite false m2 e2) with
  | Some Lt => (F2R (Zpos m1) e1 < F2R (Zpos m2) e2)%R
  | Some Eq => F2R (Zpos m1) e1 = F2R (Zpos m2) e2
  | Some Gt => (F2R (Zpos m2) e2 < F2R (Zpos m1) e1)%R
  | None => False
  end.
Proof.
  intros C1 C2. simpl.
  destruct (Z.compare_spec e1 e2) as [E|E|E].
  - subst e2. change (Pos.compare_cont Eq m1 m2) with (Pos.compare m1 m2).
    destruct (Pos.compare_spec m1 m2) as [H|H|H].
    + subst. reflexivity.
    + apply F2R_lt_m. lia.
    + apply F2R_lt_m. lia.
  - apply canon_lt_e; auto; lia.
  - apply canon_lt_e; auto; lia.
Qed.

Lemma SFcompare_R x y :
  SFvalid x -> SFvalid y -> is_fin x = true -> is_fin y = true ->
  match SFcompare x y with
  | Some Lt => (SF2R x < SF2R y)%R
  | Some Eq => SF2R x = SF2R y
  | Some Gt => (SF2R y < SF2R x)%R
  | None => False
  end.
Proof.
  intros Vx Vy Fx Fy.
  destruct x as [sx|sx| |sx mx ex]; try discriminate;
  destruct y as [sy|sy| |sy my ey]; try discriminate.
  - reflexivity.
  - pose proof (F2R_gt_0 (Zpos my) ey ltac:(lia)) as P.
    destruct sy; simpl; [change (Zneg my) with (- Zpos my); rewrite F2R_opp|]; lra.
  - pose proof (F2R_gt_0 (Zpos mx) ex ltac:(lia)) as P.
    destruct sx; simpl; [change (Zneg mx) with (- Zpos mx); rewrite F2R_opp|]; lra.
  - apply valid_finite in Vx, Vy. destruct Vx as [Cx _], Vy as [Cy _].
    pose proof (F2R_gt_0 (Zpos mx) ex ltac:(lia)) as Px.
    pose proof (F2R_gt_0 (Zpos my) ey ltac:(lia)) as Py.
    destruct sx, sy.
    + pose proof (SFcompare_pos my ey mx ex Cy Cx) as H.
      change (S754_finite false my ey) with (SFopp (S754_finite true my ey)) in H.
      change (S754_finite false mx ex) with (SFopp (S754_finite true mx ex)) in H.
      rewrite SFcompare_opp in H. simpl SF2R. change (Zneg mx) with (- Zpos mx).
      change (Zneg my) with (- Zpos my). rewrite !F2R_opp.
      destruct (SFcompare (S754_finite true mx ex) (S754_finite true my ey)) as [[]|];
        try lra; auto.
    + simpl. change (Zneg mx) with (- Zpos mx). rewrite F2R_opp. lra.
    + simpl. change (Zneg my) with (- Zpos my). rewrite F2R_opp. lra.
    + apply SFcompare_pos; auto.
Qed.

Lemma SFleb_R x y :
  SFvalid x -> SFvalid y -> is_fin x = true -> is_fin y = true ->
  (SFleb x y = true <-> (SF2R x <= SF2R y)%R).
Proof.
  intros Vx Vy Fx Fy. pose proof (SFcompare_R x y Vx Vy Fx Fy) as H.
  unfold SFleb. destruct (SFcompare x y) as [[]|]; try contradiction;
    split; intro; try reflexivity; try discriminate; lra.
Qed.

Lemma SFltb_R x y :
  SFvalid x -> SFvalid y -> is_fin x = true -> is_fin y = true ->
  (SFltb x y = true <-> (SF2R x < SF2R y)%R).
Proof.
  intros Vx Vy Fx Fy. pose proof (SFcompare_R x y Vx Vy Fx Fy) as H.
  unfold SFltb. destruct (SFcompare x y) as [[]|]; try contradiction;
    split; intro; try reflexivity; try discriminate; lra.
Qed.

Lemma bn_idem s m e sz :
  SFvalid (S754_finite s m e) ->
  binary_normalize prec emax (cond_Zopp s (Zpos m)) e sz = S754_finite s m e.
Proof.
  intros V. apply valid_finite in V. destruct V as [C B].
  assert (E : binary_round prec emax s m e = S754_finite s m e).
  { unfold binary_round.
    change (fexp prec emax (Z.pos (digits2_pos m) + e)) with (cexp (Zpos m) e).
    rewrite C. unfold shl_align. rewrite Z.sub_diag.
    rewrite bra_unfold. cbv zeta.
    assert (S : shr_fexp prec emax (Zpos m) e loc_Exact =
                ({| shr_m := Zpos m; shr_r := false; shr_s := false |}, e)).
    { unfold shr_fexp. change (fexp prec emax (Zdigits2 (Zpos m) + e)) with (cexp (Zpos m) e).
      rewrite C, Z.sub_diag. reflexivity. }
    rewrite S. simpl fst. simpl snd. simpl round_nearest_even. rewrite S.
    simpl fst. simpl snd. simpl shr_m. unfold SFbuild.
    apply Z.leb_le in B. rewrite B. reflexivity. }
  destruct s; simpl; exact E.
Qed.

Lemma F2R_cond_Zopp s m e :
  F2R (cond_Zopp s m) e = if s then (- F2R m e)%R else F2R m e.
Proof. destruct s; simpl; [apply F2R_opp|reflexivity]. Qed.

Lemma F2R_plus a b e : F2R (a + b) e = (F2R a e + F2R b e)%R.
Proof. unfold F2R. rewrite plus_IZR. ring. Qed.

Lemma F2R_mult a ea b eb : F2R (a * b) (ea + eb) = (F2R a ea * F2R b eb)%R.
Proof. unfold F2R. rewrite mult_IZR, bpow_add. ring. Qed.

Lemma SF2R_finite s m e :
  SF2R (S754_finite s m e) = if s then (- F2R (Zpos m) e)%R else F2R (Zpos m) e.
Proof. simpl. apply F2R_cond_Zopp. Qed.

Lemma shl_align_value mx ex ez :
  ez <= ex -> F2R (Zpos (fst (shl_align mx ex ez))) ez = F2R (Zpos mx) ex.
Proof.
  intros H. destruct (shl_align_spec mx ex ez) as [He Hm].
  rewrite Z.min_r in He by lia. rewrite He in Hm. rewrite Hm.
  rewrite F2R_shift by lia. f_equal. lia.
Qed.

Lemma bn_not_nan M e s : binary_normalize prec emax M e s <> S754_nan.
Proof.
  unfold binary_normalize. destruct M as [|p|p]; try discriminate.
  - destruct (binary_round_build false p e) as (f & g & -> & A & _).
    apply SFbuild_not_nan; auto.
  - destruct (binary_round_build true p e) as (f & g & -> & A & _).
    apply SFbuild_not_nan; auto.
Qed.

Lemma bn_valid M e s : SFvalid (binary_normalize prec emax M e s).
Proof.
  unfold binary_normalize. destruct M as [|p|p]; try reflexivity.
  - destruct (binary_round_build false p e) as (f & g & -> & A & B & _).
    apply SFbuild_valid; auto.
  - destruct (binary_round_build true p e) as (f & g & -> & A & B & _).
    apply SFbuild_valid; auto.
Qed.

Lemma SFadd_fin x c :
  SFvalid x -> SFvalid c -> is_fin x = true -> is_fin c = true ->
  exists M e s,
    SFadd prec emax x c = binary_normalize prec emax M e s /\
    F2R M e = (SF2R x + SF2R c)%R.
Proof.
  intros Vx Vc Fx Fc.
  destruct x as [sx|sx| |sx mx ex]; try discriminate;
  destruct c as [sc|sc| |sc mc ec]; try discriminate.
  - exists 0, 0. destruct sx, sc; simpl.
    + exists true. split; [reflexivity|rewrite F2R_0; lra].
    + exists false. split; [reflexivity|rewrite F2R_0; lra].
    + exists false. split; [reflexivity|rewrite F2R_0; lra].
    + exists false. split; [reflexivity|rewrite F2R_0; lra].
  - exists (cond_Zopp sc (Zpos mc)), ec, false. split.
    + rewrite bn_idem by exact Vc. reflexivity.
    + simpl. lra.
  - exists (cond_Zopp sx (Zpos mx)), ex, false. split.
    + rewrite bn_idem by exact Vx. reflexivity.
    + simpl. lra.
  - eexists _, _, _. split; [reflexivity|].
    rewrite F2R_plus, !F2R_cond_Zopp, !shl_align_value by lia.
    rewrite !SF2R_finite. reflexivity.
Qed.

Lemma SFleb_refl x : x <> S754_nan -> SFleb x x = true.
Proof.
  destruct x as [s|s| |s m e]; try congruence; intros _; try reflexivity.
  - destruct s; reflexivity.
  - unfold SFleb, SFcompare. rewrite Z.compare_refl.
    change (Pos.compare_cont Eq m m) with (Pos.compare m m). rewrite Pos.compare_refl.
    destruct s; reflexivity.
Qed.

Lemma SFleb_ninf x : x <> S754_nan -> SFleb (S754_infinity true) x = true.
Proof. destruct x as [s|[|]| |s m e]; try congruence; reflexivity. Qed.

Lemma SFleb_pinf x : x <> S754_nan -> SFleb x (S754_infinity false) = true.
Proof. destruct x as [s|[|]| |[|] m e]; try congruence; reflexivity. Qed.

Lemma SFle_nan_refl x : SFle_nan x x.
Proof.
  destruct x as [s|s| |s m e]; [right; right|right; right|left; reflexivity|right; right];
    apply SFleb_refl; discriminate.
Qed.

Lemma SFle_nan_ninf x : SFle_nan (S754_infinity true) x.
Proof.
  destruct x as [s|s| |s m e]; [right; right|right; right|right; left; reflexivity|right; right];
    apply SFleb_ninf; discriminate.
Qed.

Lemma SFle_nan_pinf x : SFle_nan x (S754_infinity false).
Proof.
  destruct x as [s|s| |s m e]; [right; right|right; right|left; reflexivity|right; right];
    apply SFleb_pinf; discriminate.
Qed.

Lemma SFadd_mono x y c :
  SFvalid x -> SFvalid y -> SFvalid c ->
  SFle_nan x y -> SFle_nan (SFadd prec emax x c) (SFadd prec emax y c).
Proof.
  intros Vx Vy Vc [->|[->|H]].
  - left. destruct c; reflexivity.
  - right; left. destruct c; reflexivity.
  - destruct (is_fin c) eqn:Fc.
    + destruct (is_fin x) eqn:Fx; destruct (is_fin y) eqn:Fy.
      * destruct (SFadd_fin x c Vx Vc Fx Fc) as (M1 & e1 & s1 & -> & E1).
        destruct (SFadd_fin y c Vy Vc Fy Fc) as (M2 & e2 & s2 & -> & E2).
        right; right. apply bn_mono. rewrite E1, E2.
        apply (SFleb_R x y Vx Vy Fx Fy) in H. lra.
      * destruct y as [sy|[|]| |sy my ey]; try discriminate.
        -- destruct x; discriminate.
        -- replace (SFadd prec emax (S754_infinity false) c) with (S754_infinity false)
             by (destruct c; try discriminate; reflexivity).
           apply SFle_nan_pinf.
        -- destruct x; discriminate.
      * destruct x as [sx|[|]| |sx mx ex]; try discriminate.
        -- replace (SFadd prec emax (S754_infinity true) c) with (S754_infinity true)
             by (destruct c; try discriminate; reflexivity).
           apply SFle_nan_ninf.
        -- destruct y; discriminate.
      * destruct x as [sx|[|]| |sx mx ex]; try discriminate.
        -- replace (SFadd prec emax (S754_infinity true) c) with (S754_infinity true)
             by (destruct c; try discriminate; reflexivity).
           apply SFle_nan_ninf.
        -- destruct y as [sy|[|]| |sy my ey]; try discriminate. apply SFle_nan_refl.
    + destruct c as [sc|sc| |sc mc ec]; try discriminate.
      * destruct x as [sx|[|]| |sx mx ex]; destruct y as [sy|[|]| |sy my ey];
          destruct sc; unfold SFle_nan; simpl; auto.
      * left. destruct x; reflexivity.
Qed.

Lemma SFadd_comm x y : SFadd prec emax x y = SFadd prec emax y x.
Proof.
  destruct x as [sx|sx| |sx mx ex]; destruct y as [sy|sy| |sy my ey];
    try reflexivity; try (destruct sx, sy; reflexivity).
  simpl. rewrite (Z.min_comm ey ex). rewrite Z.add_comm. reflexivity.
Qed.

Lemma SFadd_mono_r x y c :
  SFvalid x -> SFvalid y -> SFvalid c ->
  SFle_nan x y -> SFle_nan (SFadd prec emax c x) (SFadd prec emax c y).
Proof.
  intros. rewrite (SFadd_comm c x), (SFadd_comm c y). apply SFadd_mono; auto.
Qed.

Lemma SFsub_add_opp x y : SFsub prec emax x y = SFadd prec emax x (SFopp y).
Proof.
  destruct x as [sx|sx| |sx mx ex]; destruct y as [sy|sy| |sy my ey];
    try reflexivity; try (destruct sx, sy; reflexivity).
Qed.

Lemma SFopp_valid x : SFvalid x -> SFvalid (SFopp x).
Proof. destruct x; auto. Qed.

Lemma SFsub_mono x y c :
  SFvalid x -> SFvalid y -> SFvalid c ->
  SFle_nan x y -> SFle_nan (SFsub prec emax x c) (SFsub prec emax y c).
Proof.
  intros. rewrite !SFsub_add_opp. apply SFadd_mono; auto. apply SFopp_valid; auto.
Qed.

Lemma digits_mul_ge a b : 0 < a -> 0 < b -> digits a + digits b - 1 <= digits (a * b).
Proof.
  intros Ha Hb. pose proof (digits_bounds a Ha) as [La _].
  pose proof (digits_bounds b Hb) as [Lb _].
  pose proof (digits_gt_0 a Ha). pose proof (digits_gt_0 b Hb).
  assert (Hp : 2 ^ (digits a + digits b - 2) <= a * b).
  { replace (digits a + digits b - 2) with ((digits a - 1) + (digits b - 1)) by lia.
    rewrite Z.pow_add_r by lia.
    pose proof (Z.pow_pos_nonneg 2 (digits a - 1) ltac:(lia) ltac:(lia)).
    pose proof (Z.pow_pos_nonneg 2 (digits b - 1) ltac:(lia) ltac:(lia)). nia. }
  pose proof (digits_le (2 ^ (digits a + digits b - 2)) (a * b)) as H1.
  rewrite digits_pow2 in H1 by lia.
  pose proof (Z.pow_pos_nonneg 2 (digits a + digits b - 2) ltac:(lia) ltac:(lia)).
  lia.
Qed.

Lemma mul_pre ma ea mb eb :
  0 < ma -> 0 < mb -> canonical ma ea -> canonical mb eb ->
  ea + eb <= cexp (ma * mb) (ea + eb).
Proof.
  unfold canonical, cexp. rewrite !fexp_eq. intros Ha Hb Ca Cb.
  pose proof (digits_mul_ge ma mb Ha Hb).
  pose proof (digits_gt_0 ma Ha). pose proof (digits_gt_0 mb Hb). lia.
Qed.

Lemma binary_round_aligned sx mx ex :
  ex <= cexp (Zpos mx) ex ->
  binary_round prec emax sx mx ex =
  binary_round_aux prec emax sx (Zpos mx) ex loc_Exact.
Proof.
  intros H. unfold binary_round.
  change (fexp prec emax (Z.pos (digits2_pos mx) + ex)) with (cexp (Zpos mx) ex).
  unfold shl_align. destruct (cexp (Zpos mx) ex - ex) eqn:E; try reflexivity. lia.
Qed.

Lemma SFmul_fin mb eb p :
  SFvalid (S754_finite false mb eb) -> SFvalid p -> is_fin p = true ->
  exists M e s,
    SFmul prec emax (S754_finite false mb eb) p = binary_normalize prec emax M e s /\
    F2R M e = (F2R (Zpos mb) eb * SF2R p)%R.
Proof.
  intros Vb Vp Fp. destruct p as [sp|sp| |sp mp ep]; try discriminate.
  - exists 0, 0, sp. split; [reflexivity|]. rewrite F2R_0. simpl. lra.
  - exists (cond_Zopp sp (Zpos (mb * mp))), (eb + ep), false. split.
    + apply valid_finite in Vb, Vp. destruct Vb as [Cb _], Vp as [Cp _].
      pose proof (mul_pre (Zpos mb) eb (Zpos mp) ep ltac:(lia) ltac:(lia) Cb Cp) as Hpre.
      simpl SFmul.
      rewrite <- binary_round_aligned by exact Hpre.
      destruct sp; reflexivity.
    + rewrite F2R_cond_Zopp, SF2R_finite, Pos2Z.inj_mul, F2R_mult.
      destruct sp; ring.
Qed.

Lemma SFmul_mono b p p' :
  SFvalid b -> SFvalid p -> SFvalid p' ->
  SFleb (S754_zero false) b = true ->
  SFle_nan p p' -> SFle_nan (SFmul prec emax b p) (SFmul prec emax b p').
Proof.
  intros Vb Vp Vp' Hb [->|[->|H]].
  - left. destruct b; reflexivity.
  - right; left. destruct b; reflexivity.
  - destruct b as [sb|sb| |sb mb eb]; try discriminate.
    + (* zero *)
      destruct p as [s|s| |s m e]; destruct p' as [s'|s'| |s' m' e'];
        unfold SFle_nan; simpl; auto.
    + destruct sb; try discriminate.
      destruct p as [s|[|]| |[|] m e]; destruct p' as [s'|[|]| |[|] m' e'];
        unfold SFle_nan; simpl; auto; try discriminate.
    + destruct sb; try discriminate.
      destruct (is_fin p) eqn:Fp; destruct (is_fin p') eqn:Fp'.
      * destruct (SFmul_fin mb eb p Vb Vp Fp) as (M1 & e1 & s1 & -> & E1).
        destruct (SFmul_fin mb eb p' Vb Vp' Fp') as (M2 & e2 & s2 & -> & E2).
        right; right. apply bn_mono. rewrite E1, E2.
        apply (SFleb_R p p' Vp Vp' Fp Fp') in H.
        pose proof (F2R_gt_0 (Zpos mb) eb ltac:(lia)). nra.
      * destruct p' as [s'|[|]| |s' m' e']; try discriminate.
        -- destruct p; discriminate.
        -- replace (SFmul prec emax (S754_finite false mb eb) (S754_infinity false))
             with (S754_infinity false) by reflexivity.
           apply SFle_nan_pinf.
        -- destruct p; discriminate.
      * destruct p as [s|[|]| |s m e]; try discriminate.
        -- replace (SFmul prec emax (S754_finite false mb eb) (S754_infinity true))
             with (S754_infinity true) by reflexivity.
           apply SFle_nan_ninf.
        -- destruct p'; discriminate.
      * destruct p as [s|[|]| |s m e]; try discriminate.
        -- replace (SFmul prec emax (S754_finite false mb eb) (S754_infinity true))
             with (S754_infinity true) by reflexivity.
           apply SFle_nan_ninf.
        -- destruct p' as [s'|[|]| |s' m' e']; try discriminate. apply SFle_nan_refl.
Qed.

(* division of integers *)
Lemma shiftl_match m s :
  0 <= s ->
  match s with Z.pos _ => Z.shiftl m s | 0 => m | Z.neg _ => 0 end = m * 2 ^ s.
Proof.
  intros Hs. destruct s as [|p|p]; try lia.
  apply Z.shiftl_mul_pow2. lia.
Qed.

Lemma SFdiv_core_int m1 m2 :
  0 < m1 -> 0 < m2 -> -1021 <= digits m1 - digits m2 ->
  exists q e l,
    SFdiv_core_binary prec emax m1 0 m2 0 = (q, e, l) /\
    0 < q /\ e <= cexp q e /\
    digits q + e <= digits m1 - digits m2 + 1.
Proof.
  intros H1 H2 Hd. unfold SFdiv_core_binary.
  change (Zdigits2 m1) with (digits m1). change (Zdigits2 m2) with (digits m2).
  rewrite !Z.add_0_r, Z.sub_diag. rewrite fexp_eq.
  set (e' := Z.min (Z.max (digits m1 - digits m2 - 53) (-1074)) 0).
  set (s := 0 - e').
  assert (Hs : 0 <= s) by (unfold s, e'; lia).
  rewrite (shiftl_match m1 s Hs).
  pose proof (Z_div_mod (m1 * 2 ^ s) m2 ltac:(lia)) as Hdm.
  destruct (Z.div_eucl (m1 * 2 ^ s) m2) as [q r]. destruct Hdm as [Hq Hr].
  exists q, e', (new_location m2 r). split; [reflexivity|].
  pose proof (digits_bounds m1 H1) as [L1 U1].
  pose proof (digits_bounds m2 H2) as [L2 U2].
  pose proof (digits_gt_0 m1 H1) as D1. pose proof (digits_gt_0 m2 H2) as D2.
  set (D := digits m1 + s - digits m2).
  assert (HD : 53 <= D) by (unfold D, s, e'; lia).
  assert (P1 : 0 < 2 ^ s) by (apply Z.pow_pos_nonneg; lia).
  assert (Hlo : 2 ^ (D - 1) <= q).
  { assert (A : 2 ^ (digits m1 - 1 + s) <= m1 * 2 ^ s).
    { rewrite Z.pow_add_r by lia. nia. }
    assert (B : 2 ^ (digits m1 - 1 + s) < (q + 1) * 2 ^ digits m2) by nia.
    replace (digits m1 - 1 + s) with ((D - 1) + digits m2) in B by (unfold D; lia).
    rewrite Z.pow_add_r in B by lia.
    pose proof (Z.pow_pos_nonneg 2 (digits m2) ltac:(lia) ltac:(lia)).
    assert (2 ^ (D - 1) < q + 1) by nia. lia. }
  assert (Hhi : q < 2 ^ (D + 1)).
  { assert (A : m1 * 2 ^ s < 2 ^ (digits m1 + s)).
    { rewrite Z.pow_add_r by lia. nia. }
    replace (digits m1 + s) with ((D + 1) + (digits m2 - 1)) in A by (unfold D; lia).
    rewrite Z.pow_add_r in A by lia.
    pose proof (Z.pow_pos_nonneg 2 (digits m2 - 1) ltac:(lia) ltac:(lia)).
    assert (q * 2 ^ (digits m2 - 1) < 2 ^ (D + 1) * 2 ^ (digits m2 - 1)) by nia.
    nia. }
  assert (Hq0 : 0 < q).
  { pose proof (Z.pow_pos_nonneg 2 (D - 1) ltac:(lia) ltac:(lia)). lia. }
  assert (Hdq : D <= digits q <= D + 1).
  { split.
    - pose proof (digits_le (2 ^ (D - 1)) q) as H.
      rewrite digits_pow2 in H by lia.
      pose proof (Z.pow_pos_nonneg 2 (D - 1) ltac:(lia) ltac:(lia)). lia.
    - pose proof (digits_bounds q Hq0) as [Lq _].
      assert (digits q - 1 < D + 1); [|lia].
      apply (Z.pow_lt_mono_r_iff 2); lia. }
  split; [exact Hq0|]. unfold cexp. rewrite fexp_eq.
  unfold D, s in Hdq. split; lia.
Qed.

Lemma digits_pow10 d : 0 <= d -> digits (10 ^ d) <= 4 * d + 1.
Proof.
  intros Hd.
  assert (H : 10 ^ d <= 2 ^ (4 * d)).
  { rewrite Z.pow_mul_r by lia. change (2 ^ 4) with 16.
    apply Z.pow_le_mono_l. lia. }
  pose proof (Z.pow_pos_nonneg 10 d ltac:(lia) Hd).
  pose proof (digits_le (10 ^ d) (2 ^ (4 * d)) ltac:(lia)) as H1.
  rewrite digits_pow2 in H1 by lia. exact H1.
Qed.

Lemma SFdiv_int v d :
  - 2 ^ 511 <= v < 2 ^ 511 -> 0 <= d <= 80 ->
  exists mf ef,
    SFdiv prec emax (JS.Z2SF v) (JS.Z2SF (10 ^ d)) = SFbuild (v <? 0) mf ef /\
    0 <= mf /\ (0 < mf -> canonical mf ef) /\ ef <= emax - prec.
Proof.
  intros Hv Hd.
  pose proof (Z.pow_pos_nonneg 10 d ltac:(lia) ltac:(lia)) as H10.
  destruct (10 ^ d) as [|pd|pd] eqn:E10; try lia.
  destruct v as [|pv|pv].
  - exists 0, 0. simpl. repeat split; try lia.
  - pose proof (digits_pow10 d ltac:(lia)) as D10. rewrite E10 in D10.
    assert (Dv : digits (Zpos pv) <= 511).
    { pose proof (digits_le (Zpos pv) (2 ^ 511 - 1) ltac:(lia)) as H.
      replace (digits (2 ^ 511 - 1)) with 511 in H by reflexivity. exact H. }
    pose proof (digits_gt_0 (Zpos pv) ltac:(lia)).
    pose proof (digits_gt_0 (Zpos pd) ltac:(lia)).
    destruct (SFdiv_core_int (Zpos pv) (Zpos pd) ltac:(lia) ltac:(lia) ltac:(lia))
      as (q & e & l & Hc & Hq & Hpre & Hdq).
    simpl SFdiv. rewrite Hc.
    destruct (bra_spec false q e l Hq Hpre) as (mf & ef & Hb & Hmf & Hv' & Hcan).
    exists mf, ef. split; [exact Hb|]. split; [exact Hmf|]. split; [exact Hcan|].
    change (emax - prec) with 971.
    assert (Hc' : cexp q e = Z.max (digits q + e - 53) (-1074)) by reflexivity.
    lia.
  - pose proof (digits_pow10 d ltac:(lia)) as D10. rewrite E10 in D10.
    assert (Dv : digits (Zpos pv) <= 512).
    { pose proof (digits_le (Zpos pv) (2 ^ 511) ltac:(lia)) as H.
      rewrite digits_pow2 in H by lia. lia. }
    pose proof (digits_gt_0 (Zpos pv) ltac:(lia)).
    pose proof (digits_gt_0 (Zpos pd) ltac:(lia)).
    destruct (SFdiv_core_int (Zpos pv) (Zpos pd) ltac:(lia) ltac:(lia) ltac:(lia))
      as (q & e & l & Hc & Hq & Hpre & Hdq).
    simpl SFdiv. rewrite Hc.
    destruct (bra_spec true q e l Hq Hpre) as (mf & ef & Hb & Hmf & Hv' & Hcan).
    exists mf, ef. split; [exact Hb|]. split; [exact Hmf|]. split; [exact Hcan|].
    change (emax - prec) with 971.
    assert (Hc' : cexp q e = Z.max (digits q + e - 53) (-1074)) by reflexivity.
    lia.
Qed.

(* comparisons in general *)
Lemma SFcompare_swap x y :
  SFcompare y x = option_map CompOpp (SFcompare x y).
Proof.
  destruct x as [sx|sx| |sx mx ex]; destruct y as [sy|sy| |sy my ey];
    try reflexivity; try (destruct sx; reflexivity); try (destruct sy; reflexivity);
    try (destruct sx, sy; reflexivity).
  destruct sx, sy; simpl; try reflexivity.
  - rewrite (Z.compare_antisym ex ey).
    destruct (ex ?= ey); simpl; try reflexivity.
    rewrite (Pos.compare_cont_antisym mx my Eq). reflexivity.
  - rewrite (Z.compare_antisym ex ey).
    destruct (ex ?= ey); simpl; try reflexivity.
    rewrite (Pos.compare_cont_antisym mx my Eq). reflexivity.
Qed.

Lemma SFle_nan_not_lt x y : SFle_nan x y -> SFltb y x = false.
Proof.
  intros [->|[->|H]].
  - destruct y; reflexivity.
  - reflexivity.
  - unfold SFltb, SFleb in *. rewrite (SFcompare_swap x y).
    destruct (SFcompare x y) as [[]|]; simpl; try discriminate; reflexivity.
Qed.


Lemma SFltb_leb_trans x y z :
  SFvalid x -> SFvalid y -> SFvalid z ->
  SFltb x y = true -> SFleb y z = true -> SFltb x z = true.
Proof.
  intros Vx Vy Vz H1 H2.
  destruct (is_fin x && is_fin y && is_fin z) eqn:F.
  - apply andb_true_iff in F. destruct F as [F Fz].
    apply andb_true_iff in F. destruct F as [Fx Fy].
    apply (SFltb_R x y Vx Vy Fx Fy) in H1. apply (SFleb_R y z Vy Vz Fy Fz) in H2.
    apply (SFltb_R x z Vx Vz Fx Fz). lra.
  - clear Vx Vy Vz.
    destruct x as [sx|[|]| |[|] mx ex]; destruct y as [sy|[|]| |[|] my ey];
      destruct z as [sz|[|]| |[|] mz ez];
      try discriminate F; try discriminate H1; try discriminate H2; reflexivity.
Qed.

Lemma SFltb_zero_r x s : SFltb x (S754_zero s) = negb (SFnot_neg x).
Proof. destruct x as [sx|[|]| |[|] m e]; reflexivity. Qed.

Lemma SFltb_zero_l x s : SFltb (S754_zero s) x = negb (SFnot_pos x).
Proof. destruct x as [sx|[|]| |[|] m e]; reflexivity. Qed.

Lemma SFbuild_not_neg mf ef : 0 <= mf -> SFnot_neg (SFbuild false mf ef) = true.
Proof.
  intros H. unfold SFbuild. destruct mf; try lia; try reflexivity.
  destruct (ef <=? emax - prec); reflexivity.
Qed.

Lemma SFbuild_not_pos mf ef : SFnot_pos (SFbuild true mf ef) = true.
Proof.
  unfold SFbuild. destruct mf; try reflexivity.
  destruct (ef <=? emax - prec); reflexivity.
Qed.

Lemma bra_sign sx mx ex lx :
  0 <= mx ->
  exists mf ef, binary_round_aux prec emax sx mx ex lx = SFbuild sx mf ef /\ 0 <= mf.
Proof.
  intros Hm. rewrite bra_unfold. cbv zeta.
  eexists _, _. split; [reflexivity|].
  destruct (shr_fexp_m mx ex lx Hm) as [_ H1].
  assert (Hq : 0 <= shr_m (fst (shr_fexp prec emax mx ex lx))).
  { rewrite H1. apply Z.div_pos; [lia|]. apply Z.pow_pos_nonneg; lia. }
  set (r := round_nearest_even _ _).
  assert (Hr : 0 <= r).
  { pose proof (rne_bounds (shr_m (fst (shr_fexp prec emax mx ex lx)))
                 (loc_of_shr_record (fst (shr_fexp prec emax mx ex lx)))). unfold r. lia. }
  destruct (shr_fexp_m r (snd (shr_fexp prec emax mx ex lx)) loc_Exact Hr) as [_ H2].
  rewrite H2. apply Z.div_pos; [lia|]. apply Z.pow_pos_nonneg; lia.
Qed.

Lemma SFmul_not_neg x y :
  SFnot_neg x = true -> SFnot_neg y = true -> SFnot_neg (SFmul prec emax x y) = true.
Proof.
  destruct x as [sx|[|]| |[|] mx ex]; destruct y as [sy|[|]| |[|] my ey];
    try discriminate; try reflexivity; intros _ _.
  simpl SFmul.
  destruct (bra_sign false (Zpos (mx * my)) (ex + ey) loc_Exact ltac:(lia))
    as (mf & ef & -> & H).
  apply SFbuild_not_neg; exact H.
Qed.

Lemma SFdiv_core_nonneg m1 e1 m2 e2 :
  0 < m1 -> 0 < m2 -> 0 <= fst (fst (SFdiv_core_binary prec emax m1 e1 m2 e2)).
Proof.
  intros H1 H2. unfold SFdiv_core_binary.
  set (m' := match _ with Z.pos _ => _ | 0 => m1 | Z.neg _ => 0 end).
  assert (Hm' : 0 <= m').
  { unfold m'. destruct (_ - _ - _) as [|p|p]; try lia.
    rewrite Z.shiftl_mul_pow2 by lia.
    pose proof (Z.pow_pos_nonneg 2 (Zpos p) ltac:(lia) ltac:(lia)). nia. }
  pose proof (Z_div_mod m' m2 ltac:(lia)) as Hdm.
  destruct (Z.div_eucl m' m2) as [q r]. simpl. destruct Hdm as [Hq Hr]. nia.
Qed.

Lemma SFdiv_not_neg x my ey :
  SFnot_neg x = true ->
  SFnot_neg (SFdiv prec emax x (S754_finite false my ey)) = true.
Proof.
  destruct x as [sx|[|]| |[|] mx ex];
    try discriminate; try reflexivity; intros _;
    try (destruct sx; reflexivity).
  simpl SFdiv.
  pose proof (SFdiv_core_nonneg (Zpos mx) ex (Zpos my) ey ltac:(lia) ltac:(lia)) as Hq.
  destruct (SFdiv_core_binary prec emax (Zpos mx) ex (Zpos my) ey) as [[mz ez] lz].
  simpl in Hq.
  destruct (bra_sign false mz ez lz Hq) as (mf & ef & -> & H).
  apply SFbuild_not_neg; exact H.
Qed.

Lemma bn_not_pos M e s : M <= 0 -> SFnot_pos (binary_normalize prec emax M e s) = true.
Proof.
  intros H. destruct M as [|p|p]; try lia; try reflexivity.
  simpl. destruct (binary_round_build true p e) as (f & g & -> & _).
  apply SFbuild_not_pos.
Qed.

Lemma bn_not_neg M e s : 0 <= M -> SFnot_neg (binary_normalize prec emax M e s) = true.
Proof.
  intros H. destruct M as [|p|p]; try lia; try reflexivity.
  simpl. destruct (binary_round_build false p e) as (f & g & -> & A & _).
  apply SFbuild_not_neg; exact A.
Qed.

Lemma SFsub_not_pos x y :
  SFnot_pos x = true -> SFnot_neg y = true -> SFnot_pos (SFsub prec emax x y) = true.
Proof.
  destruct x as [sx|[|]| |[|] mx ex]; destruct y as [sy|[|]| |[|] my ey];
    try discriminate; try reflexivity; intros _ _;
    try (destruct sx; reflexivity); try (destruct sy; reflexivity);
    try (destruct sx, sy; reflexivity).
  simpl SFsub.
  match goal with
  | |- context [binary_round prec emax true ?m ?e] =>
      destruct (binary_round_build true m e) as (f & g & -> & _)
  end.
  apply SFbuild_not_pos.
Qed.

(** * Primitive floats through their specification *)

Lemma SFeqb_refl x : x <> S754_nan -> SFeqb x x = true.
Proof.
  destruct x as [s|s| |s m e]; try congruence; intros _; try reflexivity.
  - destruct s; reflexivity.
  - unfold SFeqb, SFcompare. rewrite Z.compare_refl.
    change (Pos.compare_cont Eq m m) with (Pos.compare m m). rewrite Pos.compare_refl.
    destruct s; reflexivity.
Qed.

Lemma is_nan_spec x : PrimFloat.is_nan x = true <-> Prim2SF x = S754_nan.
Proof.
  unfold PrimFloat.is_nan. rewrite eqb_spec. split.
  - intros H. destruct (Prim2SF x) eqn:E; try reflexivity;
      rewrite SFeqb_refl in H by discriminate; discriminate.
  - intros ->. reflexivity.
Qed.

Lemma is_nan_false x : PrimFloat.is_nan x = false <-> Prim2SF x <> S754_nan.
Proof.
  rewrite <- is_nan_spec. destruct (PrimFloat.is_nan x); split; congruence.
Qed.

Lemma fle_nan_spec x y :
  fle_nan x y = true <-> SFle_nan (Prim2SF x) (Prim2SF y).
Proof.
  unfold fle_nan, SFle_nan. rewrite !orb_true_iff, !is_nan_spec, leb_spec. tauto.
Qed.

Lemma fle_nan_refl x : fle_nan x x = true.
Proof. apply fle_nan_spec, SFle_nan_refl. Qed.

Lemma fle_nan_add_l x y c :
  fle_nan x y = true -> fle_nan (x + c) (y + c) = true.
Proof.
  rewrite !fle_nan_spec, !add_spec. apply SFadd_mono; apply Prim2SF_valid.
Qed.

Lemma fle_nan_add_r x y c :
  fle_nan x y = true -> fle_nan (c + x) (c + y) = true.
Proof.
  rewrite !fle_nan_spec, !add_spec. apply SFadd_mono_r; apply Prim2SF_valid.
Qed.

Lemma fle_nan_sub_l x y c :
  fle_nan x y = true -> fle_nan (x - c) (y - c) = true.
Proof.
  rewrite !fle_nan_spec, !sub_spec. apply SFsub_mono; apply Prim2SF_valid.
Qed.

Lemma fle_nan_mul b p p' :
  (0 <=? b)%float = true ->
  fle_nan p p' = true -> fle_nan (b * p) (b * p') = true.
Proof.
  rewrite leb_spec, !fle_nan_spec, !mul_spec. intros Hb.
  apply SFmul_mono; try apply Prim2SF_valid. exact Hb.
Qed.

Lemma fle_nan_not_lt x y : fle_nan x y = true -> (y <? x)%float = false.
Proof. rewrite fle_nan_spec, ltb_spec. apply SFle_nan_not_lt. Qed.


Lemma ltb_leb_trans x y z :
  (x <? y)%float = true -> (y <=? z)%float = true -> (x <? z)%float = true.
Proof.
  rewrite !ltb_spec, leb_spec. apply SFltb_leb_trans; apply Prim2SF_valid.
Qed.

Lemma ltb_irrefl_nan x y : PrimFloat.is_nan y = true -> (x <? y)%float = false.
Proof.
  rewrite is_nan_spec, ltb_spec. intros ->. destruct (Prim2SF x); reflexivity.
Qed.

(** Signs. *)

Lemma not_neg_spec x : not_neg x <-> SFnot_neg (Prim2SF x) = true.
Proof.
  unfold not_neg. rewrite ltb_spec.
  change (Prim2SF 0) with (S754_zero false). rewrite SFltb_zero_r.
  destruct (SFnot_neg (Prim2SF x)); simpl; split; congruence.
Qed.

Lemma not_pos_spec x : not_pos x <-> SFnot_pos (Prim2SF x) = true.
Proof.
  unfold not_pos. rewrite ltb_spec.
  change (Prim2SF 0) with (S754_zero false). rewrite SFltb_zero_l.
  destruct (SFnot_pos (Prim2SF x)); simpl; split; congruence.
Qed.

Lemma mul_not_neg x y : not_neg x -> not_neg y -> not_neg (x * y).
Proof. rewrite !not_neg_spec, mul_spec. apply SFmul_not_neg. Qed.

Lemma sub_not_pos x y : not_pos x -> not_neg y -> not_pos (x - y).
Proof. rewrite !not_pos_spec, not_neg_spec, sub_spec. apply SFsub_not_pos. Qed.

Lemma div_1e9_not_neg x : not_neg x -> not_neg (x / 1e9).
Proof.
  rewrite !not_neg_spec, div_spec.
  assert (E : Prim2SF 1e9 = S754_finite false 8388608000000000 (-23)) by reflexivity.
  rewrite E. apply SFdiv_not_neg.
Qed.

Lemma not_pos_0 : not_pos 0.
Proof. reflexivity. Qed.

(** Conversions from integers. *)

Lemma Prim2SF_ofZ z : Prim2SF (JS.ofZ z) = binary_normalize prec emax z 0 false.
Proof. unfold JS.ofZ. apply Prim2SF_SF2Prim. apply bn_valid. Qed.

Lemma ofZ_not_neg z : 0 <= z -> not_neg (JS.ofZ z).
Proof. intros H. rewrite not_neg_spec, Prim2SF_ofZ. apply bn_not_neg; exact H. Qed.

Lemma in_range_spec v d :
  Ethers.in_range v d = true <-> (d <= 80)%N /\ - 2 ^ 511 <= v < 2 ^ 511.
Proof.
  unfold Ethers.in_range, Ethers.max_decimals, Ethers.fixed_limit.
  rewrite !andb_true_iff, N.leb_le, Z.leb_le, Z.ltb_lt. tauto.
Qed.

Lemma Prim2SF_wholeUnits v d :
  Ethers.in_range v d = true ->
  exists mf ef,
    Prim2SF (Ethers.wholeUnits v d) = SFbuild (v <? 0) mf ef /\
    0 <= mf /\ ef <= emax - prec.
Proof.
  intros H. apply in_range_spec in H. destruct H as [Hd Hv].
  destruct (SFdiv_int v (Z.of_N d) Hv ltac:(lia)) as (mf & ef & E & H0 & Hc & Hb).
  exists mf, ef. unfold Ethers.wholeUnits. rewrite E.
  rewrite Prim2SF_SF2Prim by (apply SFbuild_valid; assumption).
  repeat split; assumption.
Qed.

Lemma wholeUnits_fin v d :
  Ethers.in_range v d = true -> is_fin (Prim2SF (Ethers.wholeUnits v d)) = true.
Proof.
  intros H. destruct (Prim2SF_wholeUnits v d H) as (mf & ef & -> & H0 & Hb).
  unfold SFbuild. destruct mf; try lia; try reflexivity.
  apply Z.leb_le in Hb. rewrite Hb. reflexivity.
Qed.

Lemma wholeUnits_not_nan v d :
  Ethers.in_range v d = true -> PrimFloat.is_nan (Ethers.wholeUnits v d) = false.
Proof.
  intros H. apply is_nan_false. pose proof (wholeUnits_fin v d H) as F.
  destruct (Prim2SF (Ethers.wholeUnits v d)); discriminate.
Qed.

Lemma wholeUnits_nonneg v d :
  Ethers.in_range v d = true -> 0 <= v -> (0 <=? Ethers.wholeUnits v d)%float = true.
Proof.
  intros H Hv. rewrite leb_spec. change (Prim2SF 0) with (S754_zero false).
  destruct (Prim2SF_wholeUnits v d H) as (mf & ef & -> & H0 & Hb).
  replace (v <? 0) with false by (symmetry; apply Z.ltb_ge; exact Hv).
  apply zero_le_build; exact H0.
Qed.

Lemma leb_0_not_neg x : (0 <=? x)%float = true -> not_neg x.
Proof.
  rewrite leb_spec, not_neg_spec. change (Prim2SF 0) with (S754_zero false).
  destruct (Prim2SF x) as [s|[|]| |[|] m e]; try discriminate; reflexivity.
Qed.

Lemma leb_refl x : PrimFloat.is_nan x = false -> (x <=? x)%float = true.
Proof. rewrite is_nan_false, leb_spec. apply SFleb_refl. Qed.

(** A finite number times a finite number is a number. *)
Lemma SFmul_fin_not_nan x y :
  is_fin x = true -> is_fin y = true -> SFmul prec emax x y <> S754_nan.
Proof.
  destruct x as [sx|sx| |sx mx ex]; destruct y as [sy|sy| |sy my ey];
    try discriminate; intros _ _; try discriminate.
  simpl SFmul.
  destruct (bra_sign (xorb sx sy) (Zpos (mx * my)) (ex + ey) loc_Exact ltac:(lia))
    as (mf & ef & -> & H).
  apply SFbuild_not_nan; exact H.
Qed.

Lemma is_finite_spec x : PrimFloat.is_finite x = true -> is_fin (Prim2SF x) = true.
Proof.
  unfold PrimFloat.is_finite, PrimFloat.is_infinity.
  rewrite negb_true_iff, orb_false_iff, is_nan_false, eqb_spec, abs_spec.
  intros [Hn Hi]. destruct (Prim2SF x) as [s|s| |s m e]; try reflexivity.
  - discriminate.
  - congruence.
Qed.

Lemma mul_zero_is_zero b p :
  is_fin (Prim2SF b) = true -> PrimFloat.is_zero p = true ->
  PrimFloat.is_zero (b * p) = true.
Proof.
  unfold PrimFloat.is_zero. rewrite !eqb_spec, mul_spec.
  change (Prim2SF 0) with (S754_zero false).
  destruct (Prim2SF b) as [sb|sb| |sb mb eb]; try discriminate; intros _;
    destruct (Prim2SF p) as [sp|[|]| |[|] mp ep]; try discriminate; reflexivity.
Qed.

(** * The loop of [calculateProfit] *)

Lemma parse_in_range v d :
  Ethers.in_range v d = true ->
  Ethers.parseFloat_formatUnits v d = JS.Ok (Ethers.wholeUnits v d).
Proof.
  unfold Ethers.in_range, Ethers.parseFloat_formatUnits. intros H.
  apply andb_true_iff in H. destruct H as [H Hhi].
  apply andb_true_iff in H. destruct H as [Hd Hlo].
  rewrite Hd, Hlo, Hhi. reflexivity.
Qed.

Lemma parse_out_of_range v d :
  Ethers.in_range v d = false ->
  exists e, Ethers.parseFloat_formatUnits v d = JS.Throw e.
Proof.
  unfold Ethers.in_range, Ethers.parseFloat_formatUnits. intros H.
  destruct (d <=? Ethers.max_decimals)%N; simpl in *.
  - rewrite H. simpl. eexists; reflexivity.
  - eexists; reflexivity.
Qed.

Lemma loop_body_ok cost st t :
  token_ok t = true ->
  loop_body cost st t =
  JS.Ok (if is_claimable cost t
         then {| optimalTokens := optimalTokens st ++ [mkClaimable cost t];
                 dustList := dustList st;
                 optimizedJarValueUSD := (optimizedJarValueUSD st + valueUSD_of t)%float |}
         else {| optimalTokens := optimalTokens st;
                 dustList := dustList st ++ [mkDust cost t];
                 optimizedJarValueUSD := optimizedJarValueUSD st |}).
Proof.
  intros H. unfold loop_body, token_ok in *. rewrite (parse_in_range _ _ H).
  simpl JS.bind. unfold is_claimable, valueUSD_of, balanceEth_of.
  destruct (cost <? _)%float; reflexivity.
Qed.

Lemma for_of_spec cost ts : forall st,
  Forall (fun t => token_ok t = true) ts ->
  for_of cost st ts =
  JS.Ok {| optimalTokens :=
             optimalTokens st ++ map (mkClaimable cost) (filter (is_claimable cost) ts);
           dustList := dustList st ++ map (mkDust cost) (filter (is_dust cost) ts);
           optimizedJarValueUSD :=
             sum_values (optimizedJarValueUSD st) (filter (is_claimable cost) ts) |}.
Proof.
  induction ts as [|t ts IH]; intros st Hok.
  - simpl. rewrite !app_nil_r. destruct st; reflexivity.
  - inversion Hok as [|? ? Ht Hts]; subst.
    cbn [for_of]. rewrite (loop_body_ok cost st t Ht). cbn [JS.bind].
    rewrite IH by exact Hts. unfold is_dust. cbn [filter].
    destruct (is_claimable cost t); cbn [negb map optimalTokens dustList optimizedJarValueUSD];
      rewrite <- ?app_assoc; reflexivity.
Qed.

Lemma for_of_throws cost ts : forall st,
  Exists (fun t => token_ok t = false) ts -> exists e, for_of cost st ts = JS.Throw e.
Proof.
  induction ts as [|t ts IH]; intros st Hex.
  - inversion Hex.
  - cbn [for_of]. destruct (token_ok t) eqn:Ht.
    + rewrite (loop_body_ok cost st t Ht). cbn [JS.bind]. apply IH.
      inversion Hex; subst; [congruence|assumption].
    + unfold loop_body. unfold token_ok in Ht.
      destruct (parse_out_of_range _ _ Ht) as [e ->]. exists e. reflexivity.
Qed.

Lemma len_map {A B} (f : A -> B) l : len (map f l) = len l.
Proof. unfold len. rewrite length_map. reflexivity. Qed.

(** [calculateProfit] settles to [profit_of] on inputs ethers accepts. *)
Lemma calculateProfit_eq uniAmount_wei uniPrice jarTokens threshold gasPrice :
  inputs_ok uniAmount_wei jarTokens threshold ->
  calculateProfit uniAmount_wei uniPrice jarTokens threshold gasPrice =
  JS.Fulfilled (profit_of uniAmount_wei uniPrice jarTokens threshold gasPrice).
Proof.
  intros (Hu & Ht & Hts). unfold calculateProfit, calculateProfit_body.
  unfold Ethers.parseFloat_formatEther.
  rewrite (parse_in_range _ _ Hu), (parse_in_range _ _ Ht). cbn [JS.bind].
  rewrite (for_of_spec _ _ loop_init Hts). cbn [JS.bind JS.async].
  reflexivity.
Qed.

Lemma calculateProfit_rejects uniAmount_wei uniPrice jarTokens threshold gasPrice :
  Ethers.in_range uniAmount_wei 18 = false \/
  Ethers.in_range threshold 18 = false \/
  Exists (fun t => token_ok t = false) jarTokens ->
  exists e,
    calculateProfit uniAmount_wei uniPrice jarTokens threshold gasPrice = JS.Rejected e.
Proof.
  unfold calculateProfit, calculateProfit_body, Ethers.parseFloat_formatEther.
  intros H.
  destruct (Ethers.in_range uniAmount_wei 18) eqn:Hu.
  - rewrite (parse_in_range _ _ Hu). cbn [JS.bind].
    destruct (Ethers.in_range threshold 18) eqn:Ht.
    + rewrite (parse_in_range _ _ Ht). cbn [JS.bind].
      destruct H as [H|[H|H]]; try discriminate.
      destruct (for_of_throws (transferCostUSD jarTokens gasPrice) jarTokens loop_init H)
        as [e ->].
      exists e. reflexivity.
    + destruct (parse_out_of_range _ _ Ht) as [e ->]. exists e. reflexivity.
  - destruct (parse_out_of_range _ _ Hu) as [e ->]. exists e. reflexivity.
Qed.

(** Order-preserving split of a list by a test. *)
Lemma filter_split_perm {A} (p : A -> bool) (l : list A) :
  Permutation (filter p l ++ filter (fun a => negb (p a)) l) l.
Proof.
  induction l as [|a l IH]; cbn [filter]; [constructor|].
  destruct (p a); cbn [negb app].
  - constructor. exact IH.
  - apply Permutation_sym, Permutation_cons_app, Permutation_sym, IH.
Qed.

Lemma filter_split_length {A} (p : A -> bool) (l : list A) :
  (List.length (filter p l) + List.length (filter (fun a => negb (p a)) l) =
   List.length l)%nat.
Proof.
  induction l as [|a l IH]; cbn [filter]; [reflexivity|].
  destruct (p a); cbn [negb List.length]; lia.
Qed.

Lemma filter_nth_position {A} (p : A -> bool) (l : list A) i a :
  nth_error l i = Some a -> p a = true ->
  nth_error (filter p l) (List.length (filter p (firstn i l))) = Some a.
Proof.
  intros Hn Hp.
  assert (Hsplit : l = firstn i l ++ a :: skipn (S i) l).
  { clear Hp. revert i Hn. induction l as [|b l IH]; intros [|i] Hn; simpl in *;
      try discriminate.
    - inversion Hn; reflexivity.
    - f_equal. apply IH. exact Hn. }
  rewrite Hsplit at 1. rewrite filter_app. cbn [filter]. rewrite Hp.
  rewrite nth_error_app2 by lia. rewrite Nat.sub_diag. reflexivity.
Qed.

Lemma map_token_mkClaimable cost ts : map token (map (mkClaimable cost) ts) = ts.
Proof. rewrite map_map. simpl. apply map_id. Qed.

Lemma map_token_mkDust cost ts : map dust_token (map (mkDust cost) ts) = ts.
Proof. rewrite map_map. simpl. apply map_id. Qed.

(** * Properties of [calculateProfit] *)

Lemma scenario_ok : inputs_ok Scenario.threshold Scenario.tokens Scenario.threshold.
Proof. repeat split; try reflexivity. repeat constructor. Qed.




(** C2. The claimable and the dust sequence partition the input: their
    lengths add up to the input's, each input token goes to exactly one of
    them, in input order, and nothing is dropped or duplicated. *)
Theorem partition_exact :
  forall uniAmount_wei uniPrice jarTokens threshold gasPrice,
    inputs_ok uniAmount_wei jarTokens threshold ->
    exists r,
      calculateProfit uniAmount_wei uniPrice jarTokens threshold gasPrice
        = JS.Fulfilled r /\
      let cost := transferCostUSD jarTokens gasPrice in
      len (tokenBreakdown r) + len (dustTokens r) = len jarTokens /\
      allTokensCount r = len jarTokens /\
      filteredCount r = len (dustTokens r) /\
      map token (tokenBreakdown r) = filter (is_claimable cost) jarTokens /\
      map dust_token (dustTokens r) = filter (is_dust cost) jarTokens /\
      Permutation (map token (tokenBreakdown r) ++ map dust_token (dustTokens r))
                  jarTokens /\
      (forall t, In t (map token (tokenBreakdown r)) ->
                 In t (map dust_token (dustTokens r)) -> False) /\
      (forall i t, nth_error jarTokens i = Some t ->
         if is_claimable cost t
         then nth_error (map token (tokenBreakdown r))
                (List.length (filter (is_claimable cost) (firstn i jarTokens))) = Some t
         else nth_error (map dust_token (dustTokens r))
                (List.length (filter (is_dust cost) (firstn i jarTokens))) = Some t).
Proof.
  intros a p ts th g Hok. eexists. split; [apply calculateProfit_eq; exact Hok|].
  cbv zeta. unfold profit_of.
  cbn [tokenBreakdown dustTokens allTokensCount filteredCount].
  rewrite map_token_mkClaimable, map_token_mkDust, !len_map.
  set (cost := transferCostUSD ts g).
  repeat split.
  - unfold len, is_dust. pose proof (filter_split_length (is_claimable cost) ts). lia.
  - apply filter_split_perm.
  - intros t H1 H2. apply filter_In in H1, H2. unfold is_dust in H2.
    destruct H1 as [_ H1], H2 as [_ H2]. rewrite H1 in H2. discriminate.
  - intros i t Hn. destruct (is_claimable cost t) eqn:E.
    + apply filter_nth_position; assumption.
    + apply filter_nth_position; [assumption|]. unfold is_dust. rewrite E. reflexivity.
Qed.

Lemma partition_exact_witness :
  inputs_ok Scenario.threshold Scenario.tokens Scenario.threshold /\
  exists r,
    calculateProfit Scenario.threshold Scenario.uniPrice Scenario.tokens
      Scenario.threshold Scenario.gasPrice = JS.Fulfilled r /\
    let cost := transferCostUSD Scenario.tokens Scenario.gasPrice in
    len (tokenBreakdown r) + len (dustTokens r) = len Scenario.tokens /\
    allTokensCount r = len Scenario.tokens /\
    filteredCount r = len (dustTokens r) /\
    map token (tokenBreakdown r) = filter (is_claimable cost) Scenario.tokens /\
    map dust_token (dustTokens r) = filter (is_dust cost) Scenario.tokens /\
    Permutation (map token (tokenBreakdown r) ++ map dust_token (dustTokens r))
                Scenario.tokens /\
    (forall t, In t (map token (tokenBreakdown r)) ->
               In t (map dust_token (dustTokens r)) -> False) /\
    (forall i t, nth_error Scenario.tokens i = Some t ->
       if is_claimable cost t
       then nth_error (map token (tokenBreakdown r))
              (List.length (filter (is_claimable cost) (firstn i Scenario.tokens))) = Some t
       else nth_error (map dust_token (dustTokens r))
              (List.length (filter (is_dust cost) (firstn i Scenario.tokens))) = Some t).
Proof.
  split; [exact scenario_ok|].
  apply (partition_exact Scenario.threshold Scenario.uniPrice Scenario.tokens
           Scenario.threshold Scenario.gasPrice).
  repeat split; try reflexivity. repeat constructor.
Defined.



(** The example of the specification, run: two claimable tokens, one dust
    token, 220000 gas units. *)
Example scenario_run :
  exists r,
    calculateProfit Scenario.threshold Scenario.uniPrice Scenario.tokens
      Scenario.threshold Scenario.gasPrice = JS.Fulfilled r /\
    map token (tokenBreakdown r) = [Scenario.USDC; Scenario.WETH] /\
    map dust_token (dustTokens r) = [Scenario.DUST] /\
    estimatedGas r = 220000 /\
    totalJarValueUSD r = 6500%float /\
    isProfitable r = false /\ meetsThreshold r = true.
Proof. eexists. split; [vm_compute; reflexivity|]. repeat split. Qed.

(** * The ETH price and the default number of decimals *)

Lemma find_none_iff {A} (p : A -> bool) l :
  find p l = None <-> forall a, In a l -> p a = false.
Proof.
  split; [apply find_none|]. induction l as [|a l IH]; intros H; [reflexivity|].
  simpl. rewrite (H a (or_introl eq_refl)). apply IH. intros b Hb. apply H. right; exact Hb.
Qed.

Lemma find_first {A} (p : A -> bool) pre a post :
  (forall b, In b pre -> p b = false) -> p a = true ->
  find p (pre ++ a :: post) = Some a.
Proof.
  induction pre as [|b pre IH]; intros Hpre Ha; simpl.
  - rewrite Ha. reflexivity.
  - rewrite (Hpre b (or_introl eq_refl)). apply IH; [|exact Ha].
    intros c Hc. apply Hpre. right; exact Hc.
Qed.

Lemma is_WETH_spec t : is_WETH t = true <-> symbol t = "WETH"%string.
Proof. unfold is_WETH. apply String.eqb_eq. Qed.

Lemma is_WETH_false t : is_WETH t = false <-> symbol t <> "WETH"%string.
Proof. unfold is_WETH. apply String.eqb_neq. Qed.

Lemma truthy_spec p :
  JS.truthy p = true <-> (p =? 0)%float = false /\ PrimFloat.is_nan p = false.
Proof.
  unfold JS.truthy, PrimFloat.is_zero. rewrite negb_true_iff, orb_false_iff. reflexivity.
Qed.

(** C9. The ETH price of the gas computations is not an input of its own:
    it is the [price] of the first token whose symbol is WETH, and 2000 when
    there is no such token or its price is missing, zero or NaN; the cost of
    one transfer and the total gas cost are computed from it. *)
Theorem eth_price_source :
  forall uniAmount_wei uniPrice jarTokens threshold gasPrice,
    inputs_ok uniAmount_wei jarTokens threshold ->
    ((forall t, In t jarTokens -> symbol t <> "WETH"%string) ->
       ethPrice jarTokens = 2000%float) /\
    (forall pre w post,
       jarTokens = pre ++ w :: post ->
       (forall t, In t pre -> symbol t <> "WETH"%string) ->
       symbol w = "WETH"%string ->
       (forall p, price w = Some p -> JS.truthy p = true -> ethPrice jarTokens = p) /\
       (forall p, price w = Some p -> JS.truthy p = false ->
                  ethPrice jarTokens = 2000%float) /\
       (price w = None -> ethPrice jarTokens = 2000%float)) /\
    exists r,
      calculateProfit uniAmount_wei uniPrice jarTokens threshold gasPrice
        = JS.Fulfilled r /\
      let cost :=
        ((JS.ofZ TRANSFER_GAS_COST * (gasPrice / 1e9)) * ethPrice jarTokens)%float in
      (forall c, In c (tokenBreakdown r) -> netValueUSD c = (valueUSD c - cost)%float) /\
      (forall d, In d (dustTokens r) -> costToClaimUSD d = cost) /\
      savedGasUSD r = (JS.ofZ (filteredCount r) * cost)%float /\
      gasCostUSD r =
        (((JS.ofZ (estimatedGas r) * gasPrice) / 1e9) * ethPrice jarTokens)%float.
Proof.
  intros a up ts th g Hok. split; [|split].
  - intros Hno. unfold ethPrice.
    replace (find is_WETH ts) with (@None Token); [reflexivity|].
    symmetry. apply find_none_iff. intros t Ht. apply is_WETH_false, Hno, Ht.
  - intros pre w post -> Hpre Hw. unfold ethPrice.
    rewrite (find_first is_WETH pre w post).
    + repeat split.
      * intros p -> Hp. simpl. rewrite Hp. reflexivity.
      * intros p -> Hp. simpl. rewrite Hp. reflexivity.
      * intros ->. reflexivity.
    + intros b Hb. apply is_WETH_false, Hpre, Hb.
    + apply is_WETH_spec, Hw.
  - eexists. split; [apply calculateProfit_eq; exact Hok|].
    cbv zeta. unfold profit_of.
    cbn [tokenBreakdown dustTokens savedGasUSD filteredCount gasCostUSD estimatedGas].
    fold (gasPriceEth g). fold (transferCostUSD ts g). repeat split.
    + intros c Hc. apply in_map_iff in Hc. destruct Hc as (t & <- & _). reflexivity.
    + intros d Hd. apply in_map_iff in Hd. destruct Hd as (t & <- & _). reflexivity.
Qed.

Lemma eth_price_source_witness :
  inputs_ok Scenario.threshold Scenario.tokens Scenario.threshold /\
  ethPrice Scenario.tokens = 3000%float /\
  exists r,
    calculateProfit Scenario.threshold Scenario.uniPrice Scenario.tokens
      Scenario.threshold Scenario.gasPrice = JS.Fulfilled r /\
    gasCostUSD r =
      (((JS.ofZ (estimatedGas r) * Scenario.gasPrice) / 1e9) * 3000)%float.
Proof.
  split; [exact scenario_ok|].
  destruct (eth_price_source Scenario.threshold Scenario.uniPrice Scenario.tokens
              Scenario.threshold Scenario.gasPrice)
    as (_ & Hw & r & Hr & _ & _ & _ & Hg).
  { repeat split; try reflexivity. repeat constructor. }
  destruct (Hw [Scenario.USDC; Scenario.DUST] Scenario.WETH [] eq_refl) as (Hp & _).
  { intros t [<-|[<-|[]]]; discriminate. }
  { reflexivity. }
  pose proof (Hp 3000%float eq_refl eq_refl) as E.
  split; [exact E|]. exists r. split; [exact Hr|]. rewrite <- E. exact Hg.
Defined.

(** Without a WETH token the price is the constant 2000. *)
Example eth_price_fallback :
  ethPrice [Scenario.USDC; Scenario.DUST] = 2000%float.
Proof. reflexivity. Qed.

(** C10. A token whose [decimals] is missing or 0 has its whole-unit balance
    computed with 18 decimals; a token that really has 0 decimals is thereby
    scaled down by 10^18. *)
Theorem falsy_decimals_default_to_18 :
  forall uniAmount_wei uniPrice jarTokens threshold gasPrice t,
    inputs_ok uniAmount_wei jarTokens threshold ->
    In t jarTokens ->
    decimals t = None \/ decimals t = Some 0%N ->
    decimals_or_18 t = 18%N /\
    balanceEth_of t =
      SF2Prim (SFdiv prec emax (JS.Z2SF (balance t)) (JS.Z2SF (10 ^ 18))) /\
    exists r,
      calculateProfit uniAmount_wei uniPrice jarTokens threshold gasPrice
        = JS.Fulfilled r /\
      (forall c, In c (tokenBreakdown r) -> token c = t ->
         balanceEth c = Ethers.wholeUnits (balance t) 18) /\
      (forall d, In d (dustTokens r) -> dust_token d = t ->
         dust_balanceEth d = Ethers.wholeUnits (balance t) 18) /\
      (In t (map token (tokenBreakdown r)) \/ In t (map dust_token (dustTokens r))).
Proof.
  intros a up ts th g t Hok Hin Hd.
  assert (E : decimals_or_18 t = 18%N).
  { unfold decimals_or_18. destruct Hd as [->| ->]; reflexivity. }
  split; [exact E|]. split.
  { unfold balanceEth_of. rewrite E. reflexivity. }
  eexists. split; [apply calculateProfit_eq; exact Hok|].
  unfold profit_of. cbn [tokenBreakdown dustTokens].
  rewrite map_token_mkClaimable, map_token_mkDust. repeat split.
  - intros c Hc Ht. apply in_map_iff in Hc. destruct Hc as (t' & <- & _).
    simpl in Ht. subst t'. simpl. unfold balanceEth_of. rewrite E. reflexivity.
  - intros d Hdd Ht. apply in_map_iff in Hdd. destruct Hdd as (t' & <- & _).
    simpl in Ht. subst t'. simpl. unfold balanceEth_of. rewrite E. reflexivity.
  - rewrite !filter_In. unfold is_dust.
    destruct (is_claimable (transferCostUSD ts g) t); [left|right]; split; auto.
Qed.

(** *** C3: what [calculateOptimalBurn] returns *)

Lemma calculateOptimalBurn_ok jarTokens uniPrice threshold gasPrice :
  Ethers.in_range threshold 18 = true ->
  calculateOptimalBurn jarTokens uniPrice threshold gasPrice =
  JS.Ok {| optimalBurnAmount := Ethers.wholeUnits threshold 18;
           optimalBurnWei := threshold;
           spread_profit := None |}.
Proof.
  intros H. unfold calculateOptimalBurn, Ethers.parseFloat_formatEther.
  rewrite (parse_in_range _ _ H). reflexivity.
Qed.

(** The threshold amount does meet the threshold in the settled promise. *)
Lemma promise_meets_threshold jarTokens uniPrice threshold gasPrice :
  inputs_ok threshold jarTokens threshold ->
  exists r,
    calculateProfit threshold uniPrice jarTokens threshold gasPrice = JS.Fulfilled r /\
    uniAmount r = Ethers.wholeUnits threshold 18 /\
    meetsThreshold r = true.
Proof.
  intros Hok. eexists. split; [apply calculateProfit_eq; exact Hok|].
  unfold profit_of. cbn [uniAmount meetsThreshold]. split; [reflexivity|].
  apply leb_refl. apply wholeUnits_not_nan. apply Hok.
Qed.

(** C3, at the example input: the returned object carries the threshold as
    [optimalBurnAmount], but [calculateProfit] is an [async] function that is
    not awaited, so the spread copies nothing: [meetsThreshold] and
    [uniAmount] are [undefined] in the result, although the promise settles
    with [meetsThreshold = true]. *)
Theorem optimal_burn_lacks_meetsThreshold :
  exists o r,
    calculateOptimalBurn Scenario.tokens Scenario.uniPrice Scenario.threshold
      Scenario.gasPrice = JS.Ok o /\
    optimalBurnAmount o = 4000%float /\
    get meetsThreshold o = None /\
    get uniAmount o = None /\
    calculateProfit Scenario.threshold Scenario.uniPrice Scenario.tokens
      Scenario.threshold Scenario.gasPrice = JS.Fulfilled r /\
    uniAmount r = 4000%float /\
    meetsThreshold r = true.
Proof.
  eexists. eexists. split; [reflexivity|]. split; [reflexivity|].
  split; [reflexivity|]. split; [reflexivity|].
  split; [vm_compute; reflexivity|]. split; reflexivity.
Qed.

(** * Degenerate inputs *)

Lemma ethPrice_not_neg ts :
  Forall price_not_negative ts -> not_neg (ethPrice ts).
Proof.
  intros H. unfold ethPrice. destruct (find is_WETH ts) as [w|] eqn:E; [|reflexivity].
  apply find_some in E. destruct E as [Hin _].
  rewrite Forall_forall in H. specialize (H w Hin). unfold price_not_negative in H.
  unfold JS.or_else. destruct (price w) as [p|]; [|reflexivity].
  destruct (JS.truthy p); [exact H|reflexivity].
Qed.

Lemma gas_cost_not_neg z g eth :
  0 <= z -> not_neg g -> not_neg eth ->
  not_neg (((JS.ofZ z * g) / 1e9) * eth)%float.
Proof.
  intros Hz Hg He. apply mul_not_neg; [|exact He].
  apply div_1e9_not_neg. apply mul_not_neg; [|exact Hg]. apply ofZ_not_neg; exact Hz.
Qed.

Lemma transferCost_not_neg ts g :
  not_neg g -> Forall price_not_negative ts -> not_neg (transferCostUSD ts g).
Proof.
  intros Hg Hp. unfold transferCostUSD, gasPriceEth.
  apply mul_not_neg; [|apply ethPrice_not_neg; exact Hp].
  apply mul_not_neg; [apply ofZ_not_neg; unfold TRANSFER_GAS_COST; lia|].
  apply div_1e9_not_neg; exact Hg.
Qed.

Lemma zero_sub_eqb_opp x :
  PrimFloat.is_nan x = false -> (0 - x =? - x)%float = true.
Proof.
  rewrite is_nan_false, eqb_spec, sub_spec, opp_spec.
  change (Prim2SF 0) with (S754_zero false).
  destruct (Prim2SF x) as [s|s| |s m e]; try congruence; intros _.
  - destruct s; reflexivity.
  - destruct s; reflexivity.
  - simpl. apply SFeqb_refl. discriminate.
Qed.


Lemma is_zero_not_claimable cost v :
  not_neg cost -> PrimFloat.is_zero v = true -> (cost <? v)%float = false.
Proof.
  unfold not_neg, PrimFloat.is_zero. rewrite !ltb_spec, eqb_spec.
  change (Prim2SF 0) with (S754_zero false). rewrite SFltb_zero_r.
  intros Hc Hv. apply negb_false_iff in Hc.
  destruct (Prim2SF v) as [s|[|]| |[|] m e]; try discriminate.
  rewrite SFltb_zero_r, Hc. reflexivity.
Qed.

(** C6. When no token is claimable the calculator settles normally with a
    zero claimable value, gross profit minus the resource cost, net profit
    minus the resource cost minus the base gas cost, and [isProfitable]
    false. *)
Theorem empty_claimable_result :
  forall uniAmount_wei uniPrice jarTokens threshold gasPrice,
    inputs_ok uniAmount_wei jarTokens threshold ->
    0 <= uniAmount_wei -> not_neg uniPrice -> not_neg gasPrice ->
    Forall price_not_negative jarTokens ->
    exists r,
      calculateProfit uniAmount_wei uniPrice jarTokens threshold gasPrice
        = JS.Fulfilled r /\
      (tokenBreakdown r = [] ->
         totalJarValueUSD r = 0%float /\
         estimatedGas r = BASE_GAS_COST /\
         gasCostUSD r = baseGasCostUSD jarTokens gasPrice /\
         grossProfit r = (0 - uniCostUSD r)%float /\
         (PrimFloat.is_nan (uniCostUSD r) = false ->
            (grossProfit r =? - uniCostUSD r)%float = true) /\
         netProfit r =
           ((0 - uniCostUSD r) - baseGasCostUSD jarTokens gasPrice)%float /\
         isProfitable r = false).
Proof.
  intros a up ts th g Hok Ha Hup Hg Hp.
  eexists. split; [apply calculateProfit_eq; exact Hok|].
  unfold profit_of.
  cbn [tokenBreakdown totalJarValueUSD estimatedGas gasCostUSD grossProfit
       uniCostUSD netProfit isProfitable].
  intros Hnil. apply map_eq_nil in Hnil. rewrite Hnil.
  cbn [map len List.length sum_values fold_left Z.of_nat].
  replace (BASE_GAS_COST + 0 * TRANSFER_GAS_COST) with BASE_GAS_COST by reflexivity.
  fold (baseGasCostUSD ts g).
  repeat split.
  - apply zero_sub_eqb_opp.
  - apply sub_not_pos.
    + apply sub_not_pos; [apply not_pos_0|].
      apply mul_not_neg; [|exact Hup].
      apply leb_0_not_neg, wholeUnits_nonneg; [apply Hok|exact Ha].
    + apply gas_cost_not_neg; [unfold BASE_GAS_COST; lia|exact Hg|].
      apply ethPrice_not_neg; exact Hp.
Qed.

Lemma empty_claimable_result_witness :
  inputs_ok Scenario.threshold [Scenario.DUST] Scenario.threshold /\
  0 <= Scenario.threshold /\ not_neg Scenario.uniPrice /\ not_neg Scenario.gasPrice /\
  Forall price_not_negative [Scenario.DUST] /\
  exists r,
    calculateProfit Scenario.threshold Scenario.uniPrice [Scenario.DUST]
      Scenario.threshold Scenario.gasPrice = JS.Fulfilled r /\
    tokenBreakdown r = [] /\
    totalJarValueUSD r = 0%float /\
    estimatedGas r = BASE_GAS_COST /\
    gasCostUSD r = baseGasCostUSD [Scenario.DUST] Scenario.gasPrice /\
    (grossProfit r =? - uniCostUSD r)%float = true /\
    netProfit r =
      ((0 - uniCostUSD r) - baseGasCostUSD [Scenario.DUST] Scenario.gasPrice)%float /\
    isProfitable r = false.
Proof.
  assert (H1 : inputs_ok Scenario.threshold [Scenario.DUST] Scenario.threshold).
  { repeat split; try reflexivity. repeat constructor. }
  assert (H2 : 0 <= Scenario.threshold) by (vm_compute; discriminate).
  assert (H3 : not_neg Scenario.uniPrice) by reflexivity.
  assert (H4 : not_neg Scenario.gasPrice) by reflexivity.
  assert (H5 : Forall price_not_negative [Scenario.DUST]).
  { repeat constructor. }
  repeat (split; [assumption|]).
  destruct (empty_claimable_result Scenario.threshold Scenario.uniPrice [Scenario.DUST]
              Scenario.threshold Scenario.gasPrice H1 H2 H3 H4 H5) as (r & Hr & H).
  pose proof Hr as Er. rewrite (calculateProfit_eq _ _ _ _ _ H1) in Er.
  injection Er as Er.
  assert (E : tokenBreakdown r = []) by (rewrite <- Er; vm_compute; reflexivity).
  destruct (H E) as (A1 & A2 & A3 & _ & A5 & A6 & A7).
  exists r. repeat (split; [assumption|]).
  split; [|split; assumption].
  apply A5. rewrite <- Er. vm_compute. reflexivity.
Defined.

(** With only the dust token of the example in the jar nothing is claimable:
    the result is the resource cost and the base gas, as a loss. *)
Example only_dust_run :
  exists r,
    calculateProfit Scenario.threshold Scenario.uniPrice [Scenario.DUST]
      Scenario.threshold Scenario.gasPrice = JS.Fulfilled r /\
    tokenBreakdown r = [] /\
    grossProfit r = (-20000)%float /\ netProfit r = (-20004)%float /\
    isProfitable r = false.
Proof. eexists. split; [vm_compute; reflexivity|]. repeat split. Qed.


(** * Raising the price of a claimable token *)

Lemma find_app_split {A} (p : A -> bool) l1 l2 :
  find p (l1 ++ l2) = match find p l1 with Some a => Some a | None => find p l2 end.
Proof.
  induction l1 as [|a l1 IH]; simpl; [reflexivity|]. destruct (p a); [reflexivity|exact IH].
Qed.

Lemma existsb_find {A} (p : A -> bool) l :
  existsb p l = true -> exists a, find p l = Some a.
Proof.
  induction l as [|a l IH]; simpl; [discriminate|].
  destruct (p a); [eexists; reflexivity|exact IH].
Qed.

Lemma ethPrice_with_price pre t post p :
  is_WETH t = false \/ existsb is_WETH pre = true ->
  ethPrice (pre ++ with_price t p :: post) = ethPrice (pre ++ t :: post).
Proof.
  intros H. unfold ethPrice. rewrite !find_app_split.
  destruct H as [H|H].
  - destruct (find is_WETH pre); [reflexivity|]. simpl.
    unfold is_WETH in *. simpl. rewrite H. reflexivity.
  - destruct (existsb_find _ _ H) as [w ->]. reflexivity.
Qed.

Lemma transferCost_with_price pre t post p g :
  is_WETH t = false \/ existsb is_WETH pre = true ->
  transferCostUSD (pre ++ with_price t p :: post) g = transferCostUSD (pre ++ t :: post) g.
Proof. intros H. unfold transferCostUSD. rewrite ethPrice_with_price by exact H. reflexivity. Qed.

Lemma inputs_ok_with_price a pre t post th p :
  inputs_ok a (pre ++ t :: post) th -> inputs_ok a (pre ++ with_price t p :: post) th.
Proof.
  intros (Ha & Ht & Hts). repeat split; try assumption.
  rewrite Forall_app in *. destruct Hts as [Hpre Hpost]. split; [exact Hpre|].
  inversion Hpost; subst. constructor; assumption.
Qed.

Lemma sum_values_mono l : forall a b,
  fle_nan a b = true -> fle_nan (sum_values a l) (sum_values b l) = true.
Proof.
  induction l as [|t l IH]; intros a b H; simpl; [exact H|].
  apply IH. apply fle_nan_add_l. exact H.
Qed.

Lemma sum_values_app init l1 l2 :
  sum_values init (l1 ++ l2) = sum_values (sum_values init l1) l2.
Proof. unfold sum_values. apply fold_left_app. Qed.

Lemma leb_fle_nan x y : (x <=? y)%float = true -> fle_nan x y = true.
Proof. intros H. unfold fle_nan. rewrite H. apply orb_true_r. Qed.

Lemma fle_nan_leb x y :
  fle_nan x y = true -> PrimFloat.is_nan x = false -> PrimFloat.is_nan y = false ->
  (x <=? y)%float = true.
Proof. unfold fle_nan. intros H Hx Hy. rewrite Hx, Hy in H. exact H. Qed.

Lemma ltb_not_nan_r x y : (x <? y)%float = true -> PrimFloat.is_nan y = false.
Proof.
  intros H. destruct (PrimFloat.is_nan y) eqn:E; [|reflexivity].
  rewrite (ltb_irrefl_nan x y E) in H. discriminate.
Qed.

Lemma mul_fin_not_nan x y :
  is_fin (Prim2SF x) = true -> PrimFloat.is_finite y = true ->
  PrimFloat.is_nan (x * y) = false.
Proof.
  intros Hx Hy. apply is_nan_false. rewrite mul_spec.
  apply SFmul_fin_not_nan; [exact Hx|apply is_finite_spec; exact Hy].
Qed.

(** The raised price keeps the token claimable and does not lower its value. *)
Lemma raised_price_value cost t p' :
  token_ok t = true -> 0 <= balance t ->
  is_claimable cost t = true ->
  (JS.toNumber (price t) <=? p')%float = true ->
  PrimFloat.is_finite p' = true ->
  is_claimable cost (with_price t p') = true /\
  fle_nan (valueUSD_of t) (valueUSD_of (with_price t p')) = true.
Proof.
  intros Hok Hb Hc Hle Hfin. unfold is_claimable in *.
  assert (Hv : fle_nan (valueUSD_of t) (valueUSD_of (with_price t p')) = true).
  { unfold valueUSD_of, balanceEth_of. simpl.
    apply fle_nan_mul; [|apply leb_fle_nan; exact Hle].
    apply wholeUnits_nonneg; assumption. }
  split; [|exact Hv].
  apply ltb_leb_trans with (valueUSD_of t); [exact Hc|].
  apply fle_nan_leb; [exact Hv|apply (ltb_not_nan_r _ _ Hc)|].
  unfold valueUSD_of, balanceEth_of. simpl.
  apply mul_fin_not_nan; [|exact Hfin]. apply wholeUnits_fin. exact Hok.
Qed.

(** C4, as the code has it. Raising the price of a claimable token to a
    finite value never lowers the net profit, provided the token is not the
    one the ETH price is read from (it is not a WETH token, or an earlier
    WETH token exists) and its balance is not negative. *)
Theorem profit_monotone_in_price :
  forall uniAmount_wei uniPrice pre t post threshold gasPrice p',
    inputs_ok uniAmount_wei (pre ++ t :: post) threshold ->
    0 <= balance t ->
    is_WETH t = false \/ existsb is_WETH pre = true ->
    is_claimable (transferCostUSD (pre ++ t :: post) gasPrice) t = true ->
    (JS.toNumber (price t) <=? p')%float = true ->
    PrimFloat.is_finite p' = true ->
    exists r r',
      calculateProfit uniAmount_wei uniPrice (pre ++ t :: post) threshold gasPrice
        = JS.Fulfilled r /\
      calculateProfit uniAmount_wei uniPrice (pre ++ with_price t p' :: post)
        threshold gasPrice = JS.Fulfilled r' /\
      In (with_price t p') (map token (tokenBreakdown r')) /\
      estimatedGas r' = estimatedGas r /\
      (netProfit r' <? netProfit r)%float = false.
Proof.
  intros a up pre t post th g p' Hok Hb Hsrc Hc Hle Hfin.
  pose proof (inputs_ok_with_price a pre t post th p' Hok) as Hok'.
  exists (profit_of a up (pre ++ t :: post) th g).
  exists (profit_of a up (pre ++ with_price t p' :: post) th g).
  split; [apply calculateProfit_eq; exact Hok|].
  split; [apply calculateProfit_eq; exact Hok'|].
  assert (Ht : token_ok t = true).
  { destruct Hok as (_ & _ & Hts). rewrite Forall_app in Hts. destruct Hts as [_ Hts].
    inversion Hts; assumption. }
  unfold profit_of.
  cbn [tokenBreakdown estimatedGas netProfit].
  rewrite (transferCost_with_price pre t post p' g Hsrc).
  rewrite (ethPrice_with_price pre t post p' Hsrc).
  set (cost := transferCostUSD (pre ++ t :: post) g) in *.
  destruct (raised_price_value cost t p' Ht Hb Hc Hle Hfin) as [Hc' Hv].
  rewrite !filter_app. cbn [filter]. rewrite Hc, Hc'.
  rewrite map_token_mkClaimable, !len_map.
  split; [apply in_or_app; right; left; reflexivity|].
  assert (Hlen : len (filter (is_claimable cost) pre ++
                      with_price t p' :: filter (is_claimable cost) post) =
                 len (filter (is_claimable cost) pre ++
                      t :: filter (is_claimable cost) post)).
  { unfold len. rewrite !length_app. reflexivity. }
  rewrite Hlen. split; [reflexivity|].
  apply fle_nan_not_lt. apply fle_nan_sub_l. apply fle_nan_sub_l.
  rewrite !sum_values_app. cbn [sum_values fold_left].
  apply sum_values_mono. apply fle_nan_add_r. exact Hv.
Qed.

(** * Concrete runs *)

(** A value equal to the transfer cost: the token is dust. *)
Example tie_is_dust :
  exists r,
    calculateProfit Scenario.threshold Scenario.uniPrice [Scenario.WETH; Scenario.TIE]
      Scenario.threshold Scenario.gasPrice = JS.Fulfilled r /\
    valueUSD_of Scenario.TIE = transferCostUSD [Scenario.WETH; Scenario.TIE] Scenario.gasPrice /\
    map token (tokenBreakdown r) = [Scenario.WETH] /\
    map dust_token (dustTokens r) = [Scenario.TIE].
Proof. eexists. split; [vm_compute; reflexivity|]. repeat split. Qed.

Lemma profit_monotone_in_price_witness :
  inputs_ok Scenario.threshold ([] ++ Scenario.USDC :: [Scenario.DUST; Scenario.WETH])
    Scenario.threshold /\
  0 <= balance Scenario.USDC /\
  (is_WETH Scenario.USDC = false \/ existsb is_WETH [] = true) /\
  is_claimable
    (transferCostUSD ([] ++ Scenario.USDC :: [Scenario.DUST; Scenario.WETH])
       Scenario.gasPrice) Scenario.USDC = true /\
  (JS.toNumber (price Scenario.USDC) <=? 2)%float = true /\
  PrimFloat.is_finite 2 = true /\
  exists r r',
    calculateProfit Scenario.threshold Scenario.uniPrice
      ([] ++ Scenario.USDC :: [Scenario.DUST; Scenario.WETH])
      Scenario.threshold Scenario.gasPrice = JS.Fulfilled r /\
    calculateProfit Scenario.threshold Scenario.uniPrice
      ([] ++ with_price Scenario.USDC 2 :: [Scenario.DUST; Scenario.WETH])
      Scenario.threshold Scenario.gasPrice = JS.Fulfilled r' /\
    In (with_price Scenario.USDC 2) (map token (tokenBreakdown r')) /\
    estimatedGas r' = estimatedGas r /\
    (netProfit r' <? netProfit r)%float = false.
Proof.
  assert (H1 : inputs_ok Scenario.threshold
                 ([] ++ Scenario.USDC :: [Scenario.DUST; Scenario.WETH])
                 Scenario.threshold) by exact scenario_ok.
  assert (H2 : 0 <= balance Scenario.USDC) by (simpl; lia).
  assert (H3 : is_WETH Scenario.USDC = false \/ existsb is_WETH [] = true)
    by (left; reflexivity).
  assert (H4 : is_claimable
                 (transferCostUSD ([] ++ Scenario.USDC :: [Scenario.DUST; Scenario.WETH])
                    Scenario.gasPrice) Scenario.USDC = true) by (vm_compute; reflexivity).
  assert (H5 : (JS.toNumber (price Scenario.USDC) <=? 2)%float = true) by reflexivity.
  assert (H6 : PrimFloat.is_finite 2 = true) by reflexivity.
  repeat (split; [assumption|]).
  exact (profit_monotone_in_price Scenario.threshold Scenario.uniPrice []
           Scenario.USDC [Scenario.DUST; Scenario.WETH] Scenario.threshold
           Scenario.gasPrice 2%float H1 H2 H3 H4 H5 H6).
Defined.

(** C4 as stated fails when the token is the one the ETH price is read
    from. A jar holding 0.001 WETH at 10 gwei: the token is claimable at
    2000 USD and at 4000 USD, and doubling its price lowers the net profit,
    because the gas bill is priced with the same number. *)
Lemma weth_price_raises_gas_bill :
  exists r r',
    calculateProfit Scenario.threshold Scenario.uniPrice [Scenario.THIN_WETH]
      Scenario.threshold 10 = JS.Fulfilled r /\
    calculateProfit Scenario.threshold Scenario.uniPrice
      [with_price Scenario.THIN_WETH 4000] Scenario.threshold 10 = JS.Fulfilled r' /\
    map token (tokenBreakdown r) = [Scenario.THIN_WETH] /\
    map token (tokenBreakdown r') = [with_price Scenario.THIN_WETH 4000] /\
    (JS.toNumber (price Scenario.THIN_WETH) <? 4000)%float = true /\
    netProfit r = (-20001.2)%float /\
    netProfit r' = (-20002.4)%float /\
    (netProfit r' <? netProfit r)%float = true.
Proof.
  eexists. eexists. split; [vm_compute; reflexivity|].
  split; [vm_compute; reflexivity|]. repeat split.
Qed.



Lemma falsy_decimals_default_to_18_witness :
  inputs_ok Scenario.threshold [Scenario.SHARE] Scenario.threshold /\
  In Scenario.SHARE [Scenario.SHARE] /\
  (decimals Scenario.SHARE = None \/ decimals Scenario.SHARE = Some 0%N) /\
  decimals_or_18 Scenario.SHARE = 18%N /\
  balanceEth_of Scenario.SHARE =
    SF2Prim (SFdiv prec emax (JS.Z2SF (balance Scenario.SHARE)) (JS.Z2SF (10 ^ 18))) /\
  exists r,
    calculateProfit Scenario.threshold Scenario.uniPrice [Scenario.SHARE]
      Scenario.threshold Scenario.gasPrice = JS.Fulfilled r /\
    (forall c, In c (tokenBreakdown r) -> token c = Scenario.SHARE ->
       balanceEth c = Ethers.wholeUnits (balance Scenario.SHARE) 18) /\
    (forall d, In d (dustTokens r) -> dust_token d = Scenario.SHARE ->
       dust_balanceEth d = Ethers.wholeUnits (balance Scenario.SHARE) 18) /\
    (In Scenario.SHARE (map token (tokenBreakdown r)) \/
     In Scenario.SHARE (map dust_token (dustTokens r))).
Proof.
  assert (H1 : inputs_ok Scenario.threshold [Scenario.SHARE] Scenario.threshold).
  { repeat split; try reflexivity. repeat constructor. }
  assert (H2 : In Scenario.SHARE [Scenario.SHARE]) by (left; reflexivity).
  assert (H3 : decimals Scenario.SHARE = None \/ decimals Scenario.SHARE = Some 0%N)
    by (right; reflexivity).
  repeat (split; [assumption|]).
  exact (falsy_decimals_default_to_18 Scenario.threshold Scenario.uniPrice
           [Scenario.SHARE] Scenario.threshold Scenario.gasPrice Scenario.SHARE
           H1 H2 H3).
Defined.

(** 1000 units of a token without decimals, worth 10 USD each, are counted
    as 1e-15 of a unit and end up as dust. *)
Example share_scaled_down :
  exists r d,
    calculateProfit Scenario.threshold Scenario.uniPrice [Scenario.SHARE]
      Scenario.threshold Scenario.gasPrice = JS.Fulfilled r /\
    dustTokens r = [d] /\ dust_token d = Scenario.SHARE /\
    dust_balanceEth d = 1e-15%float /\ dust_valueUSD d = (1e-15 * 10)%float.
Proof. eexists. eexists. split; [vm_compute; reflexivity|]. repeat split. Qed.

(** * The formatter *)

Lemma uint_digits_are_digits u : forallb is_digit (uint_digits u) = true.
Proof. induction u; simpl; try reflexivity; exact IHu. Qed.

Lemma decimal_are_digits n : forallb is_digit (decimal n) = true.
Proof.
  unfold decimal. pose proof (uint_digits_are_digits (N.to_uint (Z.to_N n))) as H.
  destruct (uint_digits (N.to_uint (Z.to_N n))); [reflexivity|exact H].
Qed.

Lemma decimal_not_empty n : (0 < List.length (decimal n))%nat.
Proof.
  unfold decimal. destruct (uint_digits (N.to_uint (Z.to_N n))); simpl; lia.
Qed.

Lemma forallb_repeat {A} (p : A -> bool) a n :
  p a = true -> forallb p (repeat a n) = true.
Proof. intros H. induction n; simpl; [reflexivity|]. rewrite H. exact IHn. Qed.

Lemma forallb_firstn {A} (p : A -> bool) n l :
  forallb p l = true -> forallb p (firstn n l) = true.
Proof.
  revert l. induction n; intros [|a l]; simpl; try reflexivity.
  intros H. apply andb_true_iff in H. destruct H as [-> H]. apply IHn. exact H.
Qed.

Lemma forallb_skipn {A} (p : A -> bool) n l :
  forallb p l = true -> forallb p (skipn n l) = true.
Proof.
  revert l. induction n; intros [|a l]; simpl; try reflexivity; try (intros H; exact H).
  intros H. apply andb_true_iff in H. destruct H as [_ H]. apply IHn. exact H.
Qed.

(** With [f > 0] decimals: the integer digits, a point, [f] digits. *)
Lemma fixed_digits_shape n f :
  exists int frac,
    fixed_digits n (S f) = int ++ "."%char :: frac /\
    (0 < List.length int)%nat /\
    forallb is_digit int = true /\
    forallb is_digit frac = true /\
    List.length frac = S f.
Proof.
  unfold fixed_digits.
  set (m := repeat "0"%char (S f + 1 - List.length (decimal n)) ++ decimal n).
  assert (Hd : forallb is_digit m = true).
  { unfold m. rewrite forallb_app, decimal_are_digits, andb_true_r.
    apply forallb_repeat. reflexivity. }
  assert (Hl : (S f + 1 <= List.length m)%nat).
  { unfold m. rewrite length_app, repeat_length. lia. }
  exists (firstn (List.length m - S f) m), (skipn (List.length m - S f) m).
  split; [reflexivity|]. split; [rewrite length_firstn; lia|].
  split; [apply forallb_firstn; exact Hd|].
  split; [apply forallb_skipn; exact Hd|].
  rewrite length_skipn. lia.
Qed.

Lemma span_digits_point int frac :
  forallb is_digit int = true ->
  span_digits (int ++ "."%char :: frac) = (int, "."%char :: frac).
Proof.
  induction int as [|c int IH]; simpl; intros H; [reflexivity|].
  apply andb_true_iff in H. destruct H as [Hc H]. rewrite Hc, (IH H). reflexivity.
Qed.

Lemma digit_not_minus c r :
  is_digit c = true ->
  match c :: r with "-"%char :: r' => r' | _ => c :: r end = c :: r.
Proof.
  destruct c as [[] [] [] [] [] [] [] []]; try reflexivity; discriminate.
Qed.

Lemma fixed_point_fixed_digits (s : bool) n f :
  fixed_point (S f) ((if s then ["-"%char] else []) ++ fixed_digits n (S f)) = true.
Proof.
  destruct (fixed_digits_shape n f) as (int & frac & -> & Hlen & Hint & Hfrac & Hf).
  assert (E : match (if s then ["-"%char] else []) ++ int ++ "."%char :: frac with
              | "-"%char :: r => r
              | _ => (if s then ["-"%char] else []) ++ int ++ "."%char :: frac
              end = int ++ "."%char :: frac).
  { destruct s; [reflexivity|]. simpl app.
    destruct int as [|c int]; [simpl in Hlen; lia|].
    simpl in Hint. apply andb_true_iff in Hint. destruct Hint as [Hc _].
    apply (digit_not_minus c (int ++ "."%char :: frac) Hc). }
  unfold fixed_point. rewrite E, (span_digits_point int frac Hint).
  rewrite Hfrac, Hf, Nat.eqb_refl.
  destruct int; [simpl in Hlen; lia|reflexivity].
Qed.

Lemma ltb_not_leb x y : (x <? y)%float = true -> (y <=? x)%float = false.
Proof.
  rewrite ltb_spec, leb_spec. unfold SFltb, SFleb.
  rewrite (SFcompare_swap (Prim2SF x) (Prim2SF y)).
  destruct (SFcompare (Prim2SF x) (Prim2SF y)) as [[]|]; simpl;
    try discriminate; reflexivity.
Qed.

(** A finite amount below 1e21 is printed in fixed-point notation. *)
Lemma toFixed_fixed_point x f :
  displayable x = true ->
  fixed_point (S f) (list_ascii_of_string (toFixed x (S f))) = true.
Proof.
  unfold displayable. intros H. apply andb_true_iff in H. destruct H as [Hfin Hlt].
  apply is_finite_spec in Hfin. apply ltb_not_leb in Hlt.
  unfold toFixed. rewrite Hlt.
  destruct (Prim2SF x) as [s|s| |s m e]; try discriminate.
  - rewrite list_ascii_of_string_of_list_ascii.
    apply (fixed_point_fixed_digits false 0 f).
  - rewrite list_ascii_of_string_of_list_ascii. apply fixed_point_fixed_digits.
Qed.

Lemma list_ascii_of_string_app s1 s2 :
  list_ascii_of_string (s1 ++ s2) = list_ascii_of_string s1 ++ list_ascii_of_string s2.
Proof. induction s1; simpl; [reflexivity|]. rewrite IHs1. reflexivity. Qed.

Lemma usd_is_usd_string x : displayable x = true -> usd_string (usd x) = true.
Proof. intros H. unfold usd_string, usd. simpl. apply toFixed_fixed_point. exact H. Qed.

Lemma percent_is_percent_string x :
  displayable x = true -> percent_string (toFixed x 2 ++ "%")%string = true.
Proof.
  intros H. unfold percent_string. rewrite list_ascii_of_string_app, rev_app_distr.
  simpl. rewrite rev_involutive. apply toFixed_fixed_point. exact H.
Qed.

(** The digits printed are those of the nearest multiple of [10^-f], the
    larger one on a tie. *)
Lemma round_half_up_nearest num den :
  0 < den ->
  2 * num - den < 2 * den * round_half_up num den <= 2 * num + den.
Proof.
  intros Hd. unfold round_half_up.
  pose proof (Z.div_mod (2 * num + den) (2 * den) ltac:(lia)) as E.
  pose proof (Z.mod_pos_bound (2 * num + den) (2 * den) ltac:(lia)) as B.
  lia.
Qed.

Lemma usd_of_displayable x : displayable x = true -> usd_of x (usd x).
Proof. intros H. split; [reflexivity|apply usd_is_usd_string; exact H]. Qed.

Lemma formatted_breakdown l :
  forallb displayable_token l = true ->
  Forall2 formatted_entry l
    (map (fun t => {| Formatted.address := address (token t);
                      Formatted.symbol := symbol (token t);
                      Formatted.balance := toFixed (balanceEth t) 6;
                      Formatted.valueUSD := usd (valueUSD t) |}) l).
Proof.
  induction l as [|c l IH]; simpl; intros H; constructor.
  - apply andb_true_iff in H. destruct H as [H _].
    apply andb_true_iff in H. destruct H as [Hb Hv].
    unfold formatted_entry. simpl.
    repeat split; try reflexivity.
    + apply (toFixed_fixed_point (balanceEth c) 5 Hb).
    + apply usd_is_usd_string. exact Hv.
  - apply IH. apply andb_true_iff in H. apply H.
Qed.

(** C8, as the code has it. For a result whose amounts are finite and below
    1e21 in magnitude, the formatter gives every USD amount as [$] and a
    number with two decimals, the percentage with two decimals and [%], the
    resource amount with two decimals, every breakdown entry as address,
    symbol, balance with six decimals and USD value, the two flags
    unchanged, the dust count, and [filtered] exactly when that count is
    positive. *)
Theorem format_displayable_result :
  forall r,
    displayable_result r = true ->
    let f := formatProfitData r in
    Formatted.uniAmount f = toFixed (uniAmount r) 2 /\
    fixed_string 2 (Formatted.uniAmount f) = true /\
    usd_of (uniCostUSD r) (Formatted.uniCostUSD f) /\
    usd_of (totalJarValueUSD r) (Formatted.totalJarValueUSD f) /\
    usd_of (gasCostUSD r) (Formatted.gasCostUSD f) /\
    usd_of (grossProfit r) (Formatted.grossProfit f) /\
    usd_of (netProfit r) (Formatted.netProfit f) /\
    usd_of (minimumOutputUSD r) (Formatted.minimumOutputUSD f) /\
    usd_of (savedGasUSD r) (Formatted.savedGas f) /\
    Formatted.profitPercentage f = (toFixed (profitPercentage r) 2 ++ "%")%string /\
    percent_string (Formatted.profitPercentage f) = true /\
    Formatted.isProfitable f = isProfitable r /\
    Formatted.meetsThreshold f = meetsThreshold r /\
    Forall2 formatted_entry (tokenBreakdown r) (Formatted.tokenBreakdown f) /\
    Formatted.dustCount f = filteredCount r /\
    (Formatted.filtered f = true <-> 0 < Formatted.dustCount f).
Proof.
  intros r H. unfold displayable_result in H.
  do 9 (apply andb_true_iff in H; let H' := fresh "D" in destruct H as [H H']).
  cbv zeta. unfold formatProfitData. simpl.
  repeat match goal with
         | |- usd_of _ _ /\ _ => split; [apply usd_of_displayable; assumption|]
         end.
  split; [reflexivity|].
  split; [apply (toFixed_fixed_point (uniAmount r) 1 H)|].
  repeat match goal with
         | |- usd_of _ _ /\ _ => split; [apply usd_of_displayable; assumption|]
         end.
  split; [reflexivity|].
  split; [apply percent_is_percent_string; assumption|].
  split; [reflexivity|]. split; [reflexivity|].
  split; [apply formatted_breakdown; assumption|].
  split; [reflexivity|]. apply Z.ltb_lt.
Qed.

Lemma format_displayable_result_witness :
  displayable_result Scenario.result = true /\
  let f := formatProfitData Scenario.result in
  Formatted.uniAmount f = toFixed (uniAmount Scenario.result) 2 /\
  fixed_string 2 (Formatted.uniAmount f) = true /\
  usd_of (uniCostUSD Scenario.result) (Formatted.uniCostUSD f) /\
  usd_of (totalJarValueUSD Scenario.result) (Formatted.totalJarValueUSD f) /\
  usd_of (gasCostUSD Scenario.result) (Formatted.gasCostUSD f) /\
  usd_of (grossProfit Scenario.result) (Formatted.grossProfit f) /\
  usd_of (netProfit Scenario.result) (Formatted.netProfit f) /\
  usd_of (minimumOutputUSD Scenario.result) (Formatted.minimumOutputUSD f) /\
  usd_of (savedGasUSD Scenario.result) (Formatted.savedGas f) /\
  Formatted.profitPercentage f =
    (toFixed (profitPercentage Scenario.result) 2 ++ "%")%string /\
  percent_string (Formatted.profitPercentage f) = true /\
  Formatted.isProfitable f = isProfitable Scenario.result /\
  Formatted.meetsThreshold f = meetsThreshold Scenario.result /\
  Forall2 formatted_entry (tokenBreakdown Scenario.result) (Formatted.tokenBreakdown f) /\
  Formatted.dustCount f = filteredCount Scenario.result /\
  (Formatted.filtered f = true <-> 0 < Formatted.dustCount f).
Proof.
  assert (H : displayable_result Scenario.result = true) by (vm_compute; reflexivity).
  split; [exact H|]. exact (format_displayable_result Scenario.result H).
Defined.

(** The worked example, formatted. *)
Example scenario_formatted :
  formatProfitData Scenario.result =
    {| Formatted.uniAmount := "4000.00";
       Formatted.uniCostUSD := "$20000.00";
       Formatted.totalJarValueUSD := "$6500.00";
       Formatted.gasCostUSD := "$13.20";
       Formatted.grossProfit := "$-13500.00";
       Formatted.netProfit := "$-13513.20";
       Formatted.profitPercentage := "-67.57%";
       Formatted.minimumOutputUSD := "$6467.50";
       Formatted.isProfitable := false;
       Formatted.meetsThreshold := true;
       Formatted.tokenBreakdown :=
         [ {| Formatted.address := "0xa0b8"; Formatted.symbol := "USDC";
              Formatted.balance := "500.000000"; Formatted.valueUSD := "$500.00" |};
           {| Formatted.address := "0xc02a"; Formatted.symbol := "WETH";
              Formatted.balance := "2.000000"; Formatted.valueUSD := "$6000.00" |} ];
       Formatted.dustCount := 1;
       Formatted.savedGas := "$3.60";
       Formatted.filtered := true |}.
Proof. vm_compute. reflexivity. Qed.

(** C8 as stated fails for large amounts: 10^42 whole tokens at 3000 USD
    are printed in exponent notation, not with two decimals. *)
Lemma huge_amount_is_not_two_decimals :
  exists r,
    calculateProfit Scenario.threshold Scenario.uniPrice [Scenario.HUGE]
      Scenario.threshold Scenario.gasPrice = JS.Fulfilled r /\
    Formatted.totalJarValueUSD (formatProfitData r) = "$3e+45"%string /\
    usd_string (Formatted.totalJarValueUSD (formatProfitData r)) = false /\
    map Formatted.balance (Formatted.tokenBreakdown (formatProfitData r))
      = ["1e+42"%string] /\
    Forall (fun e => fixed_string 6 (Formatted.balance e) = false)
      (Formatted.tokenBreakdown (formatProfitData r)).
Proof.
  eexists. split; [vm_compute; reflexivity|].
  split; [vm_compute; reflexivity|]. split; [vm_compute; reflexivity|].
  split; [vm_compute; reflexivity|]. repeat constructor.
Qed.

(** A result that holds NaN (here: no gas price) is printed as [$NaN]. *)
Example nan_amount_formatted :
  exists r,
    calculateProfit Scenario.threshold Scenario.uniPrice Scenario.tokens
      Scenario.threshold PrimFloat.nan = JS.Fulfilled r /\
    Formatted.gasCostUSD (formatProfitData r) = "$NaN"%string /\
    Formatted.netProfit (formatProfitData r) = "$NaN"%string /\
    usd_string (Formatted.netProfit (formatProfitData r)) = false.
Proof. eexists. split; [vm_compute; reflexivity|]. repeat split. Qed.

(** * Further properties of the calculator *)

Lemma inputs_ok_dec a ts th : {inputs_ok a ts th} + {~ inputs_ok a ts th}.
Proof.
  unfold inputs_ok.
  destruct (Ethers.in_range a 18) eqn:Ha; [|right; intros (H & _); discriminate].
  destruct (Ethers.in_range th 18) eqn:Hth; [|right; intros (_ & H & _); discriminate].
  destruct (Forall_dec (fun t => token_ok t = true)
              (fun t => bool_dec (token_ok t) true) ts) as [H|H].
  - left. repeat split; assumption.
  - right. intros (_ & _ & H'). exact (H H').
Qed.

Lemma not_inputs_ok a ts th :
  ~ inputs_ok a ts th ->
  Ethers.in_range a 18 = false \/ Ethers.in_range th 18 = false \/
  Exists (fun t => token_ok t = false) ts.
Proof.
  intros H. destruct (Ethers.in_range a 18) eqn:Ha; [|left; reflexivity].
  destruct (Ethers.in_range th 18) eqn:Hth; [|right; left; reflexivity].
  right. right.
  destruct (Forall_Exists_dec (fun t => token_ok t = true)
              (fun t => bool_dec (token_ok t) true) ts) as [F|E].
  - exfalso. apply H. repeat split; assumption.
  - apply Exists_exists in E. destruct E as (t & Hin & Ht).
    apply Exists_exists. exists t. split; [exact Hin|].
    destruct (token_ok t); congruence.
Qed.

(** The promise of [calculateProfit] is fulfilled exactly on the inputs
    ethers accepts (each amount within 512 signed bits, each number of
    decimals at most 80) and rejected on all others. *)
Theorem calculateProfit_fulfils_iff :
  forall uniAmount_wei uniPrice jarTokens threshold gasPrice,
    (inputs_ok uniAmount_wei jarTokens threshold <->
     exists r, calculateProfit uniAmount_wei uniPrice jarTokens threshold gasPrice
               = JS.Fulfilled r) /\
    (~ inputs_ok uniAmount_wei jarTokens threshold <->
     exists e, calculateProfit uniAmount_wei uniPrice jarTokens threshold gasPrice
               = JS.Rejected e).
Proof.
  intros a up ts th g. split; split.
  - intros H. eexists. apply calculateProfit_eq. exact H.
  - intros (r & Hr). destruct (inputs_ok_dec a ts th) as [H|H]; [exact H|].
    destruct (calculateProfit_rejects a up ts th g (not_inputs_ok a ts th H)) as (e & He).
    congruence.
  - intros H. apply calculateProfit_rejects, not_inputs_ok, H.
  - intros (e & He) H. rewrite (calculateProfit_eq a up ts th g H) in He. discriminate.
Qed.

(** A token with 81 decimals makes the promise reject. *)
Example too_many_decimals_rejects :
  calculateProfit Scenario.threshold Scenario.uniPrice
    [Scenario.USDC;
     {| address := "0xbad0"; symbol := "BAD"; balance := 1;
        decimals := Some 81%N; price := Some 1%float |}]
    Scenario.threshold Scenario.gasPrice = JS.Rejected JS.INVALID_ARGUMENT.
Proof. vm_compute. reflexivity. Qed.

(** ** Dust tokens leave the figures alone *)

Lemma ethPrice_without pre d post :
  is_WETH d = false \/ existsb is_WETH pre = true ->
  ethPrice (pre ++ d :: post) = ethPrice (pre ++ post).
Proof.
  intros H. unfold ethPrice. rewrite !find_app_split.
  destruct H as [H|H].
  - destruct (find is_WETH pre); [reflexivity|]. simpl. rewrite H. reflexivity.
  - destruct (existsb_find _ _ H) as [w ->]. reflexivity.
Qed.

Lemma inputs_ok_without a pre d post th :
  inputs_ok a (pre ++ d :: post) th -> inputs_ok a (pre ++ post) th.
Proof.
  intros (Ha & Ht & Hts). repeat split; try assumption.
  rewrite Forall_app in *. destruct Hts as [Hpre Hpost]. split; [exact Hpre|].
  inversion Hpost; assumption.
Qed.

(** Taking a dust token out of the jar changes nothing but the dust list
    and the counts, provided the ETH price is not read from it. *)
Theorem dust_token_is_inert :
  forall uniAmount_wei uniPrice pre d post threshold gasPrice,
    inputs_ok uniAmount_wei (pre ++ d :: post) threshold ->
    is_WETH d = false \/ existsb is_WETH pre = true ->
    is_claimable (transferCostUSD (pre ++ d :: post) gasPrice) d = false ->
    exists r r',
      calculateProfit uniAmount_wei uniPrice (pre ++ d :: post) threshold gasPrice
        = JS.Fulfilled r /\
      calculateProfit uniAmount_wei uniPrice (pre ++ post) threshold gasPrice
        = JS.Fulfilled r' /\
      tokenBreakdown r = tokenBreakdown r' /\
      totalJarValueUSD r = totalJarValueUSD r' /\
      estimatedGas r = estimatedGas r' /\
      gasCostUSD r = gasCostUSD r' /\
      grossProfit r = grossProfit r' /\
      netProfit r = netProfit r' /\
      profitPercentage r = profitPercentage r' /\
      minimumOutputUSD r = minimumOutputUSD r' /\
      isProfitable r = isProfitable r' /\
      meetsThreshold r = meetsThreshold r' /\
      In d (map dust_token (dustTokens r)) /\
      filteredCount r = filteredCount r' + 1 /\
      allTokensCount r = allTokensCount r' + 1.
Proof.
  intros a up pre d post th g Hok Hsrc Hd.
  exists (profit_of a up (pre ++ d :: post) th g), (profit_of a up (pre ++ post) th g).
  split; [apply calculateProfit_eq; exact Hok|].
  split; [apply calculateProfit_eq; eapply inputs_ok_without; exact Hok|].
  unfold profit_of.
  cbn [tokenBreakdown totalJarValueUSD estimatedGas gasCostUSD grossProfit netProfit
       profitPercentage minimumOutputUSD isProfitable meetsThreshold dustTokens
       filteredCount allTokensCount].
  assert (Ec : transferCostUSD (pre ++ d :: post) g = transferCostUSD (pre ++ post) g).
  { unfold transferCostUSD. rewrite (ethPrice_without pre d post Hsrc). reflexivity. }
  rewrite (ethPrice_without pre d post Hsrc).
  rewrite Ec in Hd |- *.
  set (cost := transferCostUSD (pre ++ post) g) in *.
  assert (Ef : filter (is_claimable cost) (pre ++ d :: post) =
               filter (is_claimable cost) (pre ++ post)).
  { rewrite !filter_app. cbn [filter]. rewrite Hd. reflexivity. }
  rewrite Ef. repeat (split; [reflexivity|]).
  rewrite map_token_mkDust, !len_map.
  split.
  - apply filter_In. split; [apply in_or_app; right; left; reflexivity|].
    unfold is_dust. rewrite Hd. reflexivity.
  - split.
    + rewrite !filter_app. cbn [filter]. unfold is_dust at 2. rewrite Hd. cbn [negb].
      unfold len. rewrite !length_app. cbn [List.length]. lia.
    + unfold len. rewrite !length_app. cbn [List.length]. lia.
Qed.

(** ** The total and the entries of the breakdown *)

Lemma sum_values_fold cost l init :
  sum_values init l =
  fold_left (fun acc c => (acc + valueUSD c)%float) (map (mkClaimable cost) l) init.
Proof.
  revert init. induction l as [|t l IH]; intros init; simpl; [reflexivity|].
  rewrite <- IH. reflexivity.
Qed.

(** The total is the sum of the values listed in the breakdown, added up
    from 0 in the order of the list; gross and net profit are that total
    less the burn cost and less the gas cost. *)
Theorem total_is_sum_of_breakdown :
  forall uniAmount_wei uniPrice jarTokens threshold gasPrice,
    inputs_ok uniAmount_wei jarTokens threshold ->
    exists r,
      calculateProfit uniAmount_wei uniPrice jarTokens threshold gasPrice
        = JS.Fulfilled r /\
      totalJarValueUSD r =
        fold_left (fun acc c => (acc + valueUSD c)%float) (tokenBreakdown r) 0%float /\
      uniCostUSD r = (uniAmount r * uniPrice)%float /\
      grossProfit r = (totalJarValueUSD r - uniCostUSD r)%float /\
      netProfit r = (grossProfit r - gasCostUSD r)%float.
Proof.
  intros a up ts th g Hok. eexists. split; [apply calculateProfit_eq; exact Hok|].
  unfold profit_of.
  cbn [totalJarValueUSD tokenBreakdown uniCostUSD uniAmount grossProfit netProfit
       gasCostUSD].
  split; [apply sum_values_fold|]. repeat split.
Qed.

(** ** Signs of sums, differences and products *)

Lemma SF2R_opp x : SF2R (SFopp x) = (- SF2R x)%R.
Proof.
  destruct x as [s|s| |s m e]; simpl SFopp; try (simpl; lra).
  rewrite !SF2R_finite. destruct s; simpl; lra.
Qed.

Lemma is_fin_opp x : is_fin (SFopp x) = is_fin x.
Proof. destruct x; reflexivity. Qed.

Lemma SF2R_not_neg x : SFnot_neg x = true -> (0 <= SF2R x)%R.
Proof.
  destruct x as [s|s| |s m e]; simpl; try lra.
  intros H. apply negb_true_iff in H. subst s. simpl.
  apply Rlt_le, F2R_gt_0. lia.
Qed.

Lemma F2R_nonneg_m M e : (0 <= F2R M e)%R -> 0 <= M.
Proof.
  intros H. destruct (Z_lt_le_dec M 0) as [Hn|Hp]; [|exact Hp].
  exfalso. pose proof (F2R_gt_0 (- M) e ltac:(lia)) as G.
  rewrite F2R_opp in G. lra.
Qed.

Lemma SFnot_neg_leb x :
  x <> S754_nan -> SFnot_neg x = true -> SFleb (S754_zero false) x = true.
Proof.
  destruct x as [s|[|]| |[|] m e]; simpl; intros Hn H;
    try reflexivity; try discriminate; congruence.
Qed.

Lemma SFadd_not_neg x y :
  SFvalid x -> SFvalid y ->
  SFnot_neg x = true -> SFnot_neg y = true ->
  SFnot_neg (SFadd prec emax x y) = true.
Proof.
  intros Vx Vy Hx Hy.
  destruct (is_fin x && is_fin y) eqn:F.
  - apply andb_true_iff in F. destruct F as [Fx Fy].
    destruct (SFadd_fin x y Vx Vy Fx Fy) as (M & e & s & -> & HR).
    apply bn_not_neg. apply (F2R_nonneg_m M e). rewrite HR.
    pose proof (SF2R_not_neg x Hx). pose proof (SF2R_not_neg y Hy). lra.
  - clear Vx Vy.
    destruct x as [sx|[|]| |[|] mx ex]; destruct y as [sy|[|]| |[|] my ey];
      try discriminate F; try discriminate Hx; try discriminate Hy; reflexivity.
Qed.

Lemma SFltb_not_neg c v :
  SFltb c v = true -> SFnot_neg c = true -> SFnot_neg v = true.
Proof.
  destruct c as [sc|[|]| |[|] mc ec]; destruct v as [sv|[|]| |[|] mv ev];
    intros H1 H2; try reflexivity; try discriminate H1; try discriminate H2.
Qed.

Lemma SFsub_lt_nonneg c v :
  SFvalid c -> SFvalid v -> SFltb c v = true ->
  SFleb (S754_zero false) (SFsub prec emax v c) = true.
Proof.
  intros Vc Vv H.
  destruct (is_fin c && is_fin v) eqn:F.
  - apply andb_true_iff in F. destruct F as [Fc Fv].
    apply (SFltb_R c v Vc Vv Fc Fv) in H.
    rewrite SFsub_add_opp.
    assert (Fo : is_fin (SFopp c) = true) by (rewrite is_fin_opp; exact Fc).
    destruct (SFadd_fin v (SFopp c) Vv (SFopp_valid c Vc) Fv Fo) as (M & e & s & -> & HR).
    rewrite SF2R_opp in HR.
    apply SFnot_neg_leb; [apply bn_not_nan|].
    apply bn_not_neg. apply (F2R_nonneg_m M e). lra.
  - clear Vc Vv.
    destruct c as [sc|[|]| |[|] mc ec]; destruct v as [sv|[|]| |[|] mv ev];
      try discriminate F; try discriminate H; reflexivity.
Qed.

Lemma SF2R_one : SF2R (Prim2SF 1) = 1%R.
Proof.
  change (Prim2SF 1) with (S754_finite false 4503599627370496 (-52)).
  rewrite SF2R_finite. change (Z.pos 4503599627370496) with (2 ^ 52).
  rewrite F2R_pow2 by lia. reflexivity.
Qed.

Lemma SFmul_one_le x :
  SFvalid x -> SFleb (S754_zero false) x = true ->
  SFleb (SFmul prec emax x (Prim2SF 1)) x = true.
Proof.
  intros Vx H.
  destruct x as [s|[|]| |[|] m e]; try discriminate H; try reflexivity.
  destruct (SFmul_fin m e (Prim2SF 1) Vx (Prim2SF_valid 1) eq_refl)
    as (M & e' & s & -> & HR).
  rewrite SF2R_one in HR.
  pose proof (bn_idem false m e false Vx) as E. simpl cond_Zopp in E.
  rewrite <- E. apply bn_mono. lra.
Qed.

Lemma SFsub_zero_eqb x s :
  x <> S754_nan -> SFeqb (SFsub prec emax x (S754_zero s)) x = true.
Proof.
  intros Hn. destruct x as [sx|sx| |sx m e]; try congruence.
  - destruct sx, s; reflexivity.
  - destruct sx; reflexivity.
  - apply SFeqb_refl. discriminate.
Qed.

Lemma add_not_neg x y : not_neg x -> not_neg y -> not_neg (x + y).
Proof.
  rewrite !not_neg_spec, add_spec. apply SFadd_not_neg; apply Prim2SF_valid.
Qed.

Lemma lt_not_neg c v : (c <? v)%float = true -> not_neg c -> not_neg v.
Proof. rewrite !not_neg_spec, ltb_spec. apply SFltb_not_neg. Qed.

Lemma not_neg_leb x : PrimFloat.is_nan x = false -> not_neg x -> (0 <=? x)%float = true.
Proof.
  rewrite is_nan_false, not_neg_spec, leb_spec. apply SFnot_neg_leb.
Qed.

Lemma sub_lt_nonneg c v : (c <? v)%float = true -> (0 <=? v - c)%float = true.
Proof.
  rewrite ltb_spec, leb_spec, sub_spec. apply SFsub_lt_nonneg; apply Prim2SF_valid.
Qed.

Lemma mul_one_le x : (0 <=? x)%float = true -> (x * 1 <=? x)%float = true.
Proof.
  rewrite !leb_spec, mul_spec. apply SFmul_one_le. apply Prim2SF_valid.
Qed.

Lemma leb_not_nan_l x y : (x <=? y)%float = true -> PrimFloat.is_nan x = false.
Proof.
  intros H. apply is_nan_false. intros E. rewrite leb_spec, E in H. discriminate.
Qed.

Lemma ltb_nan_l x y : PrimFloat.is_nan x = true -> (x <? y)%float = false.
Proof. rewrite is_nan_spec, ltb_spec. intros ->. reflexivity. Qed.

Lemma ltb_irrefl x : (x <? x)%float = false.
Proof. apply fle_nan_not_lt, fle_nan_refl. Qed.

Lemma sub_zero_eqb x z :
  PrimFloat.is_nan x = false -> PrimFloat.is_zero z = true -> (x - z =? x)%float = true.
Proof.
  rewrite is_nan_false, eqb_spec, sub_spec. intros Hn Hz.
  unfold PrimFloat.is_zero in Hz. rewrite eqb_spec in Hz.
  change (Prim2SF 0) with (S754_zero false) in Hz.
  destruct (Prim2SF z) as [s|s| |s m e]; try discriminate Hz;
    try (destruct s; discriminate Hz).
  apply SFsub_zero_eqb. exact Hn.
Qed.

(** ** Net values and the slippage floor *)

(** Every entry of the breakdown carries its value less the cost of one
    transfer, and that net value is a number that is not negative. *)
Theorem claimable_net_value_not_negative :
  forall uniAmount_wei uniPrice jarTokens threshold gasPrice,
    inputs_ok uniAmount_wei jarTokens threshold ->
    exists r,
      calculateProfit uniAmount_wei uniPrice jarTokens threshold gasPrice
        = JS.Fulfilled r /\
      forall c, In c (tokenBreakdown r) ->
        netValueUSD c = (valueUSD c - transferCostUSD jarTokens gasPrice)%float /\
        (0 <=? netValueUSD c)%float = true.
Proof.
  intros a up ts th g Hok. eexists. split; [apply calculateProfit_eq; exact Hok|].
  unfold profit_of. cbn [tokenBreakdown]. intros c Hc.
  apply in_map_iff in Hc. destruct Hc as (t & <- & Ht). simpl.
  split; [reflexivity|]. apply filter_In in Ht. destruct Ht as [_ Ht].
  apply sub_lt_nonneg. exact Ht.
Qed.

Lemma sum_values_not_neg cost l :
  not_neg cost -> Forall (fun t => is_claimable cost t = true) l ->
  forall init, not_neg init -> not_neg (sum_values init l).
Proof.
  intros Hc. induction 1 as [|t l Ht _ IH]; intros init Hi; simpl; [exact Hi|].
  apply IH. apply add_not_neg; [exact Hi|].
  apply (lt_not_neg cost); assumption.
Qed.

(** With a gas price and token prices that are not negative, the jar value
    is not negative, and the minimum output after slippage is not negative
    and never above the jar value. *)
Theorem minimum_output_bounds :
  forall uniAmount_wei uniPrice jarTokens threshold gasPrice,
    inputs_ok uniAmount_wei jarTokens threshold ->
    not_neg gasPrice ->
    Forall price_not_negative jarTokens ->
    exists r,
      calculateProfit uniAmount_wei uniPrice jarTokens threshold gasPrice
        = JS.Fulfilled r /\
      minimumOutputUSD r =
        (totalJarValueUSD r * (1 - SECURITY.DEFAULT_SLIPPAGE_TOLERANCE / 100))%float /\
      (totalJarValueUSD r <? 0)%float = false /\
      (minimumOutputUSD r <? 0)%float = false /\
      (totalJarValueUSD r <? minimumOutputUSD r)%float = false.
Proof.
  intros a up ts th g Hok Hg Hp.
  eexists. split; [apply calculateProfit_eq; exact Hok|].
  unfold profit_of. cbn [minimumOutputUSD totalJarValueUSD].
  set (cost := transferCostUSD ts g).
  set (total := sum_values 0 (filter (is_claimable cost) ts)).
  set (f := (1 - SECURITY.DEFAULT_SLIPPAGE_TOLERANCE / 100)%float).
  assert (Ht : not_neg total).
  { apply (sum_values_not_neg cost).
    - apply transferCost_not_neg; assumption.
    - apply Forall_forall. intros t Hin. apply filter_In in Hin. apply Hin.
    - reflexivity. }
  split; [reflexivity|]. split; [exact Ht|].
  split; [apply mul_not_neg; [exact Ht|reflexivity]|].
  destruct (PrimFloat.is_nan total) eqn:Hn; [apply ltb_nan_l; exact Hn|].
  pose proof (not_neg_leb total Hn Ht) as H0.
  destruct (total <? total * f)%float eqn:Hlt; [|reflexivity].
  exfalso.
  pose proof (mul_one_le total H0) as H1.
  assert (Hle : (total * f <=? total * 1)%float = true).
  { apply fle_nan_leb.
    - apply fle_nan_mul; [exact H0|]. apply leb_fle_nan. reflexivity.
    - apply (ltb_not_nan_r _ _ Hlt).
    - apply (leb_not_nan_l _ _ H1). }
  pose proof (ltb_leb_trans _ _ _ Hlt Hle) as H2.
  pose proof (ltb_leb_trans _ _ _ H2 H1) as H3.
  rewrite ltb_irrefl in H3. discriminate.
Qed.

(** ** A resource price of zero *)

(** When the resource price is 0 the burn costs nothing: the cost is zero,
    the profit percentage is 0 and not a quotient by zero, and the gross
    profit is the jar value. *)
Theorem zero_resource_price :
  forall uniAmount_wei uniPrice jarTokens threshold gasPrice,
    inputs_ok uniAmount_wei jarTokens threshold ->
    PrimFloat.is_zero uniPrice = true ->
    exists r,
      calculateProfit uniAmount_wei uniPrice jarTokens threshold gasPrice
        = JS.Fulfilled r /\
      PrimFloat.is_zero (uniCostUSD r) = true /\
      profitPercentage r = 0%float /\
      (PrimFloat.is_nan (totalJarValueUSD r) = false ->
         (grossProfit r =? totalJarValueUSD r)%float = true).
Proof.
  intros a up ts th g Hok Hz.
  eexists. split; [apply calculateProfit_eq; exact Hok|].
  unfold profit_of. cbn [uniCostUSD profitPercentage grossProfit totalJarValueUSD].
  assert (Hc : PrimFloat.is_zero (Ethers.wholeUnits a 18 * up) = true).
  { apply mul_zero_is_zero; [|exact Hz]. apply wholeUnits_fin. apply Hok. }
  split; [exact Hc|]. split.
  - rewrite (is_zero_not_claimable 0 _ eq_refl Hc). reflexivity.
  - intros Hn. apply sub_zero_eqb; assumption.
Qed.

(** * Validation *)

Lemma lower_idem c : JSString.lower (JSString.lower c) = JSString.lower c.
Proof. destruct c as [[] [] [] [] [] [] [] []]; reflexivity. Qed.

Lemma is_hex_lower c : Validation.is_hex (JSString.lower c) = Validation.is_hex c.
Proof. destruct c as [[] [] [] [] [] [] [] []]; reflexivity. Qed.

Lemma toLowerCase_idem s :
  JSString.toLowerCase (JSString.toLowerCase s) = JSString.toLowerCase s.
Proof. induction s as [|c s IH]; simpl; [reflexivity|]. rewrite lower_idem, IH. reflexivity. Qed.

Lemma toLowerCase_list s :
  list_ascii_of_string (JSString.toLowerCase s) =
  map JSString.lower (list_ascii_of_string s).
Proof. induction s as [|c s IH]; simpl; [reflexivity|]. rewrite IH. reflexivity. Qed.

Lemma toLowerCase_length s : String.length (JSString.toLowerCase s) = String.length s.
Proof. induction s as [|c s IH]; simpl; [reflexivity|]. rewrite IH. reflexivity. Qed.

Lemma length_list_ascii s : List.length (list_ascii_of_string s) = String.length s.
Proof. induction s as [|c s IH]; simpl; [reflexivity|]. rewrite IH. reflexivity. Qed.

Lemma forallb_is_hex_lower l :
  forallb Validation.is_hex (map JSString.lower l) = forallb Validation.is_hex l.
Proof. induction l as [|c l IH]; simpl; [reflexivity|]. rewrite is_hex_lower, IH. reflexivity. Qed.

Lemma addressRegex_spec s :
  Validation.addressRegex s = true <->
  exists ds,
    list_ascii_of_string s = "0"%char :: "x"%char :: ds /\
    List.length ds = 40%nat /\ forallb Validation.is_hex ds = true.
Proof.
  unfold Validation.addressRegex. split.
  - intros H. destruct (list_ascii_of_string s) as [|c1 [|c2 ds]].
    + discriminate H.
    + destruct c1 as [[] [] [] [] [] [] [] []]; discriminate H.
    + destruct c1 as [[] [] [] [] [] [] [] []]; try discriminate H.
      destruct c2 as [[] [] [] [] [] [] [] []]; try discriminate H.
      apply andb_true_iff in H. destruct H as [H1 H2]. apply Nat.eqb_eq in H1.
      exists ds. repeat split; assumption.
  - intros (ds & -> & H1 & H2). rewrite H1, H2. reflexivity.
Qed.

Lemma addressRegex_lower s :
  Validation.addressRegex s = true ->
  Validation.addressRegex (JSString.toLowerCase s) = true.
Proof.
  intros H. apply addressRegex_spec in H. destruct H as (ds & E & H1 & H2).
  apply addressRegex_spec. exists (map JSString.lower ds).
  rewrite toLowerCase_list, E, length_map, forallb_is_hex_lower.
  repeat split; assumption.
Qed.

Lemma addressRegex_length s :
  Validation.addressRegex s = true -> String.length s = 42%nat.
Proof.
  intros H. apply addressRegex_spec in H. destruct H as (ds & E & H1 & _).
  rewrite <- length_list_ascii, E. simpl. rewrite H1. reflexivity.
Qed.

Lemma addressRegex_not_empty s : Validation.addressRegex s = true -> String.eqb s "" = false.
Proof. destruct s; [discriminate|reflexivity]. Qed.

Lemma validate_string s :
  Validation.addressRegex s = true ->
  Validation.validateEthereumAddress (Validation.Str s) =
  Validation.Returns (JSString.toLowerCase s).
Proof.
  intros H. unfold Validation.validateEthereumAddress.
  rewrite (addressRegex_not_empty s H), H. reflexivity.
Qed.

(** An address is accepted exactly when it is a string of [0x] and forty
    hexadecimal digits; what is returned is that string in lower case, has
    42 characters, and validates to itself. *)
Theorem validated_address_is_canonical :
  forall address r,
    Validation.validateEthereumAddress address = Validation.Returns r <->
    exists s,
      address = Validation.Str s /\
      Validation.addressRegex s = true /\
      r = JSString.toLowerCase s /\
      String.length r = 42%nat /\
      JSString.toLowerCase r = r /\
      Validation.validateEthereumAddress (Validation.Str r) = Validation.Returns r.
Proof.
  intros address r. split.
  - destruct address as [s|]; [|discriminate]. intros E.
    assert (H : Validation.addressRegex s = true).
    { unfold Validation.validateEthereumAddress in E.
      destruct (String.eqb s ""); [discriminate|].
      destruct (Validation.addressRegex s); [reflexivity|discriminate]. }
    rewrite (validate_string s H) in E. injection E as <-. exists s.
    split; [reflexivity|]. split; [exact H|]. split; [reflexivity|].
    split; [rewrite toLowerCase_length; apply addressRegex_length; exact H|].
    split; [apply toLowerCase_idem|].
    rewrite (validate_string _ (addressRegex_lower s H)), toLowerCase_idem. reflexivity.
  - intros (s & -> & H & -> & _). apply validate_string. exact H.
Qed.

Lemma map_validate_spec l : forall l',
  Validation.map_validate l = Validation.Returns l' <->
  Forall2 (fun a r => Validation.validateEthereumAddress a = Validation.Returns r) l l'.
Proof.
  induction l as [|a l IH]; intros l'; simpl.
  - split.
    + intros E. injection E as <-. constructor.
    + intros H. inversion H. reflexivity.
  - destruct (Validation.validateEthereumAddress a) as [r|m] eqn:Ea.
    + destruct (Validation.map_validate l) as [rs|m] eqn:El.
      * split.
        -- intros E. injection E as <-. constructor; [exact Ea|]. apply IH. reflexivity.
        -- intros H. inversion H as [|? r' ? rs' Hr Hrs]; subst.
           apply IH in Hrs. congruence.
      * split; [discriminate|].
        intros H. inversion H as [|? r' ? rs' Hr Hrs]; subst.
        apply IH in Hrs. discriminate.
    + split; [discriminate|].
      intros H. inversion H as [|? r' ? rs' Hr Hrs]; subst. congruence.
Qed.

(** A list of addresses is accepted exactly when it is an array of at
    least one and at most [maxLength] addresses that are each accepted; the
    result lists the validated addresses in the same order. *)
Theorem validated_address_array :
  forall addresses maxLength l',
    Validation.validateAddressArray addresses maxLength = Validation.Returns l' <->
    exists l,
      addresses = Some l /\
      0 < len l <= maxLength /\
      Forall2 (fun a r => Validation.validateEthereumAddress a = Validation.Returns r)
              l l'.
Proof.
  intros addresses maxLength l'. unfold Validation.validateAddressArray. split.
  - destruct addresses as [l|]; [|discriminate].
    destruct (len l =? 0) eqn:E0; [discriminate|].
    destruct (maxLength <? len l) eqn:Em; [discriminate|].
    intros H. exists l. split; [reflexivity|]. split.
    + apply Z.eqb_neq in E0. apply Z.ltb_ge in Em. unfold len in *. lia.
    + apply map_validate_spec. exact H.
  - intros (l & -> & [H0 Hm] & H).
    replace (len l =? 0) with false by (symmetry; apply Z.eqb_neq; lia).
    replace (maxLength <? len l) with false by (symmetry; apply Z.ltb_ge; lia).
    apply map_validate_spec. exact H.
Qed.

(** An empty array, an array that is too long and an array with a bad
    entry, each with its message. *)
Example address_array_errors :
  Validation.validateAddressArray (Some []) 20
    = Validation.Throws "Addresses array cannot be empty" /\
  Validation.validateAddressArray
    (Some [Validation.Str "0x00"; Validation.Str "0x01"; Validation.Str "0x02"]) 2
    = Validation.Throws "Too many addresses. Maximum: 2" /\
  Validation.validateAddressArray
    (Some [Validation.Str "0xC02aaA39b223FE8D0A0e5C4F27eAD9083C756Cc2";
           Validation.Str "0xC02aaA39b223FE8D0A0e5C4F27eAD9083C756Cc"]) 20
    = Validation.Throws "Invalid Ethereum address format" /\
  Validation.validateAddressArray
    (Some [Validation.Str "0xC02aaA39b223FE8D0A0e5C4F27eAD9083C756Cc2"]) 20
    = Validation.Returns ["0xc02aaa39b223fe8d0a0e5c4f27ead9083c756cc2"%string].
Proof. repeat split. Qed.

Lemma SFcompare_none x y :
  x <> S754_nan -> y <> S754_nan -> SFcompare x y <> None.
Proof.
  destruct x as [sx|[|]| |[|] mx ex]; destruct y as [sy|[|]| |[|] my ey];
    intros Hx Hy; try congruence; try discriminate; simpl;
    destruct (ex ?= ey); try discriminate;
    destruct (Pos.compare_cont Eq mx my); discriminate.
Qed.

Lemma leb_ltb_swap x y :
  PrimFloat.is_nan x = false -> PrimFloat.is_nan y = false ->
  (x <=? y)%float = negb (y <? x)%float.
Proof.
  rewrite !is_nan_false, leb_spec, ltb_spec. intros Hx Hy.
  unfold SFleb, SFltb. rewrite (SFcompare_swap (Prim2SF x) (Prim2SF y)).
  pose proof (SFcompare_none _ _ Hx Hy) as Hn.
  destruct (SFcompare (Prim2SF x) (Prim2SF y)) as [[]|]; try reflexivity. congruence.
Qed.

Lemma is_finite_not_nan x : PrimFloat.is_finite x = true -> PrimFloat.is_nan x = false.
Proof.
  unfold PrimFloat.is_finite. intros H. apply negb_true_iff in H.
  apply orb_false_iff in H. apply H.
Qed.

(** A number is accepted exactly when it is finite and above zero, and is
    returned unchanged; NaN, the infinities, zero and negative numbers are
    refused. *)
Theorem validated_number_is_positive :
  forall value name x,
    Validation.validatePositiveNumber value name = Validation.Returns x <->
    x = value /\ PrimFloat.is_finite value = true /\ (0 <? value)%float = true.
Proof.
  intros v name x. unfold Validation.validatePositiveNumber. split.
  - destruct (PrimFloat.is_nan v) eqn:Hn; [discriminate|].
    destruct (PrimFloat.is_finite v) eqn:Hf; [|discriminate]. simpl.
    destruct (v <=? 0)%float eqn:Hle; [discriminate|].
    intros E. injection E as <-. split; [reflexivity|]. split; [reflexivity|].
    rewrite (leb_ltb_swap v 0 Hn eq_refl) in Hle. apply negb_false_iff in Hle. exact Hle.
  - intros (-> & Hf & Hp).
    pose proof (is_finite_not_nan v Hf) as Hn. rewrite Hn, Hf. simpl.
    rewrite (leb_ltb_swap v 0 Hn eq_refl), Hp. reflexivity.
Qed.

Example number_errors :
  Validation.validatePositiveNumber PrimFloat.nan "amount"
    = Validation.Throws "amount must be a valid number" /\
  Validation.validatePositiveNumber PrimFloat.infinity "amount"
    = Validation.Throws "amount must be a valid number" /\
  Validation.validatePositiveNumber (-0)%float "amount"
    = Validation.Throws "amount must be positive" /\
  Validation.validatePositiveNumber 0.5%float "amount" = Validation.Returns 0.5%float.
Proof. repeat split. Qed.

(** * The price cache *)

Lemma Dict_get_set_same {V} (m : Dict.t V) k v : Dict.get (Dict.set m k v) k = Some v.
Proof.
  induction m as [|[k' v'] m IH]; simpl.
  - rewrite String.eqb_refl. reflexivity.
  - destruct (String.eqb k' k) eqn:E; simpl.
    + rewrite String.eqb_refl. reflexivity.
    + rewrite E. exact IH.
Qed.

Lemma Dict_get_set_other {V} (m : Dict.t V) k k' v :
  k <> k' -> Dict.get (Dict.set m k v) k' = Dict.get m k'.
Proof.
  intros Hne. induction m as [|[k0 v0] m IH]; simpl.
  - replace (String.eqb k k') with false by (symmetry; apply String.eqb_neq; exact Hne).
    reflexivity.
  - destruct (String.eqb k0 k) eqn:E; simpl.
    + apply String.eqb_eq in E. subst k0.
      replace (String.eqb k k') with false by (symmetry; apply String.eqb_neq; exact Hne).
      reflexivity.
    + destruct (String.eqb k0 k'); [reflexivity|exact IH].
Qed.

Lemma Dict_get_set {V} (m : Dict.t V) k k' v :
  Dict.get (Dict.set m k v) k' = if String.eqb k k' then Some v else Dict.get m k'.
Proof.
  destruct (String.eqb k k') eqn:E.
  - apply String.eqb_eq in E. subst k'. apply Dict_get_set_same.
  - apply String.eqb_neq in E. apply Dict_get_set_other. exact E.
Qed.

(** Addresses are not names of [Object.prototype]: on them the object
    [prices] is its list of own properties. *)
Lemma address_head k :
  Validation.addressRegex k = true -> exists k', k = String "0"%char k'.
Proof.
  intros H. apply addressRegex_spec in H. destruct H as (ds & E & _).
  destruct k as [|c k']; [discriminate E|]. simpl in E. injection E as -> _.
  exists k'. reflexivity.
Qed.

Lemma address_not_proto k :
  Validation.addressRegex k = true -> String.eqb k "__proto__" = false.
Proof. intros H. destruct (address_head k H) as (k' & ->). reflexivity. Qed.

Lemma address_not_inherited k :
  Validation.addressRegex k = true ->
  existsb (String.eqb k) Obj.prototype_names = false.
Proof. intros H. destruct (address_head k H) as (k' & ->). reflexivity. Qed.

Lemma Obj_set_address {V} (o : Obj.t V) k v :
  Validation.addressRegex k = true -> Obj.set o k v = Dict.set o k v.
Proof. intros H. unfold Obj.set. rewrite (address_not_proto k H). reflexivity. Qed.

Lemma Obj_get_address {V} (o : Obj.t V) k :
  Validation.addressRegex k = true ->
  Obj.get o k = option_map Obj.Own (Dict.get o k).
Proof.
  intros H. unfold Obj.get. rewrite (address_not_proto k H), (address_not_inherited k H).
  destruct (Dict.get o k); reflexivity.
Qed.

Lemma filter_none {A} (p : A -> bool) l :
  (forall a, In a l -> p a = false) -> filter p l = [].
Proof.
  induction l as [|a l IH]; intros H; simpl; [reflexivity|].
  rewrite (H a (or_introl eq_refl)). apply IH. intros b Hb. apply H. right. exact Hb.
Qed.

(** The addresses sent out are those without a fresh entry, in lower case
    and in order. *)
Lemma scan_toFetch priceCache now l : forall st,
  PriceFeeds.toFetch (fold_left (PriceFeeds.check_cache priceCache now) l st) =
  PriceFeeds.toFetch st ++
  map JSString.toLowerCase (filter (fun a => negb (PriceFeeds.fresh priceCache now a)) l).
Proof.
  induction l as [|a l IH]; intros st; simpl; [rewrite app_nil_r; reflexivity|].
  rewrite IH. unfold PriceFeeds.check_cache, PriceFeeds.fresh.
  destruct (Dict.get priceCache (JSString.toLowerCase a)) as [c|]; simpl.
  - destruct (now - PriceFeeds.timestamp c <? PriceFeeds.CACHE_DURATION); simpl.
    + reflexivity.
    + rewrite <- app_assoc. reflexivity.
  - rewrite <- app_assoc. reflexivity.
Qed.

(** The prices found in the cache are those of the fresh entries. *)
Lemma scan_prices priceCache now l :
  Forall (fun a => Validation.addressRegex a = true) l ->
  forall st k,
  Dict.get (PriceFeeds.prices (fold_left (PriceFeeds.check_cache priceCache now) l st)) k =
  if existsb (fun a => String.eqb (JSString.toLowerCase a) k
                       && PriceFeeds.fresh priceCache now a) l
  then option_map PriceFeeds.price (Dict.get priceCache k)
  else Dict.get (PriceFeeds.prices st) k.
Proof.
  induction 1 as [|a l Ha _ IH]; intros st k; simpl; [reflexivity|].
  rewrite IH. clear IH.
  destruct (existsb _ l); [rewrite orb_true_r; reflexivity|]. rewrite orb_false_r.
  unfold PriceFeeds.check_cache, PriceFeeds.fresh.
  destruct (Dict.get priceCache (JSString.toLowerCase a)) as [c|] eqn:Ec; simpl.
  - destruct (now - PriceFeeds.timestamp c <? PriceFeeds.CACHE_DURATION); simpl.
    + rewrite (Obj_set_address _ _ _ (addressRegex_lower a Ha)), Dict_get_set.
      destruct (String.eqb (JSString.toLowerCase a) k) eqn:E; simpl; [|reflexivity].
      apply String.eqb_eq in E. subst k. rewrite Ec. reflexivity.
    + rewrite andb_false_r. reflexivity.
  - rewrite andb_false_r. reflexivity.
Qed.

Lemma existsb_key_fresh priceCache now l a :
  In a l -> PriceFeeds.fresh priceCache now a = true ->
  existsb (fun a' => String.eqb (JSString.toLowerCase a') (JSString.toLowerCase a)
                     && PriceFeeds.fresh priceCache now a') l = true.
Proof.
  intros Hin Hf. apply existsb_exists. exists a. split; [exact Hin|].
  rewrite String.eqb_refl, Hf. reflexivity.
Qed.

Lemma existsb_key_stale priceCache now l a :
  PriceFeeds.fresh priceCache now a = false ->
  existsb (fun a' => String.eqb (JSString.toLowerCase a') (JSString.toLowerCase a)
                     && PriceFeeds.fresh priceCache now a') l = false.
Proof.
  intros Hf. apply not_true_is_false. intros H. apply existsb_exists in H.
  destruct H as (a' & _ & H). apply andb_true_iff in H. destruct H as [E F].
  apply String.eqb_eq in E. unfold PriceFeeds.fresh in *. rewrite E in F. congruence.
Qed.

Lemma existsb_key_absent priceCache now l k :
  (forall a, In a l -> JSString.toLowerCase a <> k) ->
  existsb (fun a' => String.eqb (JSString.toLowerCase a') k
                     && PriceFeeds.fresh priceCache now a') l = false.
Proof.
  intros Hk. apply not_true_is_false. intros H. apply existsb_exists in H.
  destruct H as (a' & Hin & H). apply andb_true_iff in H. destruct H as [E _].
  apply String.eqb_eq in E. exact (Hk a' Hin E).
Qed.

(** When every address has a fresh entry no request is sent and the
    prices are those of the cache. *)
Theorem fresh_prices_need_no_request :
  forall tokenAddresses now priceCache,
    Forall (fun a => Validation.addressRegex a = true) tokenAddresses ->
    (forall a, In a tokenAddresses -> PriceFeeds.fresh priceCache now a = true) ->
    exists prices,
      PriceFeeds.getMultipleTokenPrices tokenAddresses now priceCache
        = PriceFeeds.Now prices /\
      (forall a, In a tokenAddresses ->
         exists cached,
           Dict.get priceCache (JSString.toLowerCase a) = Some cached /\
           now - PriceFeeds.timestamp cached < PriceFeeds.CACHE_DURATION /\
           Obj.get prices (JSString.toLowerCase a)
             = Some (Obj.Own (PriceFeeds.price cached))) /\
      (forall k, Validation.addressRegex k = true ->
         (forall a, In a tokenAddresses -> JSString.toLowerCase a <> k) ->
         Obj.get prices k = None).
Proof.
  intros l now c Haddr Hall. unfold PriceFeeds.getMultipleTokenPrices.
  set (st := fold_left _ l _).
  assert (Hf : PriceFeeds.toFetch st = []).
  { unfold st. rewrite scan_toFetch. simpl.
    rewrite filter_none; [reflexivity|].
    intros a Ha. rewrite (Hall a Ha). reflexivity. }
  rewrite Hf. eexists. split; [reflexivity|]. split.
  - intros a Ha. pose proof (Hall a Ha) as Hfr. unfold PriceFeeds.fresh in Hfr.
    destruct (Dict.get c (JSString.toLowerCase a)) as [cached|] eqn:Ec; [|discriminate].
    exists cached. split; [reflexivity|]. split; [apply Z.ltb_lt; exact Hfr|].
    rewrite Forall_forall in Haddr.
    rewrite (Obj_get_address _ _ (addressRegex_lower a (Haddr a Ha))).
    unfold st. rewrite (scan_prices c now l (proj2 (Forall_forall _ l) Haddr)),
      (existsb_key_fresh c now l a Ha (Hall a Ha)), Ec.
    reflexivity.
  - intros k Hk Hno. rewrite (Obj_get_address _ _ Hk).
    unfold st. rewrite (scan_prices c now l Haddr), (existsb_key_absent c now l k Hno).
    reflexivity.
Qed.


(** ** A request that fails *)

Lemma requested_are_addresses (p : string -> bool) l :
  Forall (fun a => Validation.addressRegex a = true) l ->
  Forall (fun k => Validation.addressRegex k = true)
         (map JSString.toLowerCase (filter p l)).
Proof.
  intros H. apply Forall_forall. intros k Hk. apply in_map_iff in Hk.
  destruct Hk as (a & <- & Ha). apply filter_In in Ha.
  apply addressRegex_lower. rewrite Forall_forall in H. apply H, Ha.
Qed.

Lemma fall_back_get priceCache l :
  Forall (fun k => Validation.addressRegex k = true) l ->
  forall prices k,
  Dict.get (fold_left (PriceFeeds.fall_back priceCache) l prices) k =
  if existsb (String.eqb k) l
  then match Dict.get priceCache k with
       | Some cached => Some (PriceFeeds.price cached)
       | None => Dict.get prices k
       end
  else Dict.get prices k.
Proof.
  induction 1 as [|addr l Haddr _ IH]; intros prices k; simpl; [reflexivity|].
  rewrite IH. clear IH. unfold PriceFeeds.fall_back.
  destruct (String.eqb k addr) eqn:E; simpl.
  - apply String.eqb_eq in E. subst addr.
    destruct (Dict.get priceCache k) as [cached|] eqn:Ec.
    + rewrite (Obj_set_address _ _ _ Haddr), Dict_get_set_same.
      destruct (existsb _ l); reflexivity.
    + destruct (existsb _ l); reflexivity.
  - assert (Hne : addr <> k) by (intros ->; rewrite String.eqb_refl in E; discriminate).
    destruct (Dict.get priceCache addr) as [cached|].
    + rewrite (Obj_set_address _ _ _ Haddr), (Dict_get_set_other _ _ _ _ Hne).
      reflexivity.
    + reflexivity.
Qed.

Lemma existsb_requested priceCache now l a :
  In a l -> PriceFeeds.fresh priceCache now a = false ->
  existsb (String.eqb (JSString.toLowerCase a))
    (map JSString.toLowerCase
         (filter (fun a => negb (PriceFeeds.fresh priceCache now a)) l)) = true.
Proof.
  intros Hin Hf. apply existsb_exists. exists (JSString.toLowerCase a).
  split; [|apply String.eqb_refl].
  apply in_map. apply filter_In. split; [exact Hin|]. rewrite Hf. reflexivity.
Qed.

Lemma existsb_not_requested l k :
  (forall a, In a l -> JSString.toLowerCase a <> k) ->
  forall p, existsb (String.eqb k) (map JSString.toLowerCase (filter p l)) = false.
Proof.
  intros Hk p. apply not_true_is_false. intros H. apply existsb_exists in H.
  destruct H as (x & Hx & E). apply String.eqb_eq in E. subst x.
  apply in_map_iff in Hx. destruct Hx as (a & Ea & Ha). apply filter_In in Ha.
  exact (Hk a (proj1 Ha) Ea).
Qed.

(** For addresses: when the request fails the cache is left as it is and
    every address gets the price the cache holds for it, however old; an
    address the cache does not know gets none. *)
Theorem failed_request_serves_the_cache :
  forall tokenAddresses now priceCache,
    Forall (fun a => Validation.addressRegex a = true) tokenAddresses ->
    exists prices,
      PriceFeeds.run (PriceFeeds.getMultipleTokenPrices tokenAddresses now priceCache)
        (fun _ => PriceFeeds.Failure) priceCache = (prices, priceCache) /\
      (forall a, In a tokenAddresses ->
         Obj.get prices (JSString.toLowerCase a) =
         option_map (fun cached => Obj.Own (PriceFeeds.price cached))
                    (Dict.get priceCache (JSString.toLowerCase a))) /\
      (forall k, Validation.addressRegex k = true ->
         (forall a, In a tokenAddresses -> JSString.toLowerCase a <> k) ->
         Obj.get prices k = None).
Proof.
  intros l now c Haddr. unfold PriceFeeds.getMultipleTokenPrices.
  set (st := fold_left _ l _).
  assert (Hf : PriceFeeds.toFetch st =
               map JSString.toLowerCase
                   (filter (fun a => negb (PriceFeeds.fresh c now a)) l)).
  { unfold st. rewrite scan_toFetch. reflexivity. }
  pose proof (requested_are_addresses (fun a => negb (PriceFeeds.fresh c now a)) l Haddr)
    as Hreq.
  exists (fold_left (PriceFeeds.fall_back c) (PriceFeeds.toFetch st) (PriceFeeds.prices st)).
  split; [|split].
  - destruct (PriceFeeds.toFetch st); reflexivity.
  - intros a Ha.
    assert (Hk : Validation.addressRegex (JSString.toLowerCase a) = true).
    { apply addressRegex_lower. rewrite Forall_forall in Haddr. apply Haddr, Ha. }
    rewrite (Obj_get_address _ _ Hk), Hf, (fall_back_get c _ Hreq).
    unfold st. rewrite (scan_prices c now l Haddr).
    destruct (PriceFeeds.fresh c now a) eqn:F.
    + rewrite (existsb_key_fresh c now l a Ha F).
      destruct (existsb _ _); [|destruct (Dict.get c (JSString.toLowerCase a)); reflexivity].
      destruct (Dict.get c (JSString.toLowerCase a)); reflexivity.
    + rewrite (existsb_requested c now l a Ha F), (existsb_key_stale c now l a F).
      destruct (Dict.get c (JSString.toLowerCase a)); reflexivity.
  - intros k Hk Hno.
    rewrite (Obj_get_address _ _ Hk), Hf, (fall_back_get c _ Hreq),
      (existsb_not_requested l k Hno).
    unfold st. rewrite (scan_prices c now l Haddr), (existsb_key_absent c now l k Hno).
    reflexivity.
Qed.

(** ** A request that is answered *)

Lemma store_get data now l :
  Forall (fun k => Validation.addressRegex k = true) l ->
  forall prices priceCache k,
  Dict.get (fst (fold_left (PriceFeeds.store data now) l (prices, priceCache))) k =
    (if existsb (String.eqb k) l
     then match Dict.get data k with
          | Some p => Some p
          | None => match Dict.get priceCache k with
                    | Some cached => Some (PriceFeeds.price cached)
                    | None => Dict.get prices k
                    end
          end
     else Dict.get prices k) /\
  Dict.get (snd (fold_left (PriceFeeds.store data now) l (prices, priceCache))) k =
    (if existsb (String.eqb k) l
     then match Dict.get data k with
          | Some p => Some {| PriceFeeds.price := p; PriceFeeds.timestamp := now |}
          | None => Dict.get priceCache k
          end
     else Dict.get priceCache k).
Proof.
  induction 1 as [|addr l Haddr _ IH]; intros prices priceCache k; [split; reflexivity|].
  cbn [fold_left existsb].
  destruct (Dict.get data addr) as [p|] eqn:Ed;
    [|destruct (Dict.get priceCache addr) as [cached|] eqn:Ec].
  - assert (Hs : PriceFeeds.store data now (prices, priceCache) addr =
                 (Dict.set prices addr p,
                  Dict.set priceCache addr
                    {| PriceFeeds.price := p; PriceFeeds.timestamp := now |}))
      by (unfold PriceFeeds.store; rewrite Ed, (Obj_set_address _ _ _ Haddr); reflexivity).
    rewrite Hs. destruct (IH (Dict.set prices addr p)
                   (Dict.set priceCache addr
                      {| PriceFeeds.price := p; PriceFeeds.timestamp := now |}) k)
      as [H1 H2].
    split; [refine (eq_trans H1 _)|refine (eq_trans H2 _)];
      rewrite !Dict_get_set, (String.eqb_sym addr k);
      (destruct (String.eqb k addr) eqn:E; simpl;
       [apply String.eqb_eq in E; subst addr; rewrite Ed;
        destruct (existsb _ l); reflexivity|reflexivity]).
  - assert (Hs : PriceFeeds.store data now (prices, priceCache) addr =
                 (Dict.set prices addr (PriceFeeds.price cached), priceCache))
      by (unfold PriceFeeds.store; rewrite Ed, Ec, (Obj_set_address _ _ _ Haddr);
          reflexivity).
    rewrite Hs.
    destruct (IH (Dict.set prices addr (PriceFeeds.price cached)) priceCache k)
      as [H1 H2].
    split; [refine (eq_trans H1 _)|refine (eq_trans H2 _)];
      rewrite ?Dict_get_set, ?(String.eqb_sym addr k);
      (destruct (String.eqb k addr) eqn:E; simpl;
       [apply String.eqb_eq in E; subst addr; rewrite Ed, ?Ec;
        destruct (existsb _ l); reflexivity|reflexivity]).
  - assert (Hs : PriceFeeds.store data now (prices, priceCache) addr =
                 (prices, priceCache))
      by (unfold PriceFeeds.store; rewrite Ed, Ec; reflexivity).
    rewrite Hs. destruct (IH prices priceCache k) as [H1 H2].
    split; [refine (eq_trans H1 _)|refine (eq_trans H2 _)];
      (destruct (String.eqb k addr) eqn:E; simpl;
       [apply String.eqb_eq in E; subst addr; rewrite Ed, ?Ec;
        destruct (existsb _ l); reflexivity|reflexivity]).
Qed.

(** For addresses, on an answer: an address with a fresh entry keeps the
    cached price; an address the answer prices gets that price, and the
    cache stores it with the time of the call; an address the answer leaves
    out keeps the old price of the cache, if there is one, and its entry is
    not renewed. Entries of other addresses are untouched. *)
Theorem answered_request_updates_the_cache :
  forall tokenAddresses now priceCache data,
    Forall (fun a => Validation.addressRegex a = true) tokenAddresses ->
    exists prices priceCache',
      PriceFeeds.run (PriceFeeds.getMultipleTokenPrices tokenAddresses now priceCache)
        (fun _ => PriceFeeds.Data data) priceCache = (prices, priceCache') /\
      (forall a, In a tokenAddresses ->
         let k := JSString.toLowerCase a in
         if PriceFeeds.fresh priceCache now a
         then Obj.get prices k =
                option_map (fun cached => Obj.Own (PriceFeeds.price cached))
                           (Dict.get priceCache k) /\
              Dict.get priceCache' k = Dict.get priceCache k
         else match Dict.get data k with
              | Some p =>
                  Obj.get prices k = Some (Obj.Own p) /\
                  Dict.get priceCache' k =
                    Some {| PriceFeeds.price := p; PriceFeeds.timestamp := now |}
              | None =>
                  Obj.get prices k =
                    option_map (fun cached => Obj.Own (PriceFeeds.price cached))
                               (Dict.get priceCache k) /\
                  Dict.get priceCache' k = Dict.get priceCache k
              end) /\
      (forall k, (forall a, In a tokenAddresses -> JSString.toLowerCase a <> k) ->
         Dict.get priceCache' k = Dict.get priceCache k /\
         (Validation.addressRegex k = true -> Obj.get prices k = None)).
Proof.
  intros l now c data Haddr. unfold PriceFeeds.getMultipleTokenPrices.
  set (st := fold_left _ l _).
  assert (Hf : PriceFeeds.toFetch st =
               map JSString.toLowerCase
                   (filter (fun a => negb (PriceFeeds.fresh c now a)) l)).
  { unfold st. rewrite scan_toFetch. reflexivity. }
  pose proof (requested_are_addresses (fun a => negb (PriceFeeds.fresh c now a)) l Haddr)
    as Hreq.
  rewrite <- Hf in Hreq.
  set (r := fold_left (PriceFeeds.store data now) (PriceFeeds.toFetch st)
                      (PriceFeeds.prices st, c)).
  exists (fst r), (snd r). split; [|split].
  - unfold r. destruct (PriceFeeds.toFetch st); [reflexivity|].
    cbn [PriceFeeds.run]. apply surjective_pairing.
  - intros a Ha. cbv zeta.
    assert (Hk : Validation.addressRegex (JSString.toLowerCase a) = true).
    { apply addressRegex_lower. rewrite Forall_forall in Haddr. apply Haddr, Ha. }
    destruct (store_get data now (PriceFeeds.toFetch st) Hreq (PriceFeeds.prices st) c
                (JSString.toLowerCase a)) as [H1 H2].
    fold r in H1, H2. rewrite (Obj_get_address _ _ Hk), H1, H2, Hf.
    unfold st. rewrite (scan_prices c now l Haddr).
    destruct (PriceFeeds.fresh c now a) eqn:F.
    + rewrite (existsb_key_fresh c now l a Ha F).
      assert (Hno : existsb (String.eqb (JSString.toLowerCase a))
                (map JSString.toLowerCase
                     (filter (fun a0 => negb (PriceFeeds.fresh c now a0)) l)) = false).
      { apply not_true_is_false. intros H. apply existsb_exists in H.
        destruct H as (x & Hx & E). apply String.eqb_eq in E. subst x.
        apply in_map_iff in Hx. destruct Hx as (b & Eb & Hb). apply filter_In in Hb.
        destruct Hb as [_ Hb]. unfold PriceFeeds.fresh in F, Hb. rewrite Eb in Hb.
        rewrite F in Hb. discriminate. }
      rewrite Hno. destruct (Dict.get c (JSString.toLowerCase a)); split; reflexivity.
    + rewrite (existsb_requested c now l a Ha F), (existsb_key_stale c now l a F).
      destruct (Dict.get data (JSString.toLowerCase a)); [split; reflexivity|].
      destruct (Dict.get c (JSString.toLowerCase a)); split; reflexivity.
  - intros k Hno.
    destruct (store_get data now (PriceFeeds.toFetch st) Hreq (PriceFeeds.prices st) c k)
      as [H1 H2].
    fold r in H1, H2. rewrite H2, Hf, (existsb_not_requested l k Hno).
    split; [reflexivity|]. intros Hk.
    rewrite (Obj_get_address _ _ Hk), H1, Hf, (existsb_not_requested l k Hno).
    unfold st. rewrite (scan_prices c now l Haddr), (existsb_key_absent c now l k Hno).
    reflexivity.
Qed.

(** ** From one call to the next *)

Lemma single_fresh a now priceCache cached :
  Validation.addressRegex a = true ->
  Dict.get priceCache (JSString.toLowerCase a) = Some cached ->
  now - PriceFeeds.timestamp cached < PriceFeeds.CACHE_DURATION ->
  PriceFeeds.getMultipleTokenPrices [a] now priceCache =
  PriceFeeds.Now [(JSString.toLowerCase a, PriceFeeds.price cached)].
Proof.
  intros Ha Hc Hf. unfold PriceFeeds.getMultipleTokenPrices. cbn [fold_left].
  unfold PriceFeeds.check_cache. rewrite Hc.
  replace (now - PriceFeeds.timestamp cached <? PriceFeeds.CACHE_DURATION) with true
    by (symmetry; apply Z.ltb_lt; exact Hf).
  cbn [PriceFeeds.toFetch PriceFeeds.prices].
  rewrite (Obj_set_address _ _ _ (addressRegex_lower _ Ha)). reflexivity.
Qed.

Lemma single_unknown a now priceCache :
  Dict.get priceCache (JSString.toLowerCase a) = None ->
  PriceFeeds.getMultipleTokenPrices [a] now priceCache =
  PriceFeeds.Await [JSString.toLowerCase a]
    (fun response priceCache' =>
       match response with
       | PriceFeeds.Data data =>
           fold_left (PriceFeeds.store data now) [JSString.toLowerCase a] ([], priceCache')
       | PriceFeeds.Failure =>
           (fold_left (PriceFeeds.fall_back priceCache') [JSString.toLowerCase a] [],
            priceCache')
       end).
Proof.
  intros Hc. unfold PriceFeeds.getMultipleTokenPrices. cbn [fold_left].
  unfold PriceFeeds.check_cache. rewrite Hc. reflexivity.
Qed.

(** For addresses: a price that an answer brings is stored under the
    lower-case address with the time of the call, and for the next 60
    seconds [getTokenPrice] returns it for that address without a
    request. *)
Theorem fetched_price_is_served_from_cache :
  forall tokenAddresses now priceCache data a p now',
    Forall (fun a => Validation.addressRegex a = true) tokenAddresses ->
    In a tokenAddresses ->
    PriceFeeds.fresh priceCache now a = false ->
    Dict.get data (JSString.toLowerCase a) = Some p ->
    now' - now < PriceFeeds.CACHE_DURATION ->
    exists prices priceCache',
      PriceFeeds.run (PriceFeeds.getMultipleTokenPrices tokenAddresses now priceCache)
        (fun _ => PriceFeeds.Data data) priceCache = (prices, priceCache') /\
      Obj.get prices (JSString.toLowerCase a) = Some (Obj.Own p) /\
      Dict.get priceCache' (JSString.toLowerCase a) =
        Some {| PriceFeeds.price := p; PriceFeeds.timestamp := now |} /\
      PriceFeeds.getMultipleTokenPrices [a] now' priceCache' =
        PriceFeeds.Now [(JSString.toLowerCase a, p)] /\
      PriceFeeds.getTokenPrice a now' priceCache' =
        PriceFeeds.Now (Obj.Own (JS.or_else (Some p) 0%float)).
Proof.
  intros l now c data a p now' Haddr Ha Hf Hd Hnow.
  assert (Haa : Validation.addressRegex a = true)
    by (rewrite Forall_forall in Haddr; apply Haddr, Ha).
  pose proof (addressRegex_lower _ Haa) as Hk.
  unfold PriceFeeds.getMultipleTokenPrices at 1.
  set (st := fold_left _ l _).
  assert (Hreq : PriceFeeds.toFetch st =
                 map JSString.toLowerCase
                     (filter (fun a => negb (PriceFeeds.fresh c now a)) l)).
  { unfold st. rewrite scan_toFetch. reflexivity. }
  pose proof (requested_are_addresses (fun a => negb (PriceFeeds.fresh c now a)) l Haddr)
    as Hall.
  rewrite <- Hreq in Hall.
  set (r := fold_left (PriceFeeds.store data now) (PriceFeeds.toFetch st)
                      (PriceFeeds.prices st, c)).
  destruct (store_get data now (PriceFeeds.toFetch st) Hall (PriceFeeds.prices st) c
              (JSString.toLowerCase a)) as [H1 H2].
  fold r in H1, H2.
  rewrite Hreq, (existsb_requested c now l a Ha Hf), Hd in H1, H2.
  exists (fst r), (snd r). split.
  { unfold r. destruct (PriceFeeds.toFetch st) eqn:E.
    - exfalso. pose proof (existsb_requested c now l a Ha Hf) as Hx.
      rewrite <- Hreq in Hx. discriminate Hx.
    - cbn [PriceFeeds.run]. apply surjective_pairing. }
  split; [rewrite (Obj_get_address _ _ Hk), H1; reflexivity|]. split; [exact H2|].
  pose proof (single_fresh a now' (snd r)
                {| PriceFeeds.price := p; PriceFeeds.timestamp := now |} Haa H2 Hnow) as Hs.
  split; [exact Hs|].
  unfold PriceFeeds.getTokenPrice. rewrite Hs. cbn [PriceFeeds.and_then].
  rewrite (Obj_get_address _ _ Hk).
  cbn [Dict.get PriceFeeds.price]. rewrite String.eqb_refl. reflexivity.
Qed.

(** For an address the cache does not know, [getTokenPrice] returns 0 when
    the request fails and when the answer leaves the address out; the cache
    stays as it is. *)
Theorem unknown_price_is_zero :
  forall tokenAddress now priceCache net,
    Validation.addressRegex tokenAddress = true ->
    Dict.get priceCache (JSString.toLowerCase tokenAddress) = None ->
    (forall req data, net req = PriceFeeds.Data data ->
       Dict.get data (JSString.toLowerCase tokenAddress) = None) ->
    PriceFeeds.run (PriceFeeds.getTokenPrice tokenAddress now priceCache) net priceCache
      = (Obj.Own 0%float, priceCache).
Proof.
  intros a now c net Ha Hc Hnet. unfold PriceFeeds.getTokenPrice.
  pose proof (addressRegex_lower _ Ha) as Hk.
  rewrite (single_unknown a now c Hc). cbn [PriceFeeds.and_then PriceFeeds.run].
  destruct (net [JSString.toLowerCase a]) as [data|] eqn:En.
  - cbn [fold_left]. unfold PriceFeeds.store.
    rewrite (Hnet _ _ En), Hc, (Obj_get_address _ _ Hk). reflexivity.
  - cbn [fold_left]. unfold PriceFeeds.fall_back. rewrite Hc.
    rewrite (Obj_get_address _ _ Hk). reflexivity.
Qed.

(** Off the addresses the object behind [prices] shows: for the key
    [constructor] a failed request leaves [prices] empty, the read finds
    the inherited function, and that is what [getTokenPrice] returns. *)
Example inherited_name_is_no_price :
  forall now,
    PriceFeeds.run (PriceFeeds.getTokenPrice "constructor" now [])
      (fun _ => PriceFeeds.Failure) [] = (Obj.Inherited, []).
Proof. intros now. reflexivity. Qed.

(** * The resource price *)

Lemma SFle_nan_opp x y : SFle_nan x y -> SFle_nan (SFopp y) (SFopp x).
Proof.
  intros [->|[->|H]].
  - right. left. reflexivity.
  - left. reflexivity.
  - right. right. rewrite SFleb_opp. exact H.
Qed.

Lemma fle_nan_sub_r x y c :
  fle_nan x y = true -> fle_nan (c - y) (c - x) = true.
Proof.
  rewrite !fle_nan_spec, !sub_spec, !SFsub_add_opp. intros H.
  apply SFadd_mono_r; try apply SFopp_valid; try apply Prim2SF_valid.
  apply SFle_nan_opp. exact H.
Qed.

(** A higher resource price never gives a higher net profit: the jar side
    of the result is the same and the cost of the burn does not go down. *)
Theorem profit_antitone_in_resource_price :
  forall uniAmount_wei uniPrice uniPrice' jarTokens threshold gasPrice,
    inputs_ok uniAmount_wei jarTokens threshold ->
    0 <= uniAmount_wei ->
    (uniPrice <=? uniPrice')%float = true ->
    exists r r',
      calculateProfit uniAmount_wei uniPrice jarTokens threshold gasPrice
        = JS.Fulfilled r /\
      calculateProfit uniAmount_wei uniPrice' jarTokens threshold gasPrice
        = JS.Fulfilled r' /\
      tokenBreakdown r' = tokenBreakdown r /\
      dustTokens r' = dustTokens r /\
      totalJarValueUSD r' = totalJarValueUSD r /\
      gasCostUSD r' = gasCostUSD r /\
      (uniCostUSD r' <? uniCostUSD r)%float = false /\
      (grossProfit r <? grossProfit r')%float = false /\
      (netProfit r <? netProfit r')%float = false.
Proof.
  intros a up up' ts th g Hok Ha Hle.
  exists (profit_of a up ts th g), (profit_of a up' ts th g).
  split; [apply calculateProfit_eq; exact Hok|].
  split; [apply calculateProfit_eq; exact Hok|].
  unfold profit_of.
  cbn [tokenBreakdown dustTokens totalJarValueUSD gasCostUSD uniCostUSD grossProfit
       netProfit].
  repeat (split; [reflexivity|]).
  assert (Hc : fle_nan (Ethers.wholeUnits a 18 * up) (Ethers.wholeUnits a 18 * up') = true).
  { apply fle_nan_mul; [|apply leb_fle_nan; exact Hle].
    apply wholeUnits_nonneg; [apply Hok|exact Ha]. }
  split; [apply fle_nan_not_lt; exact Hc|].
  split; apply fle_nan_not_lt.
  - apply fle_nan_sub_r. exact Hc.
  - apply fle_nan_sub_l. apply fle_nan_sub_r. exact Hc.
Qed.

(** * The properties above, on concrete inputs *)

Lemma dust_token_is_inert_witness :
  inputs_ok Scenario.threshold ([Scenario.USDC] ++ Scenario.DUST :: [Scenario.WETH])
    Scenario.threshold /\
  (is_WETH Scenario.DUST = false \/ existsb is_WETH [Scenario.USDC] = true) /\
  is_claimable
    (transferCostUSD ([Scenario.USDC] ++ Scenario.DUST :: [Scenario.WETH])
       Scenario.gasPrice) Scenario.DUST = false /\
  exists r r',
    calculateProfit Scenario.threshold Scenario.uniPrice
      ([Scenario.USDC] ++ Scenario.DUST :: [Scenario.WETH])
      Scenario.threshold Scenario.gasPrice = JS.Fulfilled r /\
    calculateProfit Scenario.threshold Scenario.uniPrice
      ([Scenario.USDC] ++ [Scenario.WETH])
      Scenario.threshold Scenario.gasPrice = JS.Fulfilled r' /\
    tokenBreakdown r = tokenBreakdown r' /\
    totalJarValueUSD r = totalJarValueUSD r' /\
    estimatedGas r = estimatedGas r' /\
    gasCostUSD r = gasCostUSD r' /\
    grossProfit r = grossProfit r' /\
    netProfit r = netProfit r' /\
    profitPercentage r = profitPercentage r' /\
    minimumOutputUSD r = minimumOutputUSD r' /\
    isProfitable r = isProfitable r' /\
    meetsThreshold r = meetsThreshold r' /\
    In Scenario.DUST (map dust_token (dustTokens r)) /\
    filteredCount r = filteredCount r' + 1 /\
    allTokensCount r = allTokensCount r' + 1.
Proof.
  assert (H1 : inputs_ok Scenario.threshold
                 ([Scenario.USDC] ++ Scenario.DUST :: [Scenario.WETH])
                 Scenario.threshold) by exact scenario_ok.
  assert (H2 : is_WETH Scenario.DUST = false \/ existsb is_WETH [Scenario.USDC] = true)
    by (left; reflexivity).
  assert (H3 : is_claimable
                 (transferCostUSD ([Scenario.USDC] ++ Scenario.DUST :: [Scenario.WETH])
                    Scenario.gasPrice) Scenario.DUST = false) by (vm_compute; reflexivity).
  repeat (split; [assumption|]).
  exact (dust_token_is_inert Scenario.threshold Scenario.uniPrice [Scenario.USDC]
           Scenario.DUST [Scenario.WETH] Scenario.threshold Scenario.gasPrice H1 H2 H3).
Defined.

Lemma total_is_sum_of_breakdown_witness :
  inputs_ok Scenario.threshold Scenario.tokens Scenario.threshold /\
  exists r,
    calculateProfit Scenario.threshold Scenario.uniPrice Scenario.tokens
      Scenario.threshold Scenario.gasPrice = JS.Fulfilled r /\
    totalJarValueUSD r =
      fold_left (fun acc c => (acc + valueUSD c)%float) (tokenBreakdown r) 0%float /\
    uniCostUSD r = (uniAmount r * Scenario.uniPrice)%float /\
    grossProfit r = (totalJarValueUSD r - uniCostUSD r)%float /\
    netProfit r = (grossProfit r - gasCostUSD r)%float.
Proof.
  split; [exact scenario_ok|].
  exact (total_is_sum_of_breakdown Scenario.threshold Scenario.uniPrice Scenario.tokens
           Scenario.threshold Scenario.gasPrice scenario_ok).
Defined.

Lemma claimable_net_value_not_negative_witness :
  inputs_ok Scenario.threshold Scenario.tokens Scenario.threshold /\
  exists r,
    calculateProfit Scenario.threshold Scenario.uniPrice Scenario.tokens
      Scenario.threshold Scenario.gasPrice = JS.Fulfilled r /\
    forall c, In c (tokenBreakdown r) ->
      netValueUSD c =
        (valueUSD c - transferCostUSD Scenario.tokens Scenario.gasPrice)%float /\
      (0 <=? netValueUSD c)%float = true.
Proof.
  split; [exact scenario_ok|].
  exact (claimable_net_value_not_negative Scenario.threshold Scenario.uniPrice
           Scenario.tokens Scenario.threshold Scenario.gasPrice scenario_ok).
Defined.

Lemma minimum_output_bounds_witness :
  inputs_ok Scenario.threshold Scenario.tokens Scenario.threshold /\
  not_neg Scenario.gasPrice /\
  Forall price_not_negative Scenario.tokens /\
  exists r,
    calculateProfit Scenario.threshold Scenario.uniPrice Scenario.tokens
      Scenario.threshold Scenario.gasPrice = JS.Fulfilled r /\
    minimumOutputUSD r =
      (totalJarValueUSD r * (1 - SECURITY.DEFAULT_SLIPPAGE_TOLERANCE / 100))%float /\
    (totalJarValueUSD r <? 0)%float = false /\
    (minimumOutputUSD r <? 0)%float = false /\
    (totalJarValueUSD r <? minimumOutputUSD r)%float = false.
Proof.
  assert (H2 : not_neg Scenario.gasPrice) by reflexivity.
  assert (H3 : Forall price_not_negative Scenario.tokens) by (repeat constructor).
  split; [exact scenario_ok|]. split; [exact H2|]. split; [exact H3|].
  exact (minimum_output_bounds Scenario.threshold Scenario.uniPrice Scenario.tokens
           Scenario.threshold Scenario.gasPrice scenario_ok H2 H3).
Defined.

Lemma zero_resource_price_witness :
  inputs_ok Scenario.threshold Scenario.tokens Scenario.threshold /\
  PrimFloat.is_zero 0 = true /\
  exists r,
    calculateProfit Scenario.threshold 0 Scenario.tokens
      Scenario.threshold Scenario.gasPrice = JS.Fulfilled r /\
    PrimFloat.is_zero (uniCostUSD r) = true /\
    profitPercentage r = 0%float /\
    (grossProfit r =? totalJarValueUSD r)%float = true /\
    isProfitable r = true.
Proof.
  split; [exact scenario_ok|]. split; [reflexivity|].
  destruct (zero_resource_price Scenario.threshold 0%float Scenario.tokens
              Scenario.threshold Scenario.gasPrice scenario_ok eq_refl)
    as (r & Hr & H1 & H2 & H3).
  pose proof Hr as Er. rewrite (calculateProfit_eq _ _ _ _ _ scenario_ok) in Er.
  injection Er as Er.
  exists r. split; [exact Hr|]. split; [exact H1|]. split; [exact H2|].
  split; [apply H3; rewrite <- Er; vm_compute; reflexivity|].
  rewrite <- Er. vm_compute. reflexivity.
Defined.

Lemma promise_meets_threshold_witness :
  inputs_ok Scenario.threshold Scenario.tokens Scenario.threshold /\
  exists r,
    calculateProfit Scenario.threshold Scenario.uniPrice Scenario.tokens
      Scenario.threshold Scenario.gasPrice = JS.Fulfilled r /\
    uniAmount r = Ethers.wholeUnits Scenario.threshold 18 /\
    meetsThreshold r = true.
Proof.
  split; [exact scenario_ok|].
  exact (promise_meets_threshold Scenario.tokens Scenario.uniPrice Scenario.threshold
           Scenario.gasPrice scenario_ok).
Defined.

Lemma profit_antitone_in_resource_price_witness :
  inputs_ok Scenario.threshold Scenario.tokens Scenario.threshold /\
  0 <= Scenario.threshold /\
  (5 <=? 6)%float = true /\
  exists r r',
    calculateProfit Scenario.threshold 5 Scenario.tokens
      Scenario.threshold Scenario.gasPrice = JS.Fulfilled r /\
    calculateProfit Scenario.threshold 6 Scenario.tokens
      Scenario.threshold Scenario.gasPrice = JS.Fulfilled r' /\
    tokenBreakdown r' = tokenBreakdown r /\
    dustTokens r' = dustTokens r /\
    totalJarValueUSD r' = totalJarValueUSD r /\
    gasCostUSD r' = gasCostUSD r /\
    (uniCostUSD r' <? uniCostUSD r)%float = false /\
    (grossProfit r <? grossProfit r')%float = false /\
    (netProfit r <? netProfit r')%float = false.
Proof.
  assert (H2 : 0 <= Scenario.threshold) by (vm_compute; discriminate).
  split; [exact scenario_ok|]. split; [exact H2|]. split; [reflexivity|].
  exact (profit_antitone_in_resource_price Scenario.threshold 5%float 6%float
           Scenario.tokens Scenario.threshold Scenario.gasPrice scenario_ok H2 eq_refl).
Defined.

(** One address in three spellings, and strings that are refused. *)
Example address_spellings :
  Validation.validateEthereumAddress (Validation.Str Cases.WETH_ADDRESS)
    = Validation.Returns "0xc02aaa39b223fe8d0a0e5c4f27ead9083c756cc2"%string /\
  Validation.validateEthereumAddress
    (Validation.Str "0xc02aaa39b223fe8d0a0e5c4f27ead9083c756cc2")
    = Validation.Returns "0xc02aaa39b223fe8d0a0e5c4f27ead9083c756cc2"%string /\
  Validation.validateEthereumAddress
    (Validation.Str "0XC02AAA39B223FE8D0A0E5C4F27EAD9083C756CC2")
    = Validation.Throws "Invalid Ethereum address format" /\
  Validation.validateEthereumAddress (Validation.Str "")
    = Validation.Throws "Address must be a string" /\
  Validation.validateEthereumAddress Validation.NotString
    = Validation.Throws "Address must be a string".
Proof. repeat split. Qed.

Lemma fresh_prices_need_no_request_witness :
  Forall (fun a => Validation.addressRegex a = true) [Cases.WETH_ADDRESS] /\
  (forall a, In a [Cases.WETH_ADDRESS] -> PriceFeeds.fresh Cases.cache 1059999 a = true) /\
  exists prices,
    PriceFeeds.getMultipleTokenPrices [Cases.WETH_ADDRESS] 1059999 Cases.cache
      = PriceFeeds.Now prices /\
    (forall a, In a [Cases.WETH_ADDRESS] ->
       exists cached,
         Dict.get Cases.cache (JSString.toLowerCase a) = Some cached /\
         1059999 - PriceFeeds.timestamp cached < PriceFeeds.CACHE_DURATION /\
         Obj.get prices (JSString.toLowerCase a)
           = Some (Obj.Own (PriceFeeds.price cached))) /\
    (forall k, Validation.addressRegex k = true ->
       (forall a, In a [Cases.WETH_ADDRESS] -> JSString.toLowerCase a <> k) ->
       Obj.get prices k = None).
Proof.
  assert (H0 : Forall (fun a => Validation.addressRegex a = true) [Cases.WETH_ADDRESS])
    by (repeat constructor).
  assert (H : forall a, In a [Cases.WETH_ADDRESS] ->
                PriceFeeds.fresh Cases.cache 1059999 a = true).
  { intros a [<-|[]]. reflexivity. }
  split; [exact H0|]. split; [exact H|].
  exact (fresh_prices_need_no_request [Cases.WETH_ADDRESS] 1059999 Cases.cache H0 H).
Defined.

(** One millisecond later the entry is stale and the address is asked for. *)
Example stale_entry_is_requested :
  exists resume,
    PriceFeeds.getMultipleTokenPrices [Cases.WETH_ADDRESS; Cases.USDC_ADDRESS]
      1060000 Cases.cache
    = PriceFeeds.Await ["0xc02aaa39b223fe8d0a0e5c4f27ead9083c756cc2"%string;
                        "0xa0b86991c6218b36c1d19d4a2e9eb0ce3606eb48"%string] resume.
Proof. eexists. reflexivity. Qed.

Lemma failed_request_serves_the_cache_witness :
  Forall (fun a => Validation.addressRegex a = true)
         [Cases.WETH_ADDRESS; Cases.USDC_ADDRESS] /\
  exists prices,
    PriceFeeds.run
      (PriceFeeds.getMultipleTokenPrices [Cases.WETH_ADDRESS; Cases.USDC_ADDRESS]
         1060000 Cases.cache)
      (fun _ => PriceFeeds.Failure) Cases.cache = (prices, Cases.cache) /\
    (forall a, In a [Cases.WETH_ADDRESS; Cases.USDC_ADDRESS] ->
       Obj.get prices (JSString.toLowerCase a) =
       option_map (fun cached => Obj.Own (PriceFeeds.price cached))
                  (Dict.get Cases.cache (JSString.toLowerCase a))) /\
    (forall k, Validation.addressRegex k = true ->
       (forall a, In a [Cases.WETH_ADDRESS; Cases.USDC_ADDRESS] ->
          JSString.toLowerCase a <> k) ->
       Obj.get prices k = None).
Proof.
  assert (H0 : Forall (fun a => Validation.addressRegex a = true)
                      [Cases.WETH_ADDRESS; Cases.USDC_ADDRESS])
    by (repeat constructor).
  split; [exact H0|].
  exact (failed_request_serves_the_cache [Cases.WETH_ADDRESS; Cases.USDC_ADDRESS]
           1060000 Cases.cache H0).
Defined.

Lemma answered_request_updates_the_cache_witness :
  Forall (fun a => Validation.addressRegex a = true)
         [Cases.WETH_ADDRESS; Cases.USDC_ADDRESS] /\
  exists prices priceCache',
    PriceFeeds.run
      (PriceFeeds.getMultipleTokenPrices [Cases.WETH_ADDRESS; Cases.USDC_ADDRESS]
         1060000 Cases.cache)
      (fun _ => PriceFeeds.Data Cases.answer) Cases.cache = (prices, priceCache') /\
    (forall a, In a [Cases.WETH_ADDRESS; Cases.USDC_ADDRESS] ->
       let k := JSString.toLowerCase a in
       if PriceFeeds.fresh Cases.cache 1060000 a
       then Obj.get prices k =
              option_map (fun cached => Obj.Own (PriceFeeds.price cached))
                         (Dict.get Cases.cache k) /\
            Dict.get priceCache' k = Dict.get Cases.cache k
       else match Dict.get Cases.answer k with
            | Some p =>
                Obj.get prices k = Some (Obj.Own p) /\
                Dict.get priceCache' k =
                  Some {| PriceFeeds.price := p; PriceFeeds.timestamp := 1060000 |}
            | None =>
                Obj.get prices k =
                  option_map (fun cached => Obj.Own (PriceFeeds.price cached))
                             (Dict.get Cases.cache k) /\
                Dict.get priceCache' k = Dict.get Cases.cache k
            end) /\
    (forall k, (forall a, In a [Cases.WETH_ADDRESS; Cases.USDC_ADDRESS] ->
                  JSString.toLowerCase a <> k) ->
       Dict.get priceCache' k = Dict.get Cases.cache k /\
       (Validation.addressRegex k = true -> Obj.get prices k = None)).
Proof.
  assert (H0 : Forall (fun a => Validation.addressRegex a = true)
                      [Cases.WETH_ADDRESS; Cases.USDC_ADDRESS])
    by (repeat constructor).
  split; [exact H0|].
  exact (answered_request_updates_the_cache [Cases.WETH_ADDRESS; Cases.USDC_ADDRESS]
           1060000 Cases.cache Cases.answer H0).
Defined.

Lemma fetched_price_is_served_from_cache_witness :
  Forall (fun a => Validation.addressRegex a = true)
         [Cases.WETH_ADDRESS; Cases.USDC_ADDRESS] /\
  In Cases.USDC_ADDRESS [Cases.WETH_ADDRESS; Cases.USDC_ADDRESS] /\
  PriceFeeds.fresh Cases.cache 1000500 Cases.USDC_ADDRESS = false /\
  Dict.get Cases.answer (JSString.toLowerCase Cases.USDC_ADDRESS) = Some 1%float /\
  1060499 - 1000500 < PriceFeeds.CACHE_DURATION /\
  exists prices priceCache',
    PriceFeeds.run
      (PriceFeeds.getMultipleTokenPrices [Cases.WETH_ADDRESS; Cases.USDC_ADDRESS]
         1000500 Cases.cache)
      (fun _ => PriceFeeds.Data Cases.answer) Cases.cache = (prices, priceCache') /\
    Obj.get prices (JSString.toLowerCase Cases.USDC_ADDRESS) = Some (Obj.Own 1%float) /\
    Dict.get priceCache' (JSString.toLowerCase Cases.USDC_ADDRESS) =
      Some {| PriceFeeds.price := 1%float; PriceFeeds.timestamp := 1000500 |} /\
    PriceFeeds.getMultipleTokenPrices [Cases.USDC_ADDRESS] 1060499 priceCache' =
      PriceFeeds.Now [(JSString.toLowerCase Cases.USDC_ADDRESS, 1%float)] /\
    PriceFeeds.getTokenPrice Cases.USDC_ADDRESS 1060499 priceCache' =
      PriceFeeds.Now (Obj.Own (JS.or_else (Some 1%float) 0%float)).
Proof.
  assert (H0 : Forall (fun a => Validation.addressRegex a = true)
                      [Cases.WETH_ADDRESS; Cases.USDC_ADDRESS])
    by (repeat constructor).
  assert (H1 : In Cases.USDC_ADDRESS [Cases.WETH_ADDRESS; Cases.USDC_ADDRESS])
    by (right; left; reflexivity).
  assert (H2 : PriceFeeds.fresh Cases.cache 1000500 Cases.USDC_ADDRESS = false)
    by reflexivity.
  assert (H3 : Dict.get Cases.answer (JSString.toLowerCase Cases.USDC_ADDRESS)
               = Some 1%float) by reflexivity.
  assert (H4 : 1060499 - 1000500 < PriceFeeds.CACHE_DURATION) by (vm_compute; reflexivity).
  repeat (split; [assumption|]).
  exact (fetched_price_is_served_from_cache
           [Cases.WETH_ADDRESS; Cases.USDC_ADDRESS] 1000500 Cases.cache Cases.answer
           Cases.USDC_ADDRESS 1%float 1060499 H0 H1 H2 H3 H4).
Defined.

Lemma unknown_price_is_zero_witness :
  Validation.addressRegex PriceFeeds.UNI_TOKEN = true /\
  Dict.get (PriceFeeds.clearPriceCache Cases.cache)
           (JSString.toLowerCase PriceFeeds.UNI_TOKEN) = None /\
  (forall req data, (fun _ : list string => PriceFeeds.Failure) req = PriceFeeds.Data data ->
     Dict.get data (JSString.toLowerCase PriceFeeds.UNI_TOKEN) = None) /\
  PriceFeeds.run (PriceFeeds.getUniPrice 1000500 (PriceFeeds.clearPriceCache Cases.cache))
    (fun _ => PriceFeeds.Failure) (PriceFeeds.clearPriceCache Cases.cache)
    = (Obj.Own 0%float, PriceFeeds.clearPriceCache Cases.cache).
Proof.
  assert (H0 : Validation.addressRegex PriceFeeds.UNI_TOKEN = true) by reflexivity.
  assert (H1 : Dict.get (PriceFeeds.clearPriceCache Cases.cache)
                 (JSString.toLowerCase PriceFeeds.UNI_TOKEN) = None) by reflexivity.
  assert (H2 : forall req data,
             (fun _ : list string => PriceFeeds.Failure) req = PriceFeeds.Data data ->
             Dict.get data (JSString.toLowerCase PriceFeeds.UNI_TOKEN) = None)
    by (intros req data E; discriminate E).
  split; [exact H0|]. split; [exact H1|]. split; [exact H2|].
  exact (unknown_price_is_zero PriceFeeds.UNI_TOKEN 1000500
           (PriceFeeds.clearPriceCache Cases.cache) (fun _ => PriceFeeds.Failure)
           H0 H1 H2).
Defined.

(** * The price feed that asks for one address at a time *)


(** The three cases on the WETH entry stored at 1000000: served at
    1029999; at 1030000 asked for, the answer's 3100 returned and stored
    with the time 1030250 of the answer; at 1030000 with a failed request
    the old 3000 returned. *)
Example single_price_cases :
  PriceFeedsSingle.getTokenPrice Cases.WETH_ADDRESS 1029999 Cases.cache
    = PriceFeedsSingle.Now (Validation.Returns 3000%float) /\
  PriceFeedsSingle.run
    (PriceFeedsSingle.getTokenPrice Cases.WETH_ADDRESS 1030000 Cases.cache)
    (fun _ => PriceFeeds.Data
                [("0xc02aaa39b223fe8d0a0e5c4f27ead9083c756cc2"%string, 3100%float)])
    1030250 Cases.cache
  = (Validation.Returns 3100%float,
     [("0xc02aaa39b223fe8d0a0e5c4f27ead9083c756cc2"%string,
       {| PriceFeeds.price := 3100%float; PriceFeeds.timestamp := 1030250 |})]) /\
  PriceFeedsSingle.run
    (PriceFeedsSingle.getTokenPrice Cases.WETH_ADDRESS 1030000 Cases.cache)
    (fun _ => PriceFeeds.Failure) 1030250 Cases.cache
  = (Validation.Returns 3000%float, Cases.cache).
Proof. repeat split. Qed.



(** A price of 0 in the answer and nothing in the cache: the call throws. *)
Example single_zero_price_throws :
  PriceFeedsSingle.run
    (PriceFeedsSingle.getTokenPrice Cases.USDC_ADDRESS 1030000 Cases.cache)
    (fun _ => PriceFeeds.Data
                [("0xa0b86991c6218b36c1d19d4a2e9eb0ce3606eb48"%string, 0%float)])
    1030250 Cases.cache
  = (Validation.Throws "Unable to fetch token price", Cases.cache).
Proof. reflexivity. Qed.
